(** * n2n4m: the band-depth engine of [summary_parameters.py]

    A shallow embedding of [n2n4m/summary_parameters.py], the band-depth
    engine and the summary parameters built on it, and of the parts of Python
    and NumPy it rests on, together with the properties the specification
    states about it and further properties of the code.

    Reflectances and wavelengths are IEEE 754 binary64 numbers, as Python's
    [float] and NumPy's [float64] are: they are modelled by Rocq's primitive
    floats, whose operations are specified by [SpecFloat] through
    [FloatAxioms].  Integer inputs of the tests ([1], [2], [3]) are read at
    their binary64 value, which is what Python's true division and NumPy's
    [median] turn them into. *)

From Stdlib Require Import ZArith List Bool Lia Floats Sorted.
From stdpp Require Import base option list gmap.
Import ListNotations.

Set Warnings "-inexact-float".

(** ** Exceptions *)

(** The two exceptions the engine can raise: [ZeroDivisionError] from Python's
    [/] on numbers, [ValueError] from [tuple.index] and from a failed NumPy
    broadcast. *)
Inductive exception : Set :=
| ZeroDivisionError
| ValueError.

Inductive result (A : Type) : Type :=
| Ok (a : A)
| Raise (e : exception).
Arguments Ok {A} a.
Arguments Raise {A} e.

Definition rbind {A B} (m : result A) (k : A -> result B) : result B :=
  match m with
  | Ok a => k a
  | Raise e => Raise e
  end.

#[global] Instance result_bind : MBind result := fun A B k m => rbind m k.
#[global] Instance result_ret : MRet result := fun A a => Ok a.

(** ** Python and NumPy primitives *)

Module Py.

(** [x / y] on Python numbers: a zero divisor (of either sign) raises. *)
Definition truediv (x y : float) : result float :=
  if PrimFloat.eqb y 0%float then Raise ZeroDivisionError
  else Ok (PrimFloat.div x y).

(** [t.index(x)] on values: position of the first element equal to [x]
    under [==], [ValueError] when there is none.  Python tries identity
    before [==]; for a request that is not NaN, or that is no object of the
    tuple, this is the search it makes.  The search on objects, identity
    included, is [find_number] below; the two agree on every such request
    ([find_number_values], [find_number_other_object]). *)
Fixpoint find_index (t : list float) (x : float) : option nat :=
  match t with
  | [] => None
  | y :: t' =>
      if PrimFloat.eqb y x then Some O
      else option_map S (find_index t' x)
  end.

Definition tuple_index (t : list float) (x : float) : result nat :=
  match find_index t x with
  | Some i => Ok i
  | None => Raise ValueError
  end.

(** [k // 2] on Python integers (floor division). *)
Definition floordiv2 (k : Z) : Z := (k / 2)%Z.

(** Bounds of a slice with step 1 on a sequence of length [n]
    ([PySlice_AdjustIndices]): a negative bound counts from the end, and
    what is still out of range is cut to [0] or [n]. *)
Definition adjust_index (n i : Z) : Z :=
  if (i <? 0)%Z then Z.max (i + n) 0 else Z.min i n.

(** [l[start:stop]]. *)
Definition slice {A} (l : list A) (start stop : Z) : list A :=
  let n := Z.of_nat (length l) in
  let lo := adjust_index n start in
  let hi := adjust_index n stop in
  firstn (Z.to_nat (hi - lo)) (skipn (Z.to_nat lo) l).

(** A number as an object: its value and its identity.  Two numbers are the
    same object ([a is b]) when they have the same identity; an object has
    one value, so that they then have the same value as well. *)
Record number : Type := { value : float; ident : positive }.

Definition same_object (a b : number) : bool :=
  Pos.eqb (ident a) (ident b) && PrimFloat.Leibniz.eqb (value a) (value b).

(** [PyObject_RichCompareBool(a, b, Py_EQ)], the comparison [tuple.index]
    makes: identity first, then [==]. *)
Definition rich_eq (a b : number) : bool :=
  same_object a b || PrimFloat.eqb (value a) (value b).

(** [t.index(x)] on objects: position of the first element that is [x]
    itself or equals it, [ValueError] when there is none. *)
Fixpoint find_number (t : list number) (x : number) : option nat :=
  match t with
  | [] => None
  | y :: t' =>
      if rich_eq y x then Some O
      else option_map S (find_number t' x)
  end.

Definition index (t : list number) (x : number) : result nat :=
  match find_number t x with
  | Some i => Ok i
  | None => Raise ValueError
  end.

End Py.

Module Np.

(** A one-dimensional [float64] array is the list of its elements, a
    two-dimensional one the list of its rows. *)
Definition array1 := list float.
Definition array2 := list (list float).

Definition any_nan (l : list float) : bool := existsb PrimFloat.is_nan l.

(** Ascending sort, by insertion. [median] only sorts NaN-free data, on
    which [<=] is a total preorder. *)
Fixpoint insert_sorted (x : float) (l : list float) : list float :=
  match l with
  | [] => [x]
  | y :: l' =>
      if PrimFloat.leb x y then x :: l else y :: insert_sorted x l'
  end.

Definition sort (l : list float) : list float :=
  fold_right insert_sorted [] l.

(** [np.add.reduce]: the empty sum is [0.0], otherwise the elements are
    added from the first one on. *)
Definition sum (l : list float) : float :=
  match l with
  | [] => 0%float
  | x :: l' => fold_left PrimFloat.add l' x
  end.

Definition float_of_nat (n : nat) : float :=
  PrimFloat.of_uint63 (Uint63.of_Z (Z.of_nat n)).

(** [np.mean]: sum over count; [nan] (0/0) on the empty array. *)
Definition mean (l : list float) : float :=
  PrimFloat.div (sum l) (float_of_nat (length l)).

(** [np.median] along one spectrum: [nan] as soon as one element is NaN;
    otherwise the mean of the middle element (odd length) or of the two
    middle elements (even length) of the sorted data; [nan] on the empty
    array. *)
Definition median (l : list float) : float :=
  if any_nan l then PrimFloat.nan
  else
    let s := sort l in
    let n := length s in
    let index := Nat.div n 2 in
    if Nat.odd n then mean (firstn 1 (skipn index s))
    else mean (firstn 2 (skipn (index - 1) s)).

(** Broadcasting of two one-dimensional operands: equal lengths go
    elementwise, a length-one operand is repeated, anything else is a shape
    mismatch. *)
Fixpoint zip_with {A B C} (f : A -> B -> C) (xs : list A) (ys : list B)
  : list C :=
  match xs, ys with
  | x :: xs', y :: ys' => f x y :: zip_with f xs' ys'
  | _, _ => []
  end.

Definition broadcast (f : float -> float -> float) (xs ys : array1)
  : result array1 :=
  if Nat.eqb (length xs) (length ys) then Ok (zip_with f xs ys)
  else
    match xs, ys with
    | [x], _ => Ok (map (fun y => f x y) ys)
    | _, [y] => Ok (map (fun x => f x y) xs)
    | _, _ => Raise ValueError
    end.

Definition add := broadcast PrimFloat.add.
Definition divide := broadcast PrimFloat.div.

(** [c * arr] and [c - arr] for a Python scalar [c]. *)
Definition scalar_mul (c : float) (xs : array1) : array1 :=
  map (fun x => PrimFloat.mul c x) xs.
Definition scalar_rsub (c : float) (xs : array1) : array1 :=
  map (fun x => PrimFloat.sub c x) xs.

(** [arr[arr < 0] = 0] on an array nobody else holds. *)
Definition clamp_negative (xs : array1) : array1 :=
  map (fun x => if PrimFloat.ltb x 0%float then 0%float else x) xs.

(** [np.median(spectra[:, start:stop], axis=1)]. *)
Definition median_of_columns (spectra : array2) (start stop : Z) : array1 :=
  map (fun row => median (Py.slice row start stop)) spectra.

(** [np.ones(n)] and [x - y] on arrays. *)
Definition ones (n : nat) : array1 := repeat 1%float n.
Definition subtract := broadcast PrimFloat.sub.

(** A two-dimensional array with its number of bands ([shape[1]]), which an
    array without any spectrum still has. *)
Record matrix : Type := { rows : array2; bands : nat }.

(** [spectra[:, i]] for an index [i >= 0]: band [i] of every spectrum;
    [None], an [IndexError], when the array has no band [i]. *)
Definition column (spectra : matrix) (i : nat) : option array1 :=
  if (i <? bands spectra)%nat
  then Some (map (fun row => nth i row 0%float) (rows spectra))
  else None.

End Np.

(** ** The engine: [summary_parameters.py] *)

Definition wavelength_weights
  (short_wavelength center_wavelength long_wavelength : float)
  : result (float * float) :=
  b ← Py.truediv (PrimFloat.sub center_wavelength short_wavelength)
                  (PrimFloat.sub long_wavelength short_wavelength);
  let a := PrimFloat.sub 1%float b in
  Ok (a, b).

Definition interpolated_center_wavelength_reflectance
  (short_ref : Np.array1) (bd_wavelengths : float * float * float)
  (long_ref : Np.array1) : result Np.array1 :=
  let '(w0, w1, w2) := bd_wavelengths in
  '(a, b) ← wavelength_weights w0 w1 w2;
  Np.add (Np.scalar_mul a short_ref) (Np.scalar_mul b long_ref).

Definition band_depth_calculation
  (spectra : Np.array2) (all_wavelengths : list float)
  (bd_wavelengths : float * float * float) (kernel_sizes : Z * Z * Z)
  : result Np.array1 :=
  let '(short_wavelength, center_wavelength, long_wavelength) :=
    bd_wavelengths in
  let '(k0, k1, k2) := kernel_sizes in
  let half_kernel_sizes :=
    (Py.floordiv2 k0, Py.floordiv2 k1, Py.floordiv2 k2) in
  let '(h0, h1, h2) := half_kernel_sizes in
  i0 ← Py.tuple_index all_wavelengths short_wavelength;
  let short_ref :=
    Np.median_of_columns spectra (Z.of_nat i0 - h0) (Z.of_nat i0 + h0 + 1) in
  i1 ← Py.tuple_index all_wavelengths center_wavelength;
  let center_ref :=
    Np.median_of_columns spectra (Z.of_nat i1 - h1) (Z.of_nat i1 + h1 + 1) in
  i2 ← Py.tuple_index all_wavelengths long_wavelength;
  let long_ref :=
    Np.median_of_columns spectra (Z.of_nat i2 - h2) (Z.of_nat i2 + h2 + 1) in
  interpolated_center_ref ←
    interpolated_center_wavelength_reflectance short_ref bd_wavelengths long_ref;
  Np.divide center_ref interpolated_center_ref.

(** The parameters of the seven band depths the hydrated Fe/Mg clay index
    adds up, in the order of the source. *)
Definition hyd_femg_terms : list ((float * float * float) * (Z * Z * Z)) :=
  [ ((1.33578, 1.41459, 1.55264)%float, (5, 3, 5)%Z);
    ((1.86212, 1.92146, 2.07985)%float, (5, 5, 5)%Z);
    ((2.15251, 2.28472, 2.34426)%float, (3, 5, 3)%Z);
    ((2.15251, 2.30456, 2.34426)%float, (3, 3, 3)%Z);
    ((2.15251, 2.32441, 2.34426)%float, (3, 3, 3)%Z);
    ((2.34426, 2.38396, 2.4303)%float, (3, 3, 3)%Z);
    ((2.34426, 2.3972, 2.4303)%float, (3, 3, 3)%Z) ].

(** [bd = 1 - band_depth_calculation(...); bd[bd < 0] = 0]. *)
Definition clamped_depth (spectra : Np.array2) (wavelengths : list float)
  (term : (float * float * float) * (Z * Z * Z)) : result Np.array1 :=
  bd ← band_depth_calculation spectra wavelengths term.1 term.2;
  Ok (Np.clamp_negative (Np.scalar_rsub 1%float bd)).

Definition hyd_femg_clay_index_calculation
  (spectra : Np.array2) (wavelengths : list float) : result Np.array1 :=
  bd14 ← clamped_depth spectra wavelengths
    ((1.33578, 1.41459, 1.55264)%float, (5, 3, 5)%Z);
  bd19 ← clamped_depth spectra wavelengths
    ((1.86212, 1.92146, 2.07985)%float, (5, 5, 5)%Z);
  bd229 ← clamped_depth spectra wavelengths
    ((2.15251, 2.28472, 2.34426)%float, (3, 5, 3)%Z);
  bd231 ← clamped_depth spectra wavelengths
    ((2.15251, 2.30456, 2.34426)%float, (3, 3, 3)%Z);
  bd232 ← clamped_depth spectra wavelengths
    ((2.15251, 2.32441, 2.34426)%float, (3, 3, 3)%Z);
  bd238 ← clamped_depth spectra wavelengths
    ((2.34426, 2.38396, 2.4303)%float, (3, 3, 3)%Z);
  bd240 ← clamped_depth spectra wavelengths
    ((2.34426, 2.3972, 2.4303)%float, (3, 3, 3)%Z);
  s1 ← Np.add bd14 bd19;
  s2 ← Np.add s1 bd229;
  s3 ← Np.add s2 bd231;
  s4 ← Np.add s3 bd232;
  s5 ← Np.add s4 bd238;
  Np.add s5 bd240.

(** Every wavelength triple the index formulas of the file and its tests
    pass to the engine. *)
Definition source_triples : list (float * float * float) :=
  [ (1.33578, 1.41459, 1.55264); (1.86212, 1.92146, 2.07985);
    (2.15251, 2.28472, 2.34426); (2.15251, 2.30456, 2.34426);
    (2.15251, 2.32441, 2.34426); (2.34426, 2.38396, 2.4303);
    (2.34426, 2.3972, 2.4303); (1.81598, 2.30456, 2.52951);
    (1.81598, 2.32441, 2.52951); (1.81598, 2.23182, 2.52951);
    (1.81598, 2.11948, 2.52951); (1.81598, 2.17233, 2.52951);
    (1.81598, 2.21199, 2.52951); (1.55264, 1.75009, 1.81598);
    (1, 2, 3); (1, 1, 2) ]%float.

(** A grid of eighteen bands that holds every wavelength of the clay index,
    with two more bands at either end, and two spectra on it: a flat one and
    one with absorption features. *)
Definition sample_wavelengths : list float :=
  [ 1.0; 1.2; 1.33578; 1.41459; 1.55264; 1.86212; 1.92146; 2.07985; 2.15251;
    2.28472; 2.30456; 2.32441; 2.34426; 2.38396; 2.3972; 2.4303; 2.5; 2.6 ]%float.

Definition sample_spectra : Np.array2 :=
  [ [ 1; 1; 1; 1; 1; 1; 1; 1; 1; 1; 1; 1; 1; 1; 1; 1; 1; 1 ];
    [ 0.31; 0.32; 0.33; 0.25; 0.34; 0.35; 0.22; 0.36; 0.37; 0.30; 0.41; 0.29;
      0.38; 0.45; 0.33; 0.39; 0.40; 0.41 ] ]%float.

(** ** The other summary parameters of [summary_parameters.py] *)

Definition d2300_calculation
  (spectra : Np.array2) (wavelengths : list float) : result Np.array1 :=
  bd2290 ← band_depth_calculation spectra wavelengths
    (1.81598, 2.30456, 2.52951)%float (5, 3, 5)%Z;
  bd2320 ← band_depth_calculation spectra wavelengths
    (1.81598, 2.32441, 2.52951)%float (5, 3, 5)%Z;
  bd2330 ← band_depth_calculation spectra wavelengths
    (1.81598, 2.23182, 2.52951)%float (5, 3, 5)%Z;
  bd2120 ← band_depth_calculation spectra wavelengths
    (1.81598, 2.11948, 2.52951)%float (5, 5, 5)%Z;
  bd2170 ← band_depth_calculation spectra wavelengths
    (1.81598, 2.17233, 2.52951)%float (5, 5, 5)%Z;
  bd2210 ← band_depth_calculation spectra wavelengths
    (1.81598, 2.21199, 2.52951)%float (5, 5, 5)%Z;
  n1 ← Np.add bd2290 bd2320;
  numerator ← Np.add n1 bd2330;
  d1 ← Np.add bd2120 bd2170;
  denominator ← Np.add d1 bd2210;
  ratio ← Np.divide numerator denominator;
  Ok (Np.scalar_rsub 1%float ratio).

Definition bd1750_calculation
  (spectra : Np.array2) (wavelengths : list float) : result Np.array1 :=
  clamped_depth spectra wavelengths
    ((1.55264, 1.75009, 1.81598)%float, (1, 1, 1)%Z).

(** [alt_bd175_calculation] indexes single bands, so that besides the
    exceptions of the engine it can raise [IndexError]. *)
Inductive indexed (A : Type) : Type :=
| Returns (a : A)
| Raises (e : exception)
| RaisesIndexError.
Arguments Returns {A} a.
Arguments Raises {A} e.
Arguments RaisesIndexError {A}.

Definition ibind {A B} (m : indexed A) (k : A -> indexed B) : indexed B :=
  match m with
  | Returns a => k a
  | Raises e => Raises e
  | RaisesIndexError => RaisesIndexError
  end.

#[global] Instance indexed_bind : MBind indexed := fun A B k m => ibind m k.

Definition of_result {A} (r : result A) : indexed A :=
  match r with Ok a => Returns a | Raise e => Raises e end.

Definition of_column (c : option Np.array1) : indexed Np.array1 :=
  match c with Some a => Returns a | None => RaisesIndexError end.

Definition alt_bd175_calculation
  (spectra : Np.matrix) (wavelengths : list float) : indexed Np.array1 :=
  let bd175 := Np.ones (length (Np.rows spectra)) in
  lambda_c_1_idx ← of_result (Py.tuple_index wavelengths 1.75009);
  lambda_c_2_idx ← of_result (Py.tuple_index wavelengths 1.75668);
  lambda_l_idx ← of_result (Py.tuple_index wavelengths 1.77644);
  lambda_s_idx ← of_result (Py.tuple_index wavelengths 1.69082);
  c1 ← of_column (Np.column spectra lambda_c_1_idx);
  c2 ← of_column (Np.column spectra lambda_c_2_idx);
  numerator ← of_result (Np.add c1 c2);
  s ← of_column (Np.column spectra lambda_s_idx);
  l ← of_column (Np.column spectra lambda_l_idx);
  denominator ← of_result (Np.add s l);
  ratio ← of_result (Np.divide numerator denominator);
  of_result (Np.subtract bd175 ratio).

(** The wavelengths each summary parameter looks up in the grid. *)
Definition hyd_femg_wavelengths : list float :=
  [ 1.33578; 1.41459; 1.55264; 1.86212; 1.92146; 2.07985; 2.15251; 2.28472;
    2.34426; 2.30456; 2.32441; 2.38396; 2.4303; 2.3972 ]%float.

Definition d2300_wavelengths : list float :=
  [ 1.81598; 2.30456; 2.52951; 2.32441; 2.23182; 2.11948; 2.17233;
    2.21199 ]%float.

Definition bd1750_wavelengths : list float :=
  [ 1.55264; 1.75009; 1.81598 ]%float.

Definition alt_bd175_wavelengths : list float :=
  [ 1.75009; 1.75668; 1.77644; 1.69082 ]%float.

(** ** The engine on numbers that are objects

    [tuple.index] compares by identity before it compares by [==].  For a
    requested wavelength that is a number this changes nothing, since a
    number equals itself; a NaN does not, and is found in a grid that holds
    this very object.  To state the lookup for every call,
    [band_depth_calculation] is written once more with its wavelengths as
    objects; the arithmetic only reads their values. *)

Module Objects.

Definition band_depth_calculation
  (spectra : Np.array2) (all_wavelengths : list Py.number)
  (bd_wavelengths : Py.number * Py.number * Py.number)
  (kernel_sizes : Z * Z * Z) : result Np.array1 :=
  let '(short_wavelength, center_wavelength, long_wavelength) :=
    bd_wavelengths in
  let '(k0, k1, k2) := kernel_sizes in
  let half_kernel_sizes :=
    (Py.floordiv2 k0, Py.floordiv2 k1, Py.floordiv2 k2) in
  let '(h0, h1, h2) := half_kernel_sizes in
  i0 ← Py.index all_wavelengths short_wavelength;
  let short_ref :=
    Np.median_of_columns spectra (Z.of_nat i0 - h0) (Z.of_nat i0 + h0 + 1) in
  i1 ← Py.index all_wavelengths center_wavelength;
  let center_ref :=
    Np.median_of_columns spectra (Z.of_nat i1 - h1) (Z.of_nat i1 + h1 + 1) in
  i2 ← Py.index all_wavelengths long_wavelength;
  let long_ref :=
    Np.median_of_columns spectra (Z.of_nat i2 - h2) (Z.of_nat i2 + h2 + 1) in
  interpolated_center_ref ←
    interpolated_center_wavelength_reflectance short_ref
      (Py.value short_wavelength, Py.value center_wavelength,
       Py.value long_wavelength)
      long_ref;
  Np.divide center_ref interpolated_center_ref.

End Objects.

(** ** The engine on a store of arrays

    NumPy arrays are mutable objects passed by reference.  To state what the
    engine does to the arrays it is handed, the same three functions are
    written once more over a store: every NumPy operation reads its operands
    from the store and allocates its result.  Tuples and numbers are
    immutable Python values and stay values. *)

Module Store.

Inductive ndarray : Type :=
| Arr1 (a : Np.array1)
| Arr2 (a : Np.array2).

Abbreviation loc := positive.
Abbreviation heap := (gmap positive ndarray).

(** A computation on the store: [None] when a reference does not hold an
    array of the rank the docstrings ask for (such calls are not modelled),
    otherwise the outcome and the store left behind, also when an exception
    is raised. *)
Definition M (A : Type) : Type := heap -> option (result A * heap).

Definition lift {A} (r : result A) : M A := fun h => Some (r, h).

Definition bind {A B} (m : M A) (k : A -> M B) : M B :=
  fun h =>
    match m h with
    | Some (Ok a, h') => k a h'
    | Some (Raise e, h') => Some (Raise e, h')
    | None => None
    end.

#[global] Instance M_bind : MBind M := fun A B k m => bind m k.
#[global] Instance M_ret : MRet M := fun A a => lift (Ok a).

Definition alloc (v : ndarray) : M loc :=
  fun h => let l := fresh (dom h) in Some (Ok l, <[l := v]> h).

Definition read1 (l : loc) : M Np.array1 :=
  fun h => match h !! l with Some (Arr1 a) => Some (Ok a, h) | _ => None end.

Definition read2 (l : loc) : M Np.array2 :=
  fun h => match h !! l with Some (Arr2 a) => Some (Ok a, h) | _ => None end.

(** [np.zeros(a.shape[0])]. *)
Definition zeros_like_rows (a : loc) : M loc :=
  rows ← read2 a;
  alloc (Arr1 (repeat 0%float (length rows))).

(** [np.median(a[:, start:stop], axis=1)]: the slice is a view, the median a
    new array. *)
Definition median_of_columns (a : loc) (start stop : Z) : M loc :=
  rows ← read2 a;
  alloc (Arr1 (Np.median_of_columns rows start stop)).

Definition scalar_mul (c : float) (a : loc) : M loc :=
  xs ← read1 a;
  alloc (Arr1 (Np.scalar_mul c xs)).

Definition add (a b : loc) : M loc :=
  xs ← read1 a;
  ys ← read1 b;
  r ← lift (Np.add xs ys);
  alloc (Arr1 r).

Definition divide (a b : loc) : M loc :=
  xs ← read1 a;
  ys ← read1 b;
  r ← lift (Np.divide xs ys);
  alloc (Arr1 r).

Definition wavelength_weights (short_wavelength center_wavelength
  long_wavelength : float) : M (float * float) :=
  lift (wavelength_weights short_wavelength center_wavelength long_wavelength).

Definition interpolated_center_wavelength_reflectance
  (short_ref : loc) (bd_wavelengths : float * float * float) (long_ref : loc)
  : M loc :=
  let '(w0, w1, w2) := bd_wavelengths in
  '(a, b) ← wavelength_weights w0 w1 w2;
  t1 ← scalar_mul a short_ref;
  t2 ← scalar_mul b long_ref;
  add t1 t2.

Definition band_depth_calculation
  (spectra : loc) (all_wavelengths : list float)
  (bd_wavelengths : float * float * float) (kernel_sizes : Z * Z * Z)
  : M loc :=
  let '(short_wavelength, center_wavelength, long_wavelength) :=
    bd_wavelengths in
  let '(k0, k1, k2) := kernel_sizes in
  _ ← zeros_like_rows spectra;
  _ ← zeros_like_rows spectra;
  _ ← zeros_like_rows spectra;
  let '(h0, h1, h2) := (Py.floordiv2 k0, Py.floordiv2 k1, Py.floordiv2 k2) in
  i0 ← lift (Py.tuple_index all_wavelengths short_wavelength);
  short_ref ←
    median_of_columns spectra (Z.of_nat i0 - h0) (Z.of_nat i0 + h0 + 1);
  i1 ← lift (Py.tuple_index all_wavelengths center_wavelength);
  center_ref ←
    median_of_columns spectra (Z.of_nat i1 - h1) (Z.of_nat i1 + h1 + 1);
  i2 ← lift (Py.tuple_index all_wavelengths long_wavelength);
  long_ref ←
    median_of_columns spectra (Z.of_nat i2 - h2) (Z.of_nat i2 + h2 + 1);
  interpolated_center_ref ←
    interpolated_center_wavelength_reflectance short_ref bd_wavelengths long_ref;
  divide center_ref interpolated_center_ref.

(** Assignment into an array that exists. *)
Definition write (l : loc) (v : ndarray) : M unit :=
  fun h =>
    match h !! l with
    | Some _ => Some (Ok tt, <[l := v]> h)
    | None => None
    end.

(** [c - a], a new array. *)
Definition scalar_rsub (c : float) (a : loc) : M loc :=
  xs ← read1 a;
  alloc (Arr1 (Np.scalar_rsub c xs)).

(** [a[a < 0] = 0]: the elements below zero are overwritten in the array
    [a] itself.  (The mask [a < 0] is a temporary no name holds; it is not
    kept in the store.) *)
Definition clamp_negative (a : loc) : M unit :=
  xs ← read1 a;
  write a (Arr1 (Np.clamp_negative xs)).

Definition clamped_depth (spectra : loc) (wavelengths : list float)
  (term : (float * float * float) * (Z * Z * Z)) : M loc :=
  depth ← band_depth_calculation spectra wavelengths term.1 term.2;
  bd ← scalar_rsub 1%float depth;
  _ ← clamp_negative bd;
  mret bd.

Definition hyd_femg_clay_index_calculation
  (spectra : loc) (wavelengths : list float) : M loc :=
  _ ← zeros_like_rows spectra;
  bd14 ← clamped_depth spectra wavelengths
    ((1.33578, 1.41459, 1.55264)%float, (5, 3, 5)%Z);
  bd19 ← clamped_depth spectra wavelengths
    ((1.86212, 1.92146, 2.07985)%float, (5, 5, 5)%Z);
  bd229 ← clamped_depth spectra wavelengths
    ((2.15251, 2.28472, 2.34426)%float, (3, 5, 3)%Z);
  bd231 ← clamped_depth spectra wavelengths
    ((2.15251, 2.30456, 2.34426)%float, (3, 3, 3)%Z);
  bd232 ← clamped_depth spectra wavelengths
    ((2.15251, 2.32441, 2.34426)%float, (3, 3, 3)%Z);
  bd238 ← clamped_depth spectra wavelengths
    ((2.34426, 2.38396, 2.4303)%float, (3, 3, 3)%Z);
  bd240 ← clamped_depth spectra wavelengths
    ((2.34426, 2.3972, 2.4303)%float, (3, 3, 3)%Z);
  s1 ← add bd14 bd19;
  s2 ← add s1 bd229;
  s3 ← add s2 bd231;
  s4 ← add s3 bd232;
  s5 ← add s4 bd238;
  add s5 bd240.

Definition bd1750_calculation
  (spectra : loc) (wavelengths : list float) : M loc :=
  _ ← zeros_like_rows spectra;
  clamped_depth spectra wavelengths
    ((1.55264, 1.75009, 1.81598)%float, (1, 1, 1)%Z).

Definition d2300_calculation
  (spectra : loc) (wavelengths : list float) : M loc :=
  _ ← zeros_like_rows spectra;
  bd2290 ← band_depth_calculation spectra wavelengths
    (1.81598, 2.30456, 2.52951)%float (5, 3, 5)%Z;
  bd2320 ← band_depth_calculation spectra wavelengths
    (1.81598, 2.32441, 2.52951)%float (5, 3, 5)%Z;
  bd2330 ← band_depth_calculation spectra wavelengths
    (1.81598, 2.23182, 2.52951)%float (5, 3, 5)%Z;
  bd2120 ← band_depth_calculation spectra wavelengths
    (1.81598, 2.11948, 2.52951)%float (5, 5, 5)%Z;
  bd2170 ← band_depth_calculation spectra wavelengths
    (1.81598, 2.17233, 2.52951)%float (5, 5, 5)%Z;
  bd2210 ← band_depth_calculation spectra wavelengths
    (1.81598, 2.21199, 2.52951)%float (5, 5, 5)%Z;
  n1 ← add bd2290 bd2320;
  numerator ← add n1 bd2330;
  d1 ← add bd2120 bd2170;
  denominator ← add d1 bd2210;
  ratio ← divide numerator denominator;
  scalar_rsub 1%float ratio.

(** [wp m h Q]: from the store [h] the computation [m] is modelled and
    terminates, every array of [h] is still in the final store with the
    contents it had, and the outcome and the final store satisfy [Q]. *)
Definition wp {A} (m : M A) (h : heap) (Q : result A -> heap -> Prop) : Prop :=
  exists r h', m h = Some (r, h') /\ h ⊆ h' /\ Q r h'.

(** The outcome [r] in the store [h'] of a call started in [h] is the value
    [pure] in a new array, or the exception [pure] raises. *)
Definition returns_fresh (h : heap) (pure : result Np.array1)
  (r : result loc) (h' : heap) : Prop :=
  match pure, r with
  | Ok v, Ok l => h !! l = None /\ h' !! l = Some (Arr1 v)
  | Raise e, Raise e' => e = e'
  | _, _ => False
  end.

End Store.

(** ** The moving filters of [cotcat_denoise.py] *)

Module Denoise.

(** A spectral cube: rows of columns of spectra (the band axis is last). *)
Definition cube := list (list (list float)).

Definition shape (c : cube) : list (list nat) := map (map (@length float)) c.

(** The spectrum of pixel [(r, c)], and its band [i]. *)
Definition spectrum_at (spectra : cube) (r c : nat) : option (list float) :=
  match nth_error spectra r with
  | Some row => nth_error row c
  | None => None
  end.

Definition band_at (spectra : cube) (r c i : nat) : option float :=
  match spectrum_at spectra r c with
  | Some spectrum => nth_error spectrum i
  | None => None
  end.

(** Modelled from the spec: [cotcat_denoise.py] is not among the sources,
    only its tests are.  A window function [f] applied along one spectrum:
    every interior position (a full window of [window // 2] bands on both
    sides) is replaced by [f] of its window, the bands
    [i - window // 2 .. i + window // 2] ([window] bands for an odd size),
    every edge position is passed through unchanged. *)
Definition window_filter (f : list float -> float) (window : nat)
  (spectrum : list float) : list float :=
  let half := Nat.div window 2 in
  let n := length spectrum in
  map (fun i =>
         if Nat.leb half i && Nat.ltb (i + half) n
         then f (firstn (2 * half + 1) (skipn (i - half) spectrum))
         else nth i spectrum 0%float)
      (seq 0 n).

(** Modelled from the spec: [moving_median_filter] of the absent
    [cotcat_denoise.py]: sliding median, independently on every spectrum of
    the cube. *)
Definition moving_median_filter (spectra : cube) (window : nat) : cube :=
  map (map (window_filter Np.median window)) spectra.

(** Modelled from the spec: [moving_mean_filter] of the absent
    [cotcat_denoise.py]: sliding arithmetic mean, independently on every
    spectrum of the cube. *)
Definition moving_mean_filter (spectra : cube) (window : nat) : cube :=
  map (map (window_filter Np.mean window)) spectra.

End Denoise.

(** ** The vocabulary of the specification *)

(** [i] is the first position of [t] whose element equals [x]. *)
Definition first_match (t : list float) (x : float) (i : nat) : Prop :=
  (exists y, nth_error t i = Some y /\ PrimFloat.eqb y x = true) /\
  forall j y, (j < i)%nat -> nth_error t j = Some y -> PrimFloat.eqb y x = false.

(** No element of [t] equals [x]. *)
Definition absent (t : list float) (x : float) : Prop :=
  Forall (fun y => PrimFloat.eqb y x = false) t.

(** The bands of a spectrum whose position lies in [[lo, hi]], both ends
    included. *)
Definition band_window (row : list float) (lo hi : Z) : list float :=
  firstn (Z.to_nat (hi + 1 - Z.max lo 0)) (skipn (Z.to_nat (Z.max lo 0)) row).

(** The window of kernel size [k] around band [pos] lies within the
    spectrum. *)
Definition window_fits (row : list float) (pos : nat) (k : Z) : Prop :=
  (0 <= k / 2 <= Z.of_nat pos)%Z /\
  (Z.of_nat pos + k / 2 < Z.of_nat (length row))%Z.

(** Kernel reflectance: the median over the window
    [[pos - k // 2, pos + k // 2]]. *)
Definition kernel_reflectance (row : list float) (pos : nat) (k : Z) : float :=
  Np.median (band_window row (Z.of_nat pos - k / 2) (Z.of_nat pos + k / 2)).

(** The weights of the linear interpolation, as the specification writes
    them. *)
Definition weights_formula (short center long : float) : float * float :=
  let b := PrimFloat.div (PrimFloat.sub center short) (PrimFloat.sub long short) in
  (PrimFloat.sub 1%float b, b).

(** The continuum at the centre wavelength, interpolated between the
    reflectances at the short and the long wavelength. *)
Definition continuum (bd_wavelengths : float * float * float)
  (short_ref long_ref : float) : float :=
  let '(short, center, long) := bd_wavelengths in
  let '(a, b) := weights_formula short center long in
  PrimFloat.add (PrimFloat.mul a short_ref) (PrimFloat.mul b long_ref).

(** The band depth of every spectrum, from the positions of the three
    wavelengths in the grid. *)
Definition band_depth_formula (spectra : Np.array2) (positions : nat * nat * nat)
  (bd_wavelengths : float * float * float) (kernel_sizes : Z * Z * Z)
  : Np.array1 :=
  let '(i0, i1, i2) := positions in
  let '(k0, k1, k2) := kernel_sizes in
  map (fun row =>
         PrimFloat.div (kernel_reflectance row i1 k1)
           (continuum bd_wavelengths (kernel_reflectance row i0 k0)
              (kernel_reflectance row i2 k2)))
      spectra.

(** The kernel reflectance as the code extracts it: the median over the
    slice [pos - k // 2 : pos + k // 2 + 1] of the spectrum. *)
Definition extracted_reflectance (row : list float) (pos : nat) (k : Z) : float :=
  Np.median (Py.slice row (Z.of_nat pos - Py.floordiv2 k)
               (Z.of_nat pos + Py.floordiv2 k + 1)).


(** Some element of [t] equals [x]. *)
Definition present (t : list float) (x : float) : Prop :=
  exists i, first_match t x i.

(** NaN or [>= 0]: what [x < 0] is false of. *)
Definition not_negative (x : float) : Prop := PrimFloat.ltb x 0%float = false.

(** The element at position [i] of an array is NaN. *)
Definition nan_at (i : nat) (xs : Np.array1) : Prop :=
  exists x, nth_error xs i = Some x /\ PrimFloat.is_nan x = true.

(** [f] works spectrum by spectrum: the value it returns for a spectrum is
    the one it returns on that spectrum alone, and an exception it raises is
    raised whatever the spectra. *)
Definition spectrum_by_spectrum (f : Np.array2 -> result Np.array1) : Prop :=
  forall spectra,
    match f spectra with
    | Ok values => Forall2 (fun row v => f [row] = Ok [v]) spectra values
    | Raise e => forall other, f other = Raise e
    end.

(** [f] maps a function over the spectra, or raises whatever they are. *)
Definition maps_spectra (f : Np.array2 -> result Np.array1) : Prop :=
  (exists g, forall spectra, f spectra = Ok (map g spectra)) \/
  (exists e, forall spectra, f spectra = Raise e).

(** Band [j] lies in the window of kernel size [k] around band [pos], a
    window that does not start before the first band. *)
Definition in_window (pos : nat) (k : Z) (j : nat) : Prop :=
  (0 <= Z.of_nat pos - k / 2 <= Z.of_nat j)%Z /\
  (Z.of_nat j <= Z.of_nat pos + k / 2)%Z.

(** [x] is found in [t] at a position the array has a band for. *)
Definition in_bands (t : list float) (bands : nat) (x : float) : Prop :=
  exists i, first_match t x i /\ (i < bands)%nat.

(** [x] is found in [t], at a position past the last band of the array. *)
Definition past_bands (t : list float) (bands : nat) (x : float) : Prop :=
  exists i, first_match t x i /\ (bands <= i)%nat.


(** The kernel size a kernel size stands for: itself when odd, the next odd
    number when even. *)
Definition effective_kernel_size (k : Z) : Z :=
  if Z.even k then (k + 1)%Z else k.

(** [1 - depth], with what is below zero replaced by zero. *)
Definition clamped_term (depth : float) : float :=
  let bd := PrimFloat.sub 1 depth in
  if PrimFloat.ltb bd 0 then 0%float else bd.

(** The number of value [x] that is the object of identity [i]. *)
Definition object (i : positive) (x : float) : Py.number :=
  {| Py.value := x; Py.ident := i |}.

(** [i] is the first position of [t] whose element is the object [x] itself
    or equals it. *)
Definition first_found (t : list Py.number) (x : Py.number) (i : nat) : Prop :=
  (exists y, nth_error t i = Some y /\ Py.rich_eq y x = true) /\
  forall j y, (j < i)%nat -> nth_error t j = Some y -> Py.rich_eq y x = false.

(** No element of [t] is the object [x] or equals it. *)
Definition not_found (t : list Py.number) (x : Py.number) : Prop :=
  Forall (fun y => Py.rich_eq y x = false) t.

(** Some element of [t] is the object [x] or equals it. *)
Definition found (t : list Py.number) (x : Py.number) : Prop :=
  exists i, first_found t x i.

(** ** Classes of binary64 values *)

Module FloatFacts.

Definition sf_nan (x : spec_float) : bool :=
  match x with S754_nan => true | _ => false end.

Definition sf_finite (x : spec_float) : bool :=
  match x with S754_zero _ | S754_finite _ _ _ => true | _ => false end.

Definition sf_zero (x : spec_float) : bool :=
  match x with S754_zero _ => true | _ => false end.

(** Not NaN and not below zero: a zero of either sign, a positive finite
    number or [+inf]. *)
Definition sf_nonneg (x : spec_float) : bool :=
  match x with
  | S754_zero _ => true
  | S754_infinity s | S754_finite s _ _ => negb s
  | S754_nan => false
  end.

(** [x] is a number (not NaN) whose sign bit is [s]. *)
Definition sf_signed (s : bool) (x : spec_float) : Prop :=
  match x with
  | S754_zero s' | S754_infinity s' | S754_finite s' _ _ => s' = s
  | S754_nan => False
  end.

(** Rounding to nearest, ties to even, of [q + rem / unit] with
    [0 <= rem < unit]. *)
Definition round_of_rem (q rem unit : Z) : Z :=
  if (2 * rem <? unit)%Z then q
  else if (unit <? 2 * rem)%Z then (q + 1)%Z
  else if Z.even q then q else (q + 1)%Z.

(** The number one. *)
Definition SF_one : spec_float := S754_finite false 4503599627370496 (-52)%Z.

End FloatFacts.

(** An array without NaN, and one whose elements are all [>= 0]. *)
Definition nan_free (xs : Np.array1) : Prop :=
  Forall (fun x => PrimFloat.is_nan x = false) xs.

Definition all_nonneg (xs : Np.array1) : Prop :=
  Forall (fun x => PrimFloat.leb 0%float x = true) xs.


(** * Properties *)

(** ** Facts about binary64 arithmetic *)

Module FloatLemmas.
Import FloatFacts.

Lemma SFcompare_finite_refl s m e :
  SFcompare (S754_finite s m e) (S754_finite s m e) = Some Eq.
Proof.
  simpl. rewrite Z.compare_refl, Pos.compare_cont_refl.
  destruct s; reflexivity.
Qed.

Lemma SFeqb_refl x : SFeqb x x = negb (sf_nan x).
Proof.
  destruct x as [[]|[]| |s m e]; try reflexivity.
  unfold SFeqb. rewrite SFcompare_finite_refl. reflexivity.
Qed.

Lemma is_nan_spec x : PrimFloat.is_nan x = sf_nan (Prim2SF x).
Proof.
  unfold PrimFloat.is_nan. rewrite FloatAxioms.eqb_spec, SFeqb_refl.
  apply negb_involutive.
Qed.

Lemma is_zero_spec x : PrimFloat.eqb x 0%float = sf_zero (Prim2SF x).
Proof.
  rewrite FloatAxioms.eqb_spec. change (Prim2SF 0%float) with (S754_zero false).
  destruct (Prim2SF x) as [[]|[]| |[] m e]; reflexivity.
Qed.

Lemma is_finite_spec x : PrimFloat.is_finite x = sf_finite (Prim2SF x).
Proof.
  unfold PrimFloat.is_finite, PrimFloat.is_infinity.
  rewrite is_nan_spec, FloatAxioms.eqb_spec, FloatAxioms.abs_spec.
  change (Prim2SF infinity) with (S754_infinity false).
  destruct (Prim2SF x) as [[]|[]| |[] m e]; reflexivity.
Qed.

Lemma nonneg_spec x : PrimFloat.leb 0%float x = sf_nonneg (Prim2SF x).
Proof.
  rewrite FloatAxioms.leb_spec. change (Prim2SF 0%float) with (S754_zero false).
  destruct (Prim2SF x) as [[]|[]| |[] m e]; reflexivity.
Qed.

Lemma ltb_zero_spec x :
  PrimFloat.ltb x 0%float =
  match Prim2SF x with
  | S754_infinity s | S754_finite s _ _ => s
  | _ => false
  end.
Proof.
  rewrite FloatAxioms.ltb_spec. change (Prim2SF 0%float) with (S754_zero false).
  destruct (Prim2SF x) as [[]|[]| |[] m e]; reflexivity.
Qed.

(** *** Rounding keeps the sign and never invents a NaN *)

Lemma iter_pos_invariant {A} (P : A -> Prop) (f : A -> A) :
  (forall a, P a -> P (f a)) ->
  forall p a, P a -> P (SpecFloat.iter_pos f p a).
Proof.
  intros Hf. induction p as [p IH|p IH|]; simpl; intros a Ha; auto.
Qed.

Lemma shr_1_nonneg mrs : (0 <= shr_m mrs)%Z -> (0 <= shr_m (shr_1 mrs))%Z.
Proof.
  destruct mrs as [m r s]. simpl.
  destruct m as [|[p|p|]|[p|p|]]; simpl; lia.
Qed.

Lemma shr_nonneg mrs e n :
  (0 <= shr_m mrs)%Z -> (0 <= shr_m (fst (shr mrs e n)))%Z.
Proof.
  intros H. destruct n as [|p|p]; simpl; trivial.
  apply (iter_pos_invariant (fun r => (0 <= shr_m r)%Z)); trivial.
  apply shr_1_nonneg.
Qed.

Lemma shr_fexp_nonneg m e l :
  (0 <= m)%Z -> (0 <= shr_m (fst (shr_fexp prec emax m e l)))%Z.
Proof.
  intros H. unfold shr_fexp. apply shr_nonneg.
  destruct l as [|[]]; exact H.
Qed.

Lemma round_nearest_even_nonneg m l :
  (0 <= m)%Z -> (0 <= round_nearest_even m l)%Z.
Proof.
  intros H. destruct l as [|[]]; simpl; try lia.
  destruct (Z.even m); lia.
Qed.

Lemma binary_round_aux_signed sx mx ex lx :
  (0 <= mx)%Z -> sf_signed sx (binary_round_aux prec emax sx mx ex lx).
Proof.
  intros H. unfold binary_round_aux.
  pose proof (shr_fexp_nonneg mx ex lx H) as H1.
  destruct (shr_fexp prec emax mx ex lx) as [mrs' e']. simpl in H1.
  pose proof (shr_fexp_nonneg _ e' loc_Exact
                (round_nearest_even_nonneg _ (loc_of_shr_record mrs') H1)) as H2.
  destruct (shr_fexp prec emax _ e' loc_Exact) as [mrs'' e'']. simpl in H2.
  destruct (shr_m mrs'') as [|p|p]; simpl; [reflexivity| |lia].
  destruct (Z.leb e'' (emax - prec)); reflexivity.
Qed.

Lemma binary_round_signed sx mx ex :
  sf_signed sx (binary_round prec emax sx mx ex).
Proof.
  unfold binary_round. destruct (shl_align mx ex _) as [mz ez].
  apply binary_round_aux_signed. lia.
Qed.

Lemma binary_normalize_not_nan m e szero :
  sf_nan (binary_normalize prec emax m e szero) = false.
Proof.
  destruct m as [|p|p]; simpl; trivial.
  - pose proof (binary_round_signed false p e) as H.
    destruct (binary_round prec emax false p e); simpl in *; tauto.
  - pose proof (binary_round_signed true p e) as H.
    destruct (binary_round prec emax true p e); simpl in *; tauto.
Qed.

Lemma signed_false_nonneg x : sf_signed false x -> sf_nonneg x = true.
Proof. destruct x; simpl; intros H; subst; tauto. Qed.

(** *** The facts about [+], [-] and [/] the engine's properties need *)

Lemma add_nonneg (x y : float) :
  PrimFloat.leb 0%float x = true -> PrimFloat.leb 0%float y = true ->
  PrimFloat.leb 0%float (PrimFloat.add x y) = true.
Proof.
  rewrite !nonneg_spec, FloatAxioms.add_spec. unfold SF64add.
  destruct (Prim2SF x) as [sx|sx| |sx mx ex], (Prim2SF y) as [sy|sy| |sy my ey];
    simpl; try discriminate;
    try (destruct sx; try discriminate); try (destruct sy; try discriminate);
    trivial.
  intros _ _. apply signed_false_nonneg.
  unfold binary_normalize. simpl.
  apply binary_round_signed.
Qed.

Lemma one_minus_not_nan (x : float) :
  PrimFloat.is_nan x = false ->
  PrimFloat.is_nan (PrimFloat.sub 1%float x) = false.
Proof.
  rewrite !is_nan_spec, FloatAxioms.sub_spec. unfold SF64sub.
  change (Prim2SF 1%float) with (S754_finite false 4503599627370496 (-52)).
  destruct (Prim2SF x) as [sx|sx| |sx mx ex]; simpl; try discriminate; trivial.
  intros _. apply binary_normalize_not_nan.
Qed.

Lemma not_neg_nonneg (x : float) :
  PrimFloat.is_nan x = false -> PrimFloat.ltb x 0%float = false ->
  PrimFloat.leb 0%float x = true.
Proof.
  rewrite is_nan_spec, ltb_zero_spec, nonneg_spec.
  destruct (Prim2SF x) as [s|s| |s m e]; simpl; try discriminate; trivial;
    intros _ ->; reflexivity.
Qed.

Lemma div_by_zero_not_finite (x y : float) :
  PrimFloat.eqb y 0%float = true ->
  PrimFloat.is_finite (PrimFloat.div x y) = false.
Proof.
  rewrite is_zero_spec, is_finite_spec, FloatAxioms.div_spec. unfold SF64div.
  destruct (Prim2SF y) as [sy|sy| |sy my ey]; try discriminate.
  intros _. destruct (Prim2SF x) as [sx|sx| |sx mx ex]; reflexivity.
Qed.

Lemma SFcompare_finite_eq s1 m1 e1 s2 m2 e2 :
  SFcompare (S754_finite s1 m1 e1) (S754_finite s2 m2 e2) = Some Eq ->
  s1 = s2 /\ m1 = m2 /\ e1 = e2.
Proof.
  simpl. destruct s1, s2; try discriminate;
    destruct (Z.compare e1 e2) eqn:He; try discriminate;
    apply Z.compare_eq in He; subst; intros H;
    injection H as H.
  - apply (f_equal CompOpp) in H. rewrite CompOpp_involutive in H. simpl in H.
    fold (Pos.compare m1 m2) in H. apply Pos.compare_eq in H. auto.
  - fold (Pos.compare m1 m2) in H. apply Pos.compare_eq in H. auto.
Qed.

Lemma sub_eq_zero (x y : float) :
  PrimFloat.is_finite x = true -> PrimFloat.eqb x y = true ->
  PrimFloat.eqb (PrimFloat.sub y x) 0%float = true.
Proof.
  rewrite is_finite_spec, is_zero_spec, FloatAxioms.eqb_spec,
    FloatAxioms.sub_spec.
  unfold SF64sub, SFeqb.
  destruct (Prim2SF x) as [sx|sx| |sx mx ex] eqn:Hx; try discriminate;
    destruct (Prim2SF y) as [sy|sy| |sy my ey] eqn:Hy; intros _ H;
    try (destruct sx; discriminate H); try (destruct sy; discriminate H).
  - destruct sx, sy; reflexivity.
  - destruct (SFcompare _ _) as [[]|] eqn:Hc; try discriminate.
    apply SFcompare_finite_eq in Hc. destruct Hc as (-> & -> & ->).
    unfold SFsub. rewrite Z.sub_diag. reflexivity.
Qed.

(** *** Subtraction of distinct numbers is not zero *)

Lemma digits2_pos_bounds (m : positive) :
  (2 ^ (Zpos (digits2_pos m) - 1) <= Zpos m < 2 ^ Zpos (digits2_pos m))%Z.
Proof.
  induction m as [m IH|m IH|]; simpl digits2_pos.
  - rewrite Pos2Z.inj_succ, Z.pow_succ_r by lia.
    replace (Z.succ (Zpos (digits2_pos m)) - 1)%Z
      with (Z.succ (Zpos (digits2_pos m) - 1)) by lia.
    rewrite Z.pow_succ_r by lia. lia.
  - rewrite Pos2Z.inj_succ, Z.pow_succ_r by lia.
    replace (Z.succ (Zpos (digits2_pos m)) - 1)%Z
      with (Z.succ (Zpos (digits2_pos m) - 1)) by lia.
    rewrite Z.pow_succ_r by lia. lia.
  - simpl. lia.
Qed.

Lemma shr_1_div2 mrs :
  (0 <= shr_m mrs)%Z -> shr_m (shr_1 mrs) = (shr_m mrs / 2)%Z.
Proof.
  destruct mrs as [m r s]. simpl. intros H.
  rewrite <- Z.div2_div.
  destruct m as [|[p|p|]|p]; try reflexivity. lia.
Qed.

Lemma pow2_xO p : (2 ^ Zpos p~0 = 2 ^ Zpos p * 2 ^ Zpos p)%Z.
Proof. rewrite <- Z.pow_add_r by lia. f_equal. lia. Qed.

Lemma pow2_xI p : (2 ^ Zpos p~1 = 2 * (2 ^ Zpos p * 2 ^ Zpos p))%Z.
Proof.
  rewrite <- Z.pow_add_r, <- Z.pow_succ_r by lia. f_equal. lia.
Qed.

Lemma iter_shr_1_div p : forall mrs,
  (0 <= shr_m mrs)%Z ->
  shr_m (SpecFloat.iter_pos shr_1 p mrs) = (shr_m mrs / 2 ^ Zpos p)%Z
  /\ (0 <= shr_m (SpecFloat.iter_pos shr_1 p mrs))%Z.
Proof.
  induction p as [p IH|p IH|]; intros mrs H; simpl SpecFloat.iter_pos.
  - pose proof (shr_1_nonneg mrs H) as H1.
    destruct (IH _ H1) as [E2 H2]. destruct (IH _ H2) as [E3 H3].
    split; [|exact H3].
    pose proof (Z.pow_pos_nonneg 2 (Zpos p) ltac:(lia) ltac:(lia)) as Hp.
    rewrite E3, E2, shr_1_div2 by exact H.
    rewrite !Z.div_div by lia. now rewrite pow2_xI, Z.mul_assoc.
  - destruct (IH _ H) as [E2 H2]. destruct (IH _ H2) as [E3 H3].
    split; [|exact H3].
    pose proof (Z.pow_pos_nonneg 2 (Zpos p) ltac:(lia) ltac:(lia)) as Hp.
    rewrite E3, E2. rewrite Z.div_div by lia. now rewrite pow2_xO.
  - split; [|now apply shr_1_nonneg].
    rewrite shr_1_div2 by exact H. reflexivity.
Qed.

Lemma shr_fexp_pos m e l :
  (0 < m)%Z -> (emin <= e)%Z ->
  (0 < shr_m (fst (shr_fexp prec emax m e l)))%Z /\
  (emin <= snd (shr_fexp prec emax m e l))%Z.
Proof.
  intros Hm He. unfold shr_fexp.
  assert (Hrec : shr_m (shr_record_of_loc m l) = m)
    by (destruct l as [|[]]; reflexivity).
  destruct m as [|p|p]; try lia. simpl Zdigits2.
  pose proof (digits2_pos_bounds p) as Hd.
  assert (Hd0 : (0 < Zpos (digits2_pos p))%Z) by lia.
  set (d := Zpos (digits2_pos p)) in *.
  unfold fexp.
  destruct (Z.sub (Z.max (d + e - prec) emin) e) as [|n|n] eqn:En; simpl;
    try (rewrite Hrec; lia).
  destruct (iter_shr_1_div n (shr_record_of_loc (Zpos p) l)) as [E _];
    [rewrite Hrec; lia|].
  rewrite E, Hrec. split; [|lia].
  apply Z.div_str_pos. split; [apply Z.pow_pos_nonneg; lia|].
  apply Z.le_trans with (2 ^ (d - 1))%Z; [|lia].
  apply Z.pow_le_mono_r; [lia|].
  change emin with (-1074)%Z in *. change prec with 53%Z in *. lia.
Qed.

Lemma binary_round_aux_not_zero sx mx ex lx :
  (0 < mx)%Z -> (emin <= ex)%Z ->
  sf_zero (binary_round_aux prec emax sx mx ex lx) = false.
Proof.
  intros Hm He. unfold binary_round_aux.
  destruct (shr_fexp_pos mx ex lx Hm He) as [H1 H1e].
  destruct (shr_fexp prec emax mx ex lx) as [mrs' e']. simpl in H1, H1e.
  assert (Hr : (0 < round_nearest_even (shr_m mrs') (loc_of_shr_record mrs'))%Z).
  { destruct (loc_of_shr_record mrs') as [|[]]; simpl; try lia.
    destruct (Z.even (shr_m mrs')); lia. }
  destruct (shr_fexp_pos _ e' loc_Exact Hr H1e) as [H2 _].
  destruct (shr_fexp prec emax _ e' loc_Exact) as [mrs'' e'']. simpl in H2.
  destruct (shr_m mrs'') as [|p|p]; try lia.
  destruct (Z.leb e'' (emax - prec)); reflexivity.
Qed.

Lemma binary_round_not_zero sx mx ex :
  (emin <= ex)%Z -> sf_zero (binary_round prec emax sx mx ex) = false.
Proof.
  intros He. unfold binary_round.
  destruct (shl_align mx ex _) as [mz ez] eqn:E.
  apply binary_round_aux_not_zero; [lia|].
  unfold shl_align, fexp in E.
  change emin with (-1074)%Z in *. change prec with 53%Z in *.
  destruct (Z.sub _ ex) eqn:En; injection E as <- <-; lia.
Qed.

Lemma binary_normalize_zero m e szero :
  (emin <= e)%Z ->
  sf_zero (binary_normalize prec emax m e szero) = true -> m = 0%Z.
Proof.
  intros He. destruct m as [|p|p]; simpl; trivial;
    rewrite binary_round_not_zero by exact He; discriminate.
Qed.

Lemma iter_xO_pow (m d : positive) :
  Zpos (Pos.iter xO m d) = (Zpos m * 2 ^ Zpos d)%Z.
Proof.
  induction d as [|d IH] using Pos.peano_ind.
  - simpl. lia.
  - rewrite Pos.iter_succ, Pos2Z.inj_xO, IH, Pos2Z.inj_succ, Z.pow_succ_r by lia.
    lia.
Qed.

Lemma shl_align_value mx ex ez :
  (ez <= ex)%Z ->
  Zpos (fst (shl_align mx ex ez)) = (Zpos mx * 2 ^ (ex - ez))%Z.
Proof.
  intros H. unfold shl_align.
  destruct (Z.sub ez ex) as [|d|d] eqn:E; simpl.
  - replace (ex - ez)%Z with 0%Z by lia. simpl. lia.
  - lia.
  - rewrite iter_xO_pow. f_equal. f_equal. lia.
Qed.

Lemma bounded_bounds m e :
  bounded prec emax m e = true ->
  (emin <= e)%Z /\ (Zpos m < 2 ^ 53)%Z /\ (emin < e -> 2 ^ 52 <= Zpos m)%Z.
Proof.
  unfold bounded, canonical_mantissa, fexp.
  change emin with (-1074)%Z. change prec with 53%Z.
  intros H. apply andb_true_iff in H. destruct H as [H _].
  apply Z.eqb_eq in H.
  pose proof (digits2_pos_bounds m) as Hd.
  assert (Hd0 : (0 < Zpos (digits2_pos m))%Z) by lia.
  set (d := Zpos (digits2_pos m)) in *.
  split; [lia|]. split.
  - apply Z.lt_le_trans with (2 ^ d)%Z; [lia|].
    apply Z.pow_le_mono_r; lia.
  - intros He. apply Z.le_trans with (2 ^ (d - 1))%Z; [|lia].
    apply Z.pow_le_mono_r; lia.
Qed.

Lemma aligned_eq m1 e1 m2 e2 :
  bounded prec emax m1 e1 = true -> bounded prec emax m2 e2 = true ->
  (Zpos m1 * 2 ^ (e1 - Z.min e1 e2) = Zpos m2 * 2 ^ (e2 - Z.min e1 e2))%Z ->
  m1 = m2 /\ e1 = e2.
Proof.
  intros B1 B2 H.
  apply bounded_bounds in B1, B2.
  destruct B1 as (L1 & U1 & N1), B2 as (L2 & U2 & N2).
  destruct (Z.lt_trichotomy e1 e2) as [Hlt|[Heq|Hgt]].
  - exfalso. rewrite Z.min_l, Z.sub_diag in H by lia.
    assert (2 <= 2 ^ (e2 - e1))%Z.
    { change 2%Z with (2 ^ 1)%Z at 1. apply Z.pow_le_mono_r; lia. }
    specialize (N2 ltac:(lia)). change (2 ^ 53)%Z with (2 * 2 ^ 52)%Z in U1.
    nia.
  - subst e2. rewrite Z.min_id, Z.sub_diag in H. split; [lia | reflexivity].
  - exfalso. rewrite Z.min_r, Z.sub_diag in H by lia.
    assert (2 <= 2 ^ (e1 - e2))%Z.
    { change 2%Z with (2 ^ 1)%Z at 1. apply Z.pow_le_mono_r; lia. }
    specialize (N1 ltac:(lia)). change (2 ^ 53)%Z with (2 * 2 ^ 52)%Z in U2.
    nia.
Qed.

Lemma SFsub_zero_eq x y :
  valid_binary x = true -> valid_binary y = true ->
  sf_zero (SF64sub y x) = true -> SFeqb y x = true.
Proof.
  intros Vx Vy. unfold SF64sub, SFsub.
  destruct y as [sy|sy| |sy my ey], x as [sx|sx| |sx mx ex];
    try (simpl; intros; discriminate);
    try (repeat match goal with s : bool |- _ => destruct s end;
         simpl; intros; (discriminate || reflexivity)).
  simpl in Vx, Vy. intros H.
  pose proof (bounded_bounds _ _ Vx) as (Lx & _ & _).
  pose proof (bounded_bounds _ _ Vy) as (Ly & _ & _).
  apply binary_normalize_zero in H; [|lia].
  rewrite !shl_align_value in H by lia.
  assert (Hpx : (0 < Zpos mx * 2 ^ (ex - Z.min ey ex))%Z)
    by (apply Z.mul_pos_pos; [lia | apply Z.pow_pos_nonneg; lia]).
  assert (Hpy : (0 < Zpos my * 2 ^ (ey - Z.min ey ex))%Z)
    by (apply Z.mul_pos_pos; [lia | apply Z.pow_pos_nonneg; lia]).
  assert (sy = sx) as -> by (destruct sx, sy; simpl in H; trivial; lia).
  assert (E : (Zpos my * 2 ^ (ey - Z.min ey ex)
               = Zpos mx * 2 ^ (ex - Z.min ey ex))%Z)
    by (destruct sx; simpl in H; lia).
  apply aligned_eq in E; trivial. destruct E as [-> ->].
  unfold SFeqb. simpl. rewrite Z.compare_refl, Pos.compare_cont_refl.
  destruct sx; reflexivity.
Qed.

Lemma sub_zero_eq (x y : float) :
  PrimFloat.eqb (PrimFloat.sub y x) 0%float = true -> PrimFloat.eqb y x = true.
Proof.
  rewrite is_zero_spec, FloatAxioms.sub_spec, FloatAxioms.eqb_spec.
  apply SFsub_zero_eq; apply Prim2SF_valid.
Qed.

Lemma sub_not_zero (x y : float) :
  PrimFloat.eqb y x = false -> PrimFloat.eqb (PrimFloat.sub y x) 0%float = false.
Proof.
  intros H. destruct (PrimFloat.eqb (PrimFloat.sub y x) 0%float) eqn:E; trivial.
  apply sub_zero_eq in E. congruence.
Qed.

(** *** Order *)

Lemma SFcompare_antisym x y :
  SFcompare y x = option_map CompOpp (SFcompare x y).
Proof.
  destruct x as [sx|sx| |sx mx ex], y as [sy|sy| |sy my ey];
    try (repeat match goal with s : bool |- _ => destruct s end; reflexivity).
  simpl. rewrite (Z.compare_antisym ey ex).
  pose proof (Pos.compare_cont_antisym my mx Eq) as A. simpl in A.
  destruct sx, sy; simpl; trivial; destruct (Z.compare ey ex); simpl; trivial;
    rewrite <- A; now rewrite ?CompOpp_involutive.
Qed.

Lemma SFeqb_compare x y z : SFeqb x y = true -> SFcompare x z = SFcompare y z.
Proof.
  unfold SFeqb.
  destruct x as [sx|sx| |sx mx ex], y as [sy|sy| |sy my ey];
    try (simpl; intros; discriminate);
    try (repeat match goal with s : bool |- _ => destruct s end;
         simpl; intros; (discriminate || reflexivity)).
  destruct (SFcompare _ _) as [[]|] eqn:E; try discriminate.
  apply SFcompare_finite_eq in E. destruct E as (-> & -> & ->). reflexivity.
Qed.

Lemma lt_lt_neq (x y z : float) :
  PrimFloat.ltb x y = true -> PrimFloat.ltb y z = true ->
  PrimFloat.eqb z x = false.
Proof.
  rewrite !FloatAxioms.ltb_spec, FloatAxioms.eqb_spec. unfold SFltb.
  intros Hxy Hyz.
  destruct (SFeqb (Prim2SF z) (Prim2SF x)) eqn:E; trivial.
  rewrite <- (SFeqb_compare _ _ _ E) in Hxy.
  rewrite (SFcompare_antisym (Prim2SF y) (Prim2SF z)) in Hxy.
  destruct (SFcompare (Prim2SF y) (Prim2SF z)) as [[]|]; discriminate.
Qed.

End FloatLemmas.

(** ** Rounding to nearest: [(1 - b) + b] is one *)

Module RoundingLemmas.
Import FloatFacts FloatLemmas.
Local Open Scope Z_scope.

Lemma iter_pos_nat {A} (f : A -> A) p : forall x,
  SpecFloat.iter_pos f p x = Nat.iter (Pos.to_nat p) f x.
Proof.
  induction p as [p IH|p IH|]; intros x; simpl SpecFloat.iter_pos.
  - rewrite !IH, Pos2Nat.inj_xI. simpl Nat.iter.
    replace (Pos.to_nat p + (Pos.to_nat p + 0))%nat
      with (Pos.to_nat p + Pos.to_nat p)%nat by lia.
    rewrite Nat.iter_add, <- !Nat.iter_succ_r. simpl Nat.iter at 1.
    rewrite <- Nat.iter_succ_r. reflexivity.
  - rewrite !IH, Pos2Nat.inj_xO.
    replace (2 * Pos.to_nat p)%nat with (Pos.to_nat p + Pos.to_nat p)%nat by lia.
    now rewrite Nat.iter_add.
  - reflexivity.
Qed.

Lemma shr_1_nonneg_eq m r s :
  0 <= m ->
  shr_1 (Build_shr_record m r s) = Build_shr_record (m / 2) (Z.odd m) (r || s).
Proof.
  intros H. rewrite <- Z.div2_div.
  destruct m as [|[p|p|]|p]; try reflexivity. lia.
Qed.

(** After [j + 1] shifts of [P]: the quotient, the bit shifted out last and
    whether anything was shifted out before. *)
Lemma iter_shr_1 (P : Z) (j : nat) :
  0 <= P ->
  Nat.iter (S j) shr_1 (Build_shr_record P false false) =
  Build_shr_record (P / 2 ^ Z.of_nat (S j)) (Z.odd (P / 2 ^ Z.of_nat j))
    (negb (P mod 2 ^ Z.of_nat j =? 0)).
Proof.
  intros HP. induction j as [|j IH].
  - rewrite Nat.iter_succ.
    change (Nat.iter 0 shr_1 (Build_shr_record P false false))
      with (Build_shr_record P false false).
    rewrite shr_1_nonneg_eq by exact HP.
    change (2 ^ Z.of_nat 1) with 2. change (2 ^ Z.of_nat 0) with 1.
    now rewrite Z.div_1_r, Z.mod_1_r.
  - rewrite Nat.iter_succ, IH.
    assert (Hpow : 0 < 2 ^ Z.of_nat j) by (apply Z.pow_pos_nonneg; lia).
    assert (Hpow' : 0 < 2 ^ Z.of_nat (S j)) by (apply Z.pow_pos_nonneg; lia).
    rewrite shr_1_nonneg_eq by (apply Z.div_pos; lia).
    f_equal.
    + rewrite Z.div_div by lia. f_equal.
      rewrite (Nat2Z.inj_succ (S j)), Z.pow_succ_r by lia. lia.
    + rewrite (Nat2Z.inj_succ j), Z.pow_succ_r by lia.
      rewrite (Z.mul_comm 2), Z.rem_mul_r by lia.
      rewrite <- Z.bit0_mod, Z.bit0_odd.
      pose proof (Z.mod_pos_bound P (2 ^ Z.of_nat j) Hpow) as Hb.
      destruct (Z.odd (P / 2 ^ Z.of_nat j)); simpl Z.b2z;
        destruct (Z.eqb_spec (P mod 2 ^ Z.of_nat j) 0) as [E0|E0];
        match goal with
        | |- context [Z.eqb ?x 0] => destruct (Z.eqb_spec x 0) as [E1|E1]
        end;
        simpl; try reflexivity; exfalso; nia.
Qed.

Lemma digits2_pos_unique (p : positive) (d : Z) :
  2 ^ (d - 1) <= Zpos p < 2 ^ d -> Zpos (digits2_pos p) = d.
Proof.
  intros [Hlo Hhi]. pose proof (digits2_pos_bounds p) as [Blo Bhi].
  assert (Hd : 0 < d).
  { destruct (Z.lt_ge_cases 0 d) as [|Hd]; trivial.
    destruct (Z.eq_dec d 0) as [->|]; [simpl in Hhi; lia|].
    rewrite Z.pow_neg_r in Hhi by lia. lia. }
  destruct (Z.lt_trichotomy (Zpos (digits2_pos p)) d) as [H|[H|H]]; trivial.
  - exfalso.
    assert (2 ^ Zpos (digits2_pos p) <= 2 ^ (d - 1))
      by (apply Z.pow_le_mono_r; lia).
    lia.
  - exfalso.
    assert (2 ^ d <= 2 ^ (Zpos (digits2_pos p) - 1))
      by (apply Z.pow_le_mono_r; lia).
    lia.
Qed.

Lemma shr_round (P : Z) (j : nat) :
  0 <= P ->
  let R := Nat.iter (S j) shr_1 (Build_shr_record P false false) in
  shr_m R = P / 2 ^ Z.of_nat (S j) /\
  round_nearest_even (shr_m R) (loc_of_shr_record R) =
  round_of_rem (P / 2 ^ Z.of_nat (S j)) (P mod 2 ^ Z.of_nat (S j))
    (2 ^ Z.of_nat (S j)).
Proof.
  intros HP R. unfold R. rewrite iter_shr_1 by exact HP.
  split; [reflexivity|]. cbn [shr_m].
  assert (Hpow : 0 < 2 ^ Z.of_nat j) by (apply Z.pow_pos_nonneg; lia).
  pose proof (Z.mod_pos_bound P (2 ^ Z.of_nat j) Hpow) as Hb.
  unfold round_of_rem.
  rewrite (Nat2Z.inj_succ j), Z.pow_succ_r by lia.
  rewrite (Z.mul_comm 2 (2 ^ Z.of_nat j)), Z.rem_mul_r by lia.
  rewrite <- Z.bit0_mod, Z.bit0_odd.
  set (q := P / (2 ^ Z.of_nat j * 2)).
  destruct (Z.odd (P / 2 ^ Z.of_nat j)); simpl Z.b2z;
    destruct (Z.eqb_spec (P mod 2 ^ Z.of_nat j) 0) as [E0|E0];
    cbn [negb loc_of_shr_record round_nearest_even];
    repeat match goal with
      | |- context [Z.ltb ?x ?y] => destruct (Z.ltb_spec x y)
      end; try reflexivity; try lia.
Qed.

Lemma binary_round_aux_exact (P : positive) (f : Z) :
  Z.max (Zpos (digits2_pos P) + f - 53) (-1074) = f -> f <= 971 ->
  binary_round_aux prec emax false (Zpos P) f loc_Exact = S754_finite false P f.
Proof.
  intros Hcanon Hf. unfold binary_round_aux, shr_fexp, fexp.
  change (SpecFloat.emin prec emax) with (-1074). change prec with 53.
  change emax with 1024.
  simpl Zdigits2. rewrite Hcanon, Z.sub_diag. simpl shr.
  cbn [shr_m loc_of_shr_record round_nearest_even Zdigits2].
  rewrite Hcanon, Z.sub_diag. simpl shr. cbn [shr_m].
  destruct (Z.leb_spec f (1024 - 53)); [reflexivity | lia].
Qed.

Lemma binary_round_aux_shift (P : positive) (e n : Z) :
  1 <= n -> -1074 <= e -> e + n + 1 <= 971 ->
  Zpos (digits2_pos P) = 53 + n ->
  binary_round_aux prec emax false (Zpos P) e loc_Exact =
  if round_of_rem (Zpos P / 2 ^ n) (Zpos P mod 2 ^ n) (2 ^ n) =? 2 ^ 53
  then S754_finite false (Z.to_pos (2 ^ 52)) (e + n + 1)
  else S754_finite false
         (Z.to_pos (round_of_rem (Zpos P / 2 ^ n) (Zpos P mod 2 ^ n) (2 ^ n)))
         (e + n).
Proof.
  intros Hn He Hmax Hd.
  pose proof (digits2_pos_bounds P) as [Blo Bhi]. rewrite Hd in Blo, Bhi.
  assert (Hpow : 0 < 2 ^ n) by (apply Z.pow_pos_nonneg; lia).
  replace (53 + n - 1) with (n + 52) in Blo by lia.
  replace (53 + n) with (n + 53) in Bhi by lia.
  rewrite Z.pow_add_r in Blo, Bhi by lia.
  assert (Hq : 2 ^ 52 <= Zpos P / 2 ^ n < 2 ^ 53).
  { split; [apply Z.div_le_lower_bound | apply Z.div_lt_upper_bound]; lia. }
  unfold binary_round_aux, shr_fexp, fexp.
  change (SpecFloat.emin prec emax) with (-1074). change prec with 53.
  change emax with 1024.
  simpl Zdigits2. rewrite Hd.
  replace (Z.max (53 + n + e - 53) (-1074) - e) with n by lia.
  destruct n as [|pn|pn]; try lia.
  unfold shr at 1. cbn [shr_record_of_loc]. rewrite iter_pos_nat.
  destruct (Pos2Nat.is_succ pn) as [j Hj]. rewrite Hj.
  assert (Hjz : Z.of_nat (S j) = Zpos pn) by (rewrite <- Hj; apply positive_nat_Z).
  destruct (shr_round (Zpos P) j ltac:(lia)) as [Hm Hr].
  rewrite Hr, Hjz. clear Hm Hr.
  set (m1 := round_of_rem (Zpos P / 2 ^ Zpos pn) (Zpos P mod 2 ^ Zpos pn)
               (2 ^ Zpos pn)).
  assert (Hm1 : 2 ^ 52 <= m1 <= 2 ^ 53).
  { unfold m1, round_of_rem.
    repeat match goal with
      | |- context [if ?b then _ else _] => destruct b
      end; lia. }
  destruct (Z.eqb_spec m1 (2 ^ 53)) as [E|E].
  - rewrite E.
    change (Zdigits2 (2 ^ 53)) with 54.
    replace (Z.max (54 + (e + Zpos pn) - 53) (-1074) - (e + Zpos pn)) with 1
      by lia.
    simpl shr. cbn [shr_m].
    destruct (Z.leb_spec (e + Zpos pn + 1) (1024 - 53)); [reflexivity | lia].
  - destruct m1 as [|p1|p1] eqn:Ep; try lia.
    simpl Zdigits2.
    rewrite (digits2_pos_unique p1 53)
      by (change (2 ^ (53 - 1)) with (2 ^ 52); lia).
    replace (Z.max (53 + (e + Zpos pn) - 53) (-1074) - (e + Zpos pn)) with 0
      by lia.
    simpl shr. cbn [shr_m].
    destruct (Z.leb_spec (e + Zpos pn) (1024 - 53)); [reflexivity | lia].
Qed.

Lemma digits2_pos_shift (P d : positive) :
  Zpos (digits2_pos (Pos.iter xO P d)) = Zpos (digits2_pos P) + Zpos d.
Proof.
  induction d as [|d IH] using Pos.peano_ind.
  - simpl. lia.
  - rewrite Pos.iter_succ. simpl digits2_pos. lia.
Qed.

Lemma binary_round_shift (P : positive) (e n : Z) :
  1 <= n -> -1074 <= e -> e + n + 1 <= 971 ->
  Zpos (digits2_pos P) = 53 + n ->
  binary_round prec emax false P e =
  if round_of_rem (Zpos P / 2 ^ n) (Zpos P mod 2 ^ n) (2 ^ n) =? 2 ^ 53
  then S754_finite false (Z.to_pos (2 ^ 52)) (e + n + 1)
  else S754_finite false
         (Z.to_pos (round_of_rem (Zpos P / 2 ^ n) (Zpos P mod 2 ^ n) (2 ^ n)))
         (e + n).
Proof.
  intros Hn He Hmax Hd. unfold binary_round, fexp.
  change (SpecFloat.emin prec emax) with (-1074). change prec with 53.
  rewrite Hd. unfold shl_align.
  replace (Z.max (53 + n + e - 53) (-1074) - e) with n by lia.
  destruct n as [|pn|pn]; try lia.
  now apply binary_round_aux_shift.
Qed.

(** A number of at most 53 digits is represented exactly, at the exponent
    [f] its magnitude asks for. *)
Lemma binary_round_exact (P : positive) (e : Z) :
  -1074 <= e -> e <= 971 -> Zpos (digits2_pos P) <= 53 ->
  exists mz f,
    binary_round prec emax false P e = S754_finite false mz f /\
    -1074 <= f <= e /\ Zpos mz = Zpos P * 2 ^ (e - f).
Proof.
  intros He Hmax Hd. unfold binary_round, fexp.
  change (SpecFloat.emin prec emax) with (-1074). change prec with 53.
  set (f := Z.max (Zpos (digits2_pos P) + e - 53) (-1074)).
  assert (Hf : -1074 <= f <= e) by lia.
  unfold shl_align. destruct (f - e) as [|d|d] eqn:Ed; try lia.
  - exists P, e. rewrite binary_round_aux_exact by (fold f; lia).
    split; [reflexivity|]. split; [lia|]. rewrite Z.sub_diag. simpl. lia.
  - exists (Pos.iter xO P d), f.
    rewrite binary_round_aux_exact; [| rewrite digits2_pos_shift; lia | lia].
    split; [reflexivity|]. split; [lia|].
    rewrite iter_xO_pow. f_equal. f_equal. lia.
Qed.

(** An integer [S] at the exponent [-52 - k] that is within a quarter unit
    in the last place of one rounds to one. *)
Lemma round_near_one (S : positive) (k : Z) :
  1 <= k -> -1074 <= -52 - k ->
  (2 ^ 52 * 2 ^ k <= Zpos S /\ 2 * (Zpos S - 2 ^ 52 * 2 ^ k) < 2 ^ k) \/
  (2 <= k /\ Zpos S < 2 ^ 52 * 2 ^ k /\ 4 * (2 ^ 52 * 2 ^ k - Zpos S) <= 2 ^ k) ->
  binary_round prec emax false S (-52 - k) = SF_one.
Proof.
  intros Hk He H.
  assert (HX : 0 < 2 ^ k) by (apply Z.pow_pos_nonneg; lia).
  destruct H as [[Hlo Hrem]|(Hk2 & Hhi & Hrem)].
  - rewrite (binary_round_shift S (-52 - k) k); try lia.
    + rewrite <- (Z.div_unique (Zpos S) (2 ^ k) (2 ^ 52) (Zpos S - 2 ^ 52 * 2 ^ k))
        by lia.
      rewrite <- (Z.mod_unique (Zpos S) (2 ^ k) (2 ^ 52) (Zpos S - 2 ^ 52 * 2 ^ k))
        by lia.
      unfold round_of_rem.
      destruct (Z.ltb_spec (2 * (Zpos S - 2 ^ 52 * 2 ^ k)) (2 ^ k)); [|lia].
      change (2 ^ 52 =? 2 ^ 53) with false. cbv iota.
      unfold SF_one. f_equal. lia.
    + apply digits2_pos_unique.
      replace (53 + k - 1) with (52 + k) by lia.
      rewrite !Z.pow_add_r by lia. change (2 ^ 53) with (2 * 2 ^ 52). lia.
  - assert (HY : 0 < 2 ^ (k - 1)) by (apply Z.pow_pos_nonneg; lia).
    assert (EX : 2 ^ k = 2 * 2 ^ (k - 1)).
    { rewrite <- Z.pow_succ_r by lia. f_equal. lia. }
    rewrite EX in Hhi, Hrem.
    rewrite (binary_round_shift S (-52 - k) (k - 1)); try lia.
    + rewrite <- (Z.div_unique (Zpos S) (2 ^ (k - 1)) (2 ^ 53 - 1)
                    (Zpos S - (2 ^ 53 - 1) * 2 ^ (k - 1)))
        by (change (2 ^ 53) with (2 * 2 ^ 52); lia).
      rewrite <- (Z.mod_unique (Zpos S) (2 ^ (k - 1)) (2 ^ 53 - 1)
                    (Zpos S - (2 ^ 53 - 1) * 2 ^ (k - 1)))
        by (change (2 ^ 53) with (2 * 2 ^ 52); lia).
      assert (Eround :
        round_of_rem (2 ^ 53 - 1) (Zpos S - (2 ^ 53 - 1) * 2 ^ (k - 1))
          (2 ^ (k - 1)) = 2 ^ 53).
      { unfold round_of_rem.
        change (Z.even (2 ^ 53 - 1)) with false.
        change (2 ^ 53 - 1 + 1) with (2 ^ 53).
        destruct (Z.ltb_spec (2 * (Zpos S - (2 ^ 53 - 1) * 2 ^ (k - 1)))
                    (2 ^ (k - 1))) as [Hlt|Hge].
        - change (2 ^ 53) with (2 * 2 ^ 52) in Hlt. lia.
        - destruct (Z.ltb _ _); reflexivity. }
      rewrite Eround, Z.eqb_refl. unfold SF_one. f_equal. lia.
    + apply digits2_pos_unique.
      replace (53 + (k - 1) - 1) with (51 + (k - 1) + 1) by lia.
      replace (53 + (k - 1)) with (52 + (k - 1) + 1) by lia.
      rewrite !Z.pow_add_r by lia.
      change (2 ^ 1) with 2. change (2 ^ 52) with (2 * 2 ^ 51) in *. lia.
Qed.

Lemma SFadd_pos mx ex my ey :
  SF64add (S754_finite false mx ex) (S754_finite false my ey) =
  binary_round prec emax false
    (Z.to_pos (Zpos mx * 2 ^ (ex - Z.min ex ey)
               + Zpos my * 2 ^ (ey - Z.min ex ey)))
    (Z.min ex ey).
Proof.
  unfold SF64add, SFadd, cond_Zopp.
  rewrite !shl_align_value by lia.
  assert (0 < Zpos mx * 2 ^ (ex - Z.min ex ey))
    by (apply Z.mul_pos_pos; [lia | apply Z.pow_pos_nonneg; lia]).
  assert (0 < Zpos my * 2 ^ (ey - Z.min ex ey))
    by (apply Z.mul_pos_pos; [lia | apply Z.pow_pos_nonneg; lia]).
  destruct (_ + _) as [|p|p] eqn:E; try lia. reflexivity.
Qed.

Lemma SFsub_pos mx ex my ey :
  0 < Zpos mx * 2 ^ (ex - Z.min ex ey) - Zpos my * 2 ^ (ey - Z.min ex ey) ->
  SF64sub (S754_finite false mx ex) (S754_finite false my ey) =
  binary_round prec emax false
    (Z.to_pos (Zpos mx * 2 ^ (ex - Z.min ex ey)
               - Zpos my * 2 ^ (ey - Z.min ex ey)))
    (Z.min ex ey).
Proof.
  intros H. unfold SF64sub, SFsub, cond_Zopp.
  rewrite !shl_align_value by lia.
  destruct (_ - _) as [|p|p] eqn:E; try lia. reflexivity.
Qed.

Lemma round_of_rem_error q r unit :
  0 <= r < unit ->
  let m1 := round_of_rem q r unit in
  (m1 = q /\ 2 * r <= unit) \/ (m1 = q + 1 /\ unit <= 2 * r).
Proof.
  intros Hr. unfold round_of_rem.
  destruct (Z.ltb_spec (2 * r) unit); [left; lia|].
  destruct (Z.ltb_spec unit (2 * r)); [right; lia|].
  destruct (Z.even q); [left | right]; lia.
Qed.

Lemma add_back_near_one (ma : positive) (ea : Z) (m : positive) (e k : Z) :
  k = -52 - Z.min ea e -> 1 <= k -> k <= 1022 ->
  (2 ^ 52 * 2 ^ k
   <= Zpos ma * 2 ^ (ea - Z.min ea e) + Zpos m * 2 ^ (e - Z.min ea e)
   /\ 2 * (Zpos ma * 2 ^ (ea - Z.min ea e) + Zpos m * 2 ^ (e - Z.min ea e)
           - 2 ^ 52 * 2 ^ k) < 2 ^ k) \/
  (2 <= k
   /\ Zpos ma * 2 ^ (ea - Z.min ea e) + Zpos m * 2 ^ (e - Z.min ea e)
      < 2 ^ 52 * 2 ^ k
   /\ 4 * (2 ^ 52 * 2 ^ k
           - (Zpos ma * 2 ^ (ea - Z.min ea e) + Zpos m * 2 ^ (e - Z.min ea e)))
      <= 2 ^ k) ->
  SF64add (S754_finite false ma ea) (S754_finite false m e) = SF_one.
Proof.
  intros Ek Hk Hk' H. rewrite SFadd_pos.
  set (S := Zpos ma * 2 ^ (ea - Z.min ea e) + Zpos m * 2 ^ (e - Z.min ea e)) in *.
  assert (HS : 0 < S).
  { unfold S. apply Z.add_pos_pos;
      (apply Z.mul_pos_pos; [lia | apply Z.pow_pos_nonneg; lia]). }
  replace (Z.min ea e) with (-52 - k) by lia.
  apply round_near_one;
    [lia | lia | rewrite Z2Pos.id by exact HS; exact H].
Qed.

(** For a number [b] of [(0, 1)], written [m * 2^e] with [e <= -53]:
    [(1 - b) + b] is one. *)
Lemma SF_one_minus_plus (m : positive) (e : Z) :
  bounded prec emax m e = true -> e <= -53 ->
  SF64add (SF64sub SF_one (S754_finite false m e)) (S754_finite false m e)
  = SF_one.
Proof.
  intros Hb He. apply bounded_bounds in Hb. destruct Hb as (Hmin & Hm & Hnorm).
  change emin with (-1074) in *. change (2 ^ 53) with (2 * 2 ^ 52) in Hm.
  remember (-52 - e) as k eqn:Ek. assert (Hk : 1 <= k) by lia.
  assert (HX : 0 < 2 ^ k) by (apply Z.pow_pos_nonneg; lia).
  assert (HX2 : 2 <= 2 ^ k).
  { change 2 with (2 ^ 1) at 1. apply Z.pow_le_mono_r; lia. }
  unfold SF_one at 1. rewrite SFsub_pos; rewrite (Z.min_r (-52) e) by lia;
    rewrite Z.sub_diag, Z.pow_0_r, Z.mul_1_r; rewrite <- Ek;
    change (Zpos 4503599627370496) with (2 ^ 52); [|lia].
  remember (2 ^ 52 * 2 ^ k - Zpos m) as D eqn:ED.
  assert (HD : 0 < D) by lia.
  remember (Z.to_pos D) as pD eqn:EpD.
  assert (HpD : Zpos pD = D) by (subst pD; apply Z2Pos.id; lia).
  clear EpD.
  destruct (Z.eq_dec k 1) as [Hk1|Hk1].
  - (* e = -53: the difference is exact *)
    assert (Ee : e = -53) by lia.
    subst k. rewrite Hk1 in *. change (2 ^ 1) with 2 in *.
    specialize (Hnorm ltac:(lia)).
    assert (HdD : Zpos (digits2_pos pD) <= 53).
    { pose proof (digits2_pos_bounds pD) as [Blo _].
      destruct (Z.le_gt_cases (Zpos (digits2_pos pD)) 53) as [|Hgt]; trivial.
      assert (2 ^ 53 <= 2 ^ (Zpos (digits2_pos pD) - 1))
        by (apply Z.pow_le_mono_r; lia).
      change (2 ^ 53) with (2 * 2 ^ 52) in *. lia. }
    destruct (binary_round_exact pD e ltac:(lia) ltac:(lia) HdD)
      as (mz & f & -> & Hf & Hmz).
    apply (add_back_near_one mz f m e (-52 - f)).
    + lia.
    + lia.
    + lia.
    + left. rewrite (Z.min_l f e) by lia. rewrite Z.sub_diag, Z.pow_0_r, Z.mul_1_r.
      rewrite Hmz, HpD, ED.
      replace (-52 - f) with (1 + (e - f)) by lia.
      rewrite Z.pow_add_r by lia. change (2 ^ 1) with 2.
      assert (0 < 2 ^ (e - f)) by (apply Z.pow_pos_nonneg; lia).
      nia.
  - (* e <= -54: the difference is rounded to 53 bits *)
    assert (Hk2 : 2 <= k) by lia.
    assert (HY : 0 < 2 ^ (k - 1)) by (apply Z.pow_pos_nonneg; lia).
    assert (HY2 : 2 <= 2 ^ (k - 1)).
    { change 2 with (2 ^ 1) at 1. apply Z.pow_le_mono_r; lia. }
    assert (EX : 2 ^ k = 2 * 2 ^ (k - 1)).
    { rewrite <- Z.pow_succ_r by lia. f_equal. lia. }
    rewrite (binary_round_shift pD e (k - 1)); try lia.
    2:{ apply digits2_pos_unique. rewrite HpD, ED.
        replace (53 + (k - 1) - 1) with (52 + (k - 1)) by lia.
        replace (53 + (k - 1)) with (53 + (k - 1)) by lia.
        rewrite !Z.pow_add_r by lia. rewrite EX.
        change (2 ^ 53) with (2 * 2 ^ 52). nia. }
    rewrite HpD.
    pose proof (Z.div_mod D (2 ^ (k - 1)) ltac:(lia)) as Hdm.
    pose proof (Z.mod_pos_bound D (2 ^ (k - 1)) HY) as Hr.
    set (q := D / 2 ^ (k - 1)) in *. set (r := D mod 2 ^ (k - 1)) in *.
    assert (Hq : 2 ^ 52 <= q).
    { apply Z.div_le_lower_bound; [lia|]. rewrite ED, EX. nia. }
    pose proof (round_of_rem_error q r (2 ^ (k - 1)) Hr) as Herr.
    set (m1 := round_of_rem q r (2 ^ (k - 1))) in *. simpl in Herr.
    destruct (Z.eqb_spec m1 (2 ^ 53)) as [E53|E53].
    + apply (add_back_near_one _ _ m e k); try lia.
      left. rewrite (Z.min_r _ e) by lia.
      rewrite Z.sub_diag, Z.pow_0_r, Z.mul_1_r.
      replace (e + (k - 1) + 1 - e) with k by lia.
      change (Zpos (Z.to_pos (2 ^ 52))) with (2 ^ 52).
      change (2 ^ 53) with (2 * 2 ^ 52) in E53.
      rewrite EX in *. nia.
    + assert (Hm1 : 0 < m1) by lia.
      apply (add_back_near_one _ _ m e k); try lia.
      rewrite (Z.min_r _ e) by lia.
      rewrite Z.sub_diag, Z.pow_0_r, Z.mul_1_r.
      replace (e + (k - 1) - e) with (k - 1) by lia.
      rewrite Z2Pos.id by exact Hm1.
      rewrite EX in *.
      destruct Herr as [[-> Hr2]|[-> Hr2]].
      * destruct (Z.eq_dec r 0) as [Hr0|Hr0]; [left | right]; nia.
      * left. nia.
Qed.

Lemma SFleb_one_cases (m : positive) (e : Z) :
  bounded prec emax m e = true ->
  SFleb (S754_finite false m e) SF_one = true ->
  e <= -53 \/ S754_finite false m e = SF_one.
Proof.
  intros Hb. pose proof (bounded_bounds _ _ Hb) as (Hmin & Hm & Hnorm).
  change emin with (-1074) in *.
  unfold SFleb, SF_one.
  change (SFcompare (S754_finite false m e)
            (S754_finite false 4503599627370496 (-52)))
    with (Some match Z.compare e (-52) with
               | Lt => Lt
               | Gt => Gt
               | Eq => Pos.compare_cont Eq m 4503599627370496
               end).
  destruct (Z.compare_spec e (-52)) as [E|E|E]; intros H.
  - subst e. right.
    specialize (Hnorm ltac:(lia)).
    pose proof (Pos.compare_spec m 4503599627370496) as HC.
    unfold Pos.compare in HC.
    destruct HC as [Ep|Ep|Ep].
    + subst m. reflexivity.
    + exfalso. apply Pos2Z.pos_lt_pos in Ep.
      apply (Z.lt_irrefl (Zpos m)).
      exact (Z.lt_le_trans _ _ _ Ep Hnorm).
    + discriminate H.
  - left. lia.
  - discriminate.
Qed.

Lemma one_minus_plus (b : float) :
  PrimFloat.leb 0 b = true -> PrimFloat.leb b 1 = true ->
  PrimFloat.add (PrimFloat.sub 1 b) b = 1%float.
Proof.
  intros H0 H1. apply Prim2SF_inj.
  rewrite FloatAxioms.add_spec, FloatAxioms.sub_spec.
  rewrite FloatAxioms.leb_spec in H0, H1.
  pose proof (Prim2SF_valid b) as Hv.
  change (Prim2SF 1) with SF_one in *.
  change (Prim2SF 0) with (S754_zero false) in *.
  destruct (Prim2SF b) as [s|s| |s m e].
  - reflexivity.
  - destruct s; discriminate.
  - discriminate.
  - destruct s; [discriminate|]. simpl in Hv.
    destruct (SFleb_one_cases m e Hv H1) as [He|E].
    + now apply SF_one_minus_plus.
    + rewrite E. vm_compute. reflexivity.
Qed.

End RoundingLemmas.

(** ** The median *)

Section Median.
Import FloatFacts.










End Median.

(** ** Lookup in the wavelength grid *)

Section Lookup.
Variable x : float.

Lemma find_index_Some t i : Py.find_index t x = Some i -> first_match t x i.
Proof.
  revert i. induction t as [|a t IH]; simpl; intros i H; [discriminate|].
  destruct (PrimFloat.eqb a x) eqn:E.
  - injection H as <-. split; [exists a; auto | intros j y Hj; lia].
  - destruct (Py.find_index t x) as [i'|]; [|discriminate].
    injection H as <-. destruct (IH i' eq_refl) as [Hy Hlt].
    split; [exact Hy|].
    intros [|j] y Hj Hn; simpl in Hn.
    + injection Hn as <-. exact E.
    + apply (Hlt j); [lia | exact Hn].
Qed.

Lemma first_match_find_index t i : first_match t x i -> Py.find_index t x = Some i.
Proof.
  revert i. induction t as [|a t IH]; intros i [[y [Hy Hx]] Hlt].
  - destruct i; discriminate.
  - simpl. destruct i as [|i]; simpl in Hy.
    + injection Hy as ->. rewrite Hx. reflexivity.
    + rewrite (Hlt O a) by (lia || reflexivity).
      rewrite (IH i); [reflexivity|].
      split; [exists y; auto|].
      intros j z Hj Hz. apply (Hlt (S j)); [lia | exact Hz].
Qed.

Lemma find_index_None t : Py.find_index t x = None <-> absent t x.
Proof.
  unfold absent. induction t as [|a t IH]; simpl.
  - split; [constructor | reflexivity].
  - destruct (PrimFloat.eqb a x) eqn:E.
    + split; [discriminate|]. intros H. inversion H; congruence.
    + destruct (Py.find_index t x) as [i|]; simpl.
      * split; [discriminate|]. intros H. inversion H; subst.
        apply IH in H3. discriminate.
      * split; [|reflexivity]. intros _. constructor; [exact E | now apply IH].
Qed.

Lemma tuple_index_Ok t i : Py.tuple_index t x = Ok i <-> first_match t x i.
Proof.
  unfold Py.tuple_index. split.
  - destruct (Py.find_index t x) eqn:E; [|discriminate].
    intros H. injection H as <-. now apply find_index_Some.
  - intros H. now rewrite (first_match_find_index _ _ H).
Qed.

Lemma tuple_index_Raise t e :
  Py.tuple_index t x = Raise e <-> e = ValueError /\ absent t x.
Proof.
  unfold Py.tuple_index. rewrite <- find_index_None.
  destruct (Py.find_index t x); split; try discriminate.
  - intros [_ H]. discriminate.
  - intros H. injection H as <-. auto.
  - intros [-> _]. reflexivity.
Qed.

End Lookup.

(** ** Slices and windows *)

(** A slice whose start is not negative is the window cut to the bands that
    exist, whatever its stop. *)
Lemma slice_nonneg_start (row : list float) lo hi :
  (0 <= lo)%Z -> (0 <= hi + 1)%Z ->
  Py.slice row lo (hi + 1) = band_window row lo hi.
Proof.
  intros Hlo Hhi. unfold Py.slice, Py.adjust_index, band_window.
  destruct (Z.ltb_spec lo 0); [lia|]. destruct (Z.ltb_spec (hi + 1) 0); [lia|].
  rewrite (Z.max_l lo 0) by lia.
  set (n := Z.of_nat (length row)).
  destruct (Z.le_gt_cases n lo) as [Hge|Hlt].
  - rewrite (Z.min_r lo n) by lia.
    rewrite !skipn_all2 by lia. now rewrite !firstn_nil.
  - rewrite (Z.min_l lo n) by lia.
    destruct (Z.le_gt_cases (hi + 1) n) as [Hin|Hout].
    + now rewrite (Z.min_l (hi + 1) n) by lia.
    + rewrite (Z.min_r (hi + 1) n) by lia.
      rewrite !firstn_all2; [reflexivity| |]; rewrite length_skipn; lia.
Qed.

Lemma slice_window_fits (row : list float) pos k :
  window_fits row pos k ->
  Py.slice row (Z.of_nat pos - Py.floordiv2 k) (Z.of_nat pos + Py.floordiv2 k + 1)
  = band_window row (Z.of_nat pos - k / 2) (Z.of_nat pos + k / 2).
Proof.
  intros [H1 H2]. unfold Py.floordiv2. apply slice_nonneg_start; lia.
Qed.



(** ** Broadcasting *)

Lemma zip_with_length {A B C} (f : A -> B -> C) xs ys :
  length xs = length ys -> length (Np.zip_with f xs ys) = length xs.
Proof.
  revert ys. induction xs as [|x xs IH]; intros [|y ys]; simpl; try discriminate;
    auto.
Qed.

Lemma zip_with_map {A B C D} (f : B -> C -> D) (g : A -> B) (h : A -> C) l :
  Np.zip_with f (map g l) (map h l) = map (fun x => f (g x) (h x)) l.
Proof. induction l as [|x l IH]; simpl; [reflexivity | now rewrite IH]. Qed.

Lemma zip_with_Forall {A} (P : A -> Prop) (f : A -> A -> A) xs ys :
  (forall x y, P x -> P y -> P (f x y)) ->
  Forall P xs -> Forall P ys -> Forall P (Np.zip_with f xs ys).
Proof.
  intros Hf Hxs. revert ys. induction Hxs as [|x xs Hx Hxs IH];
    intros ys Hys; simpl; [constructor|].
  destruct Hys as [|y ys Hy Hys]; constructor; auto.
Qed.

Lemma broadcast_same_length f xs ys :
  length xs = length ys -> Np.broadcast f xs ys = Ok (Np.zip_with f xs ys).
Proof. intros H. unfold Np.broadcast. now rewrite H, Nat.eqb_refl. Qed.

Lemma broadcast_Ok_length f xs ys r :
  length xs = length ys -> Np.broadcast f xs ys = Ok r -> length r = length xs.
Proof.
  intros H. rewrite broadcast_same_length by exact H.
  intros E. injection E as <-. now apply zip_with_length.
Qed.

Lemma median_of_columns_length spectra lo hi :
  length (Np.median_of_columns spectra lo hi) = length spectra.
Proof. unfold Np.median_of_columns. apply length_map. Qed.

Lemma zip_with_map2 {A B C D E} (f : C -> D -> E) (g : A -> C) (h : B -> D)
  xs ys :
  Np.zip_with f (map g xs) (map h ys)
  = Np.zip_with (fun x y => f (g x) (h y)) xs ys.
Proof.
  revert ys. induction xs as [|x xs IH]; intros [|y ys]; simpl; trivial.
  now rewrite IH.
Qed.

(** ** The monad of results *)

Lemma bind_Ok {A B} (m : result A) (k : A -> result B) a :
  m = Ok a -> (m ≫= k) = k a.
Proof. intros ->. reflexivity. Qed.

Lemma bind_Raise {A B} (m : result A) (k : A -> result B) e :
  m = Raise e -> (m ≫= k) = Raise e.
Proof. intros ->. reflexivity. Qed.

(** ** [wavelength_weights] *)

(** Python's [/] raises exactly when the difference [long - short] is a
    zero, which is when [long == short] with both finite. *)
Lemma wavelength_weights_equation (short center long : float) :
  wavelength_weights short center long =
  if PrimFloat.eqb (PrimFloat.sub long short) 0%float
  then Raise ZeroDivisionError
  else Ok (weights_formula short center long).
Proof.
  unfold wavelength_weights, Py.truediv, weights_formula.
  destruct (PrimFloat.eqb _ 0%float); reflexivity.
Qed.

Lemma wavelength_weights_distinct (short center long : float) :
  PrimFloat.eqb long short = false ->
  wavelength_weights short center long = Ok (weights_formula short center long).
Proof.
  intros H. rewrite wavelength_weights_equation.
  now rewrite FloatLemmas.sub_not_zero.
Qed.

Lemma wavelength_weights_equal (short center long : float) :
  PrimFloat.is_finite short = true -> PrimFloat.eqb short long = true ->
  wavelength_weights short center long = Raise ZeroDivisionError.
Proof.
  intros Hf He. rewrite wavelength_weights_equation.
  now rewrite FloatLemmas.sub_eq_zero.
Qed.

(** C4 (as amended): for every wavelength triple with [long != short],
    [wavelength_weights] returns [(a, b)] with
    [b = (center - short) / (long - short)] and [a = 1 - b]; the two results
    of the specification, [(0.5, 0.5)] at [(1, 2, 3)] and [(1, 0)] at
    [(1, 1, 2)], are instances. *)
Theorem wavelength_weights_formula (short center long : float) :
  PrimFloat.eqb long short = false ->
  wavelength_weights short center long =
  Ok (PrimFloat.sub 1 (PrimFloat.div (PrimFloat.sub center short)
                                     (PrimFloat.sub long short)),
      PrimFloat.div (PrimFloat.sub center short) (PrimFloat.sub long short)).
Proof. apply wavelength_weights_distinct. Qed.

Lemma wavelength_weights_formula_witness :
  wavelength_weights 1 2 3 = Ok (0.5, 0.5)%float /\
  wavelength_weights 1 1 2 = Ok (1, 0)%float.
Proof.
  split.
  - exact (wavelength_weights_formula 1 2 3 eq_refl).
  - exact (wavelength_weights_formula 1 1 2 eq_refl).
Defined.

(** C4 (as stated) fails at the triple [(1, 1, 1)]: the division by
    [long - short = 0] raises [ZeroDivisionError], so no pair is returned. *)
Lemma wavelength_weights_degenerate :
  wavelength_weights 1 1 1 = Raise ZeroDivisionError /\
  wavelength_weights 1 1 1 <> Ok (weights_formula 1 1 1).
Proof. split; [reflexivity | discriminate]. Qed.

(** C5 (as amended): for every wavelength triple with
    [short < center < long], [wavelength_weights] returns [(a, b)] where [b]
    is exactly the binary64 quotient [(center - short) / (long - short)] and
    [a] is exactly [1 - b]; [a + b] is exactly [1] whenever [0 <= b <= 1],
    which is the case at every triple the file and its tests use. *)
Theorem wavelength_weights_ordered (short center long : float) :
  PrimFloat.ltb short center = true -> PrimFloat.ltb center long = true ->
  (exists a b,
      wavelength_weights short center long = Ok (a, b) /\
      b = PrimFloat.div (PrimFloat.sub center short) (PrimFloat.sub long short) /\
      a = PrimFloat.sub 1 b /\
      (PrimFloat.leb 0 b = true -> PrimFloat.leb b 1 = true ->
       PrimFloat.add a b = 1%float)) /\
  Forall (fun t : float * float * float =>
            let '(s, c, l) := t in
            exists a b, wavelength_weights s c l = Ok (a, b) /\
                        PrimFloat.leb 0 b = true /\ PrimFloat.leb b 1 = true /\
                        PrimFloat.eqb (PrimFloat.add a b) 1 = true)
         source_triples.
Proof.
  intros H1 H2. split.
  - eexists _, _. split; [|split; [reflexivity|split; [reflexivity|]]].
    + apply wavelength_weights_distinct.
      exact (FloatLemmas.lt_lt_neq _ _ _ H1 H2).
    + apply RoundingLemmas.one_minus_plus.
  - unfold source_triples.
    repeat (constructor;
            [eexists _, _; repeat split; vm_compute; reflexivity|]).
    constructor.
Qed.

Lemma wavelength_weights_ordered_witness :
  exists a b,
    wavelength_weights 1.33578 1.41459 1.55264 = Ok (a, b) /\
    b = PrimFloat.div (PrimFloat.sub 1.41459 1.33578)
                      (PrimFloat.sub 1.55264 1.33578) /\
    a = PrimFloat.sub 1 b /\
    PrimFloat.add a b = 1%float.
Proof.
  destruct (wavelength_weights_ordered 1.33578 1.41459 1.55264 eq_refl eq_refl)
    as [(a & b & Hw & Hb & Ha & Hsum) _].
  exists a, b. split; [exact Hw|]. split; [exact Hb|]. split; [exact Ha|].
  apply Hsum; rewrite Hb; reflexivity.
Defined.

(** C5 (as stated) fails where the differences overflow: at the ordered
    triple [(-1.5e308, 1e308, 1.6e308)] both differences are [+inf], [b] is
    NaN and [a + b == 1] is false. *)
Lemma wavelength_weights_overflow :
  PrimFloat.ltb (-1.5e308) 1e308 = true /\
  PrimFloat.ltb 1e308 1.6e308 = true /\
  wavelength_weights (-1.5e308) 1e308 1.6e308 = Ok (nan, nan) /\
  PrimFloat.eqb (PrimFloat.add nan nan) 1 = false.
Proof. repeat split; vm_compute; reflexivity. Qed.

(** ** [interpolated_center_wavelength_reflectance] *)

Lemma interpolated_equation short_ref bd_wavelengths long_ref a b :
  wavelength_weights bd_wavelengths.1.1 bd_wavelengths.1.2 bd_wavelengths.2
  = Ok (a, b) ->
  length short_ref = length long_ref ->
  interpolated_center_wavelength_reflectance short_ref bd_wavelengths long_ref
  = Ok (Np.zip_with
          (fun x y => PrimFloat.add (PrimFloat.mul a x) (PrimFloat.mul b y))
          short_ref long_ref).
Proof.
  destruct bd_wavelengths as [[w0 w1] w2]. simpl. intros Hw Hlen.
  unfold interpolated_center_wavelength_reflectance.
  rewrite (bind_Ok _ _ _ Hw). unfold Np.add, Np.scalar_mul.
  rewrite broadcast_same_length by (now rewrite !length_map).
  now rewrite zip_with_map2.
Qed.

Lemma interpolated_continuum short_ref short center long long_ref :
  PrimFloat.eqb long short = false ->
  length short_ref = length long_ref ->
  interpolated_center_wavelength_reflectance short_ref (short, center, long)
    long_ref
  = Ok (Np.zip_with (continuum (short, center, long)) short_ref long_ref).
Proof.
  intros Hne Hlen.
  erewrite interpolated_equation;
    [reflexivity | now apply wavelength_weights_distinct | exact Hlen].
Qed.

Lemma interpolated_raises short_ref bd_wavelengths long_ref e :
  wavelength_weights bd_wavelengths.1.1 bd_wavelengths.1.2 bd_wavelengths.2
  = Raise e ->
  interpolated_center_wavelength_reflectance short_ref bd_wavelengths long_ref
  = Raise e.
Proof.
  destruct bd_wavelengths as [[w0 w1] w2]. simpl. intros Hw.
  unfold interpolated_center_wavelength_reflectance.
  now rewrite (bind_Raise _ _ _ Hw).
Qed.

(** C6 (as amended): for every pair of equal-shaped arrays and every
    wavelength triple with [long != short], the function returns, element by
    element, [a * short_ref + b * long_ref] with the weights [(a, b)] of
    [wavelength_weights], in an array of the shape of its inputs; at
    [([1], (1, 2, 3), [3])] this is [[2]]. *)
Theorem interpolated_elementwise
  (short_ref long_ref : Np.array1) (short center long : float) :
  length short_ref = length long_ref ->
  PrimFloat.eqb long short = false ->
  exists a b r,
    wavelength_weights short center long = Ok (a, b) /\
    interpolated_center_wavelength_reflectance short_ref (short, center, long)
      long_ref = Ok r /\
    r = Np.zip_with
          (fun x y => PrimFloat.add (PrimFloat.mul a x) (PrimFloat.mul b y))
          short_ref long_ref /\
    length r = length short_ref.
Proof.
  intros Hlen Hne.
  pose proof (wavelength_weights_distinct short center long Hne) as Hw.
  destruct (weights_formula short center long) as [a b] eqn:E.
  exists a, b. eexists. split; [exact Hw|]. split; [|split; [reflexivity|]].
  - now apply (interpolated_equation _ (short, center, long)).
  - now apply zip_with_length.
Qed.

Lemma interpolated_elementwise_witness :
  interpolated_center_wavelength_reflectance [1%float] (1, 2, 3)%float [3%float]
  = Ok [2%float].
Proof.
  destruct (interpolated_elementwise [1%float] [3%float] 1 2 3 eq_refl eq_refl)
    as (a & b & r & Hw & Hr & Hz & _).
  injection Hw as <- <-. rewrite Hr, Hz. reflexivity.
Defined.

(** C6 (as stated) fails at the triple [(1, 1, 1)]: the weights do not
    exist, the call raises [ZeroDivisionError] and returns no array. *)
Lemma interpolated_degenerate :
  interpolated_center_wavelength_reflectance [1%float] (1, 1, 1)%float [3%float]
  = Raise ZeroDivisionError /\
  length [1%float] = length [3%float].
Proof. split; reflexivity. Qed.

(** ** [band_depth_calculation] *)

Section BandDepth.
Variables (spectra : Np.array2) (all_wavelengths : list float).
Variables (short center long : float) (k0 k1 k2 : Z).

Lemma band_depth_absent :
  absent all_wavelengths short \/ absent all_wavelengths center \/
  absent all_wavelengths long ->
  band_depth_calculation spectra all_wavelengths (short, center, long)
    (k0, k1, k2) = Raise ValueError.
Proof.
  unfold band_depth_calculation. intros H.
  destruct (Py.tuple_index all_wavelengths short) as [i0|e0] eqn:E0.
  2:{ apply tuple_index_Raise in E0. destruct E0 as [-> _]. reflexivity. }
  destruct (Py.tuple_index all_wavelengths center) as [i1|e1] eqn:E1.
  2:{ apply tuple_index_Raise in E1. destruct E1 as [-> _]. reflexivity. }
  destruct (Py.tuple_index all_wavelengths long) as [i2|e2] eqn:E2.
  2:{ apply tuple_index_Raise in E2. destruct E2 as [-> _]. reflexivity. }
  exfalso.
  assert (forall x i, Py.tuple_index all_wavelengths x = Ok i ->
                      absent all_wavelengths x -> False) as Hcontra.
  { intros x i Hi Ha.
    pose proof (proj2 (tuple_index_Raise x _ ValueError) (conj eq_refl Ha)).
    congruence. }
  destruct H as [H|[H|H]]; eauto.
Qed.

Variables (i0 i1 i2 : nat).
Hypothesis Hshort : first_match all_wavelengths short i0.
Hypothesis Hcenter : first_match all_wavelengths center i1.
Hypothesis Hlong : first_match all_wavelengths long i2.

Lemma band_depth_located :
  band_depth_calculation spectra all_wavelengths (short, center, long)
    (k0, k1, k2) =
  (interpolated_center_ref ←
     interpolated_center_wavelength_reflectance
       (Np.median_of_columns spectra (Z.of_nat i0 - Py.floordiv2 k0)
          (Z.of_nat i0 + Py.floordiv2 k0 + 1))
       (short, center, long)
       (Np.median_of_columns spectra (Z.of_nat i2 - Py.floordiv2 k2)
          (Z.of_nat i2 + Py.floordiv2 k2 + 1));
   Np.divide
     (Np.median_of_columns spectra (Z.of_nat i1 - Py.floordiv2 k1)
        (Z.of_nat i1 + Py.floordiv2 k1 + 1))
     interpolated_center_ref).
Proof.
  unfold band_depth_calculation.
  apply tuple_index_Ok in Hshort, Hcenter, Hlong.
  rewrite Hshort, Hcenter, Hlong. reflexivity.
Qed.

Lemma band_depth_equal :
  PrimFloat.is_finite short = true -> PrimFloat.eqb short long = true ->
  band_depth_calculation spectra all_wavelengths (short, center, long)
    (k0, k1, k2) = Raise ZeroDivisionError.
Proof.
  intros Hf He. rewrite band_depth_located.
  erewrite interpolated_raises; [reflexivity|].
  now apply wavelength_weights_equal.
Qed.

Lemma band_depth_extracted :
  PrimFloat.eqb long short = false ->
  band_depth_calculation spectra all_wavelengths (short, center, long)
    (k0, k1, k2) =
  Ok (map (fun row =>
             PrimFloat.div (extracted_reflectance row i1 k1)
               (continuum (short, center, long)
                  (extracted_reflectance row i0 k0)
                  (extracted_reflectance row i2 k2)))
          spectra).
Proof.
  intros Hne. rewrite band_depth_located.
  rewrite interpolated_continuum
    by (trivial; now rewrite !median_of_columns_length).
  simpl. unfold Np.divide.
  rewrite broadcast_same_length.
  - unfold Np.median_of_columns. now rewrite !zip_with_map.
  - rewrite zip_with_length; now rewrite !median_of_columns_length.
Qed.

End BandDepth.

Lemma median_nil : Np.median [] = nan.
Proof. reflexivity. Qed.

Lemma extracted_in_range row pos k :
  window_fits row pos k ->
  extracted_reflectance row pos k = kernel_reflectance row pos k.
Proof.
  intros H. unfold extracted_reflectance, kernel_reflectance.
  now rewrite slice_window_fits.
Qed.

(** C1 (as amended): for every spectra matrix, every grid in which the three
    wavelengths are found (each at its first exact match), every triple with
    [long != short] and every kernel-size triple whose windows
    [[pos - k // 2, pos + k // 2]] lie within every spectrum,
    [band_depth_calculation] returns, per spectrum, the median over the
    centre window divided by the continuum interpolated between the medians
    over the short and long windows; at
    [([[2,1,2]], (1,2,3), (1,2,3), (1,1,1))] this is [[0.5]]. *)
Theorem band_depth_in_range
  (spectra : Np.array2) (all_wavelengths : list float)
  (short center long : float) (k0 k1 k2 : Z) (i0 i1 i2 : nat) :
  first_match all_wavelengths short i0 ->
  first_match all_wavelengths center i1 ->
  first_match all_wavelengths long i2 ->
  PrimFloat.eqb long short = false ->
  Forall (fun row => window_fits row i0 k0 /\ window_fits row i1 k1 /\
                     window_fits row i2 k2) spectra ->
  band_depth_calculation spectra all_wavelengths (short, center, long)
    (k0, k1, k2)
  = Ok (band_depth_formula spectra (i0, i1, i2) (short, center, long)
          (k0, k1, k2)).
Proof.
  intros H0 H1 H2 Hne Hfit.
  rewrite (band_depth_extracted _ _ _ _ _ _ _ _ i0 i1 i2) by assumption.
  f_equal. unfold band_depth_formula.
  apply map_ext_in. intros row Hrow.
  rewrite Forall_forall in Hfit.
  destruct (Hfit row (proj2 (list_elem_of_In _ _) Hrow)) as (F0 & F1 & F2).
  now rewrite !extracted_in_range.
Qed.

Lemma band_depth_in_range_witness :
  band_depth_calculation [[2; 1; 2]%float] [1; 2; 3]%float (1, 2, 3)%float
    (1, 1, 1)%Z = Ok [0.5%float].
Proof.
  refine (band_depth_in_range [[2; 1; 2]%float] [1; 2; 3]%float 1 2 3 1 1 1
            0 1 2 _ _ _ eq_refl _).
  - exact (find_index_Some 1 [1; 2; 3]%float 0 eq_refl).
  - exact (find_index_Some 2 [1; 2; 3]%float 1 eq_refl).
  - exact (find_index_Some 3 [1; 2; 3]%float 2 eq_refl).
  - apply List.Forall_cons; [|apply List.Forall_nil].
    unfold window_fits; repeat split;
      (apply Z.leb_le || apply Z.ltb_lt); reflexivity.
Defined.

(** C1 (as stated) fails outside these bounds: with [short == long]
    (wavelength [3], present in the grid) the call raises
    [ZeroDivisionError]; with a kernel of size 3 at the first band the window
    extracted is empty and the result NaN, although bands [0] and [1] of the
    window [[-1, 1]] exist and give [1 / 1.75]. *)
Lemma band_depth_outside_contract :
  band_depth_calculation [[2; 1; 2]%float] [1; 2; 3]%float (3, 2, 3)%float
    (1, 1, 1)%Z = Raise ZeroDivisionError /\
  band_depth_calculation [[2; 1; 2]%float] [1; 2; 3]%float (1, 2, 3)%float
    (3, 1, 1)%Z = Ok [nan] /\
  band_depth_formula [[2; 1; 2]%float] (0, 1, 2)%nat (1, 2, 3)%float (3, 1, 1)%Z
  = [0.5714285714285714%float].
Proof. repeat split; vm_compute; reflexivity. Qed.

(** C2 (as amended): when [short == long] (finite), [wavelength_weights]
    raises [ZeroDivisionError], and so does [band_depth_calculation] once the
    three lookups have succeeded; when [long != short] the call returns one
    value per spectrum without raising, and wherever the interpolated
    continuum is zero that value is not finite (NaN or an infinity). *)
Theorem degenerate_raises_zero_continuum_propagates :
  (forall short center long,
      PrimFloat.is_finite short = true -> PrimFloat.eqb short long = true ->
      wavelength_weights short center long = Raise ZeroDivisionError) /\
  (forall spectra all_wavelengths short center long kernel_sizes i0 i1 i2,
      first_match all_wavelengths short i0 ->
      first_match all_wavelengths center i1 ->
      first_match all_wavelengths long i2 ->
      PrimFloat.is_finite short = true -> PrimFloat.eqb short long = true ->
      band_depth_calculation spectra all_wavelengths (short, center, long)
        kernel_sizes = Raise ZeroDivisionError) /\
  (forall spectra all_wavelengths short center long k0 k1 k2 i0 i1 i2,
      first_match all_wavelengths short i0 ->
      first_match all_wavelengths center i1 ->
      first_match all_wavelengths long i2 ->
      PrimFloat.eqb long short = false ->
      exists r,
        band_depth_calculation spectra all_wavelengths (short, center, long)
          (k0, k1, k2) = Ok r /\
        length r = length spectra /\
        forall j row x,
          nth_error spectra j = Some row -> nth_error r j = Some x ->
          PrimFloat.eqb
            (continuum (short, center, long)
               (extracted_reflectance row i0 k0)
               (extracted_reflectance row i2 k2)) 0 = true ->
          PrimFloat.is_finite x = false).
Proof.
  split; [|split].
  - apply wavelength_weights_equal.
  - intros spectra grid short center long [[k0 k1] k2] i0 i1 i2 H0 H1 H2.
    now apply (band_depth_equal _ _ _ _ _ _ _ _ i0 i1 i2).
  - intros spectra grid short center long k0 k1 k2 i0 i1 i2 H0 H1 H2 Hne.
    eexists. split; [now apply (band_depth_extracted _ _ _ _ _ _ _ _ i0 i1 i2)|].
    split; [apply length_map|].
    intros j row x Hrow Hx Hzero.
    rewrite nth_error_map, Hrow in Hx. injection Hx as <-.
    now apply FloatLemmas.div_by_zero_not_finite.
Qed.

Lemma degenerate_raises_zero_continuum_propagates_witness :
  wavelength_weights 2 2 2 = Raise ZeroDivisionError /\
  band_depth_calculation [[2; 1; 2]%float] [1; 2; 3]%float (1, 2, 1)%float
    (1, 1, 1)%Z = Raise ZeroDivisionError /\
  exists r,
    band_depth_calculation [[0; 1; 0]%float] [1; 2; 3]%float (1, 2, 3)%float
      (1, 1, 1)%Z = Ok r /\
    length r = 1%nat /\
    forall x, nth_error r 0 = Some x -> PrimFloat.is_finite x = false.
Proof.
  destruct degenerate_raises_zero_continuum_propagates as (Hw & Hb & Hz).
  split; [exact (Hw 2%float 2%float 2%float eq_refl eq_refl)|]. split.
  - exact (Hb [[2; 1; 2]%float] [1; 2; 3]%float 1%float 2%float 1%float
             (1, 1, 1)%Z 0%nat 1%nat 0%nat
             (find_index_Some 1 [1; 2; 3]%float 0 eq_refl)
             (find_index_Some 2 [1; 2; 3]%float 1 eq_refl)
             (find_index_Some 1 [1; 2; 3]%float 0 eq_refl)
             eq_refl eq_refl).
  - destruct (Hz [[0; 1; 0]%float] [1; 2; 3]%float 1%float 2%float 3%float
                1%Z 1%Z 1%Z 0%nat 1%nat 2%nat
                (find_index_Some 1 [1; 2; 3]%float 0 eq_refl)
                (find_index_Some 2 [1; 2; 3]%float 1 eq_refl)
                (find_index_Some 3 [1; 2; 3]%float 2 eq_refl)
                eq_refl) as (r & Hr & Hlen & Hnf).
    exists r. split; [exact Hr|]. split; [exact Hlen|].
    intros x Hx. exact (Hnf 0%nat [0; 1; 0]%float x eq_refl Hx eq_refl).
Defined.

(** C2 (as stated) fails for [short == long]: [wavelength_weights(2, 2, 2)]
    and the band depth at the triple [(1, 2, 1)] raise [ZeroDivisionError]
    instead of producing NaN or an infinity. *)
Lemma degenerate_interpolation_raises :
  wavelength_weights 2 2 2 = Raise ZeroDivisionError /\
  band_depth_calculation [[2; 1; 2]%float] [1; 2; 3]%float (1, 2, 1)%float
    (1, 1, 1)%Z = Raise ZeroDivisionError.
Proof. split; reflexivity. Qed.




(** *** Lookup of a wavelength that is an object *)

Section ObjectLookup.
Variable x : Py.number.

Lemma find_number_Some t i : Py.find_number t x = Some i -> first_found t x i.
Proof.
  revert i. induction t as [|a t IH]; simpl; intros i H; [discriminate|].
  destruct (Py.rich_eq a x) eqn:E.
  - injection H as <-. split; [exists a; auto | intros j y Hj; lia].
  - destruct (Py.find_number t x) as [i'|]; [|discriminate].
    injection H as <-. destruct (IH i' eq_refl) as [Hy Hlt].
    split; [exact Hy|].
    intros [|j] y Hj Hn; simpl in Hn.
    + injection Hn as <-. exact E.
    + apply (Hlt j); [lia | exact Hn].
Qed.

Lemma first_found_find_number t i :
  first_found t x i -> Py.find_number t x = Some i.
Proof.
  revert i. induction t as [|a t IH]; intros i [[y [Hy Hx]] Hlt].
  - destruct i; discriminate.
  - simpl. destruct i as [|i]; simpl in Hy.
    + injection Hy as ->. rewrite Hx. reflexivity.
    + rewrite (Hlt O a) by (lia || reflexivity).
      rewrite (IH i); [reflexivity|].
      split; [exists y; auto|].
      intros j z Hj Hz. apply (Hlt (S j)); [lia | exact Hz].
Qed.

Lemma find_number_None t : Py.find_number t x = None <-> not_found t x.
Proof.
  unfold not_found. induction t as [|a t IH]; simpl.
  - split; [constructor | reflexivity].
  - destruct (Py.rich_eq a x) eqn:E.
    + split; [discriminate|]. intros H. inversion H; congruence.
    + destruct (Py.find_number t x) as [i|]; simpl.
      * split; [discriminate|]. intros H. inversion H; subst.
        apply IH in H3. discriminate.
      * split; [|reflexivity]. intros _. constructor; [exact E | now apply IH].
Qed.

Lemma index_Ok t i : Py.index t x = Ok i <-> first_found t x i.
Proof.
  unfold Py.index. split.
  - destruct (Py.find_number t x) eqn:E; [|discriminate].
    intros H. injection H as <-. now apply find_number_Some.
  - intros H. now rewrite (first_found_find_number _ _ H).
Qed.

Lemma index_Raise t e :
  Py.index t x = Raise e <-> e = ValueError /\ not_found t x.
Proof.
  unfold Py.index. rewrite <- find_number_None.
  destruct (Py.find_number t x); split; try discriminate.
  - intros [_ H]. discriminate.
  - intros H. injection H as <-. auto.
  - intros [-> _]. reflexivity.
Qed.

End ObjectLookup.

(** Two numbers are the same object exactly when they are the same pair of
    a value and an identity. *)
Lemma same_object_eq a b : Py.same_object a b = true <-> a = b.
Proof.
  unfold Py.same_object. rewrite andb_true_iff, Pos.eqb_eq,
    FloatAxioms.Leibniz.eqb_spec.
  destruct a as [va ia], b as [vb ib]. simpl. split.
  - intros [-> ->]. reflexivity.
  - intros H. injection H as -> ->. auto.
Qed.

(** A number that is not NaN equals itself: identity adds nothing to [==]. *)
Lemma rich_eq_number y x :
  PrimFloat.is_nan (Py.value x) = false ->
  Py.rich_eq y x = PrimFloat.eqb (Py.value y) (Py.value x).
Proof.
  intros Hx. unfold Py.rich_eq.
  destruct (Py.same_object y x) eqn:E; [|reflexivity].
  apply same_object_eq in E. subst y. simpl.
  rewrite FloatAxioms.eqb_spec, FloatLemmas.SFeqb_refl.
  rewrite FloatLemmas.is_nan_spec in Hx. now rewrite Hx.
Qed.

(** A NaN equals nothing: it is found by identity only. *)
Lemma rich_eq_nan y x :
  PrimFloat.is_nan (Py.value x) = true -> Py.rich_eq y x = Py.same_object y x.
Proof.
  intros Hx. unfold Py.rich_eq.
  replace (PrimFloat.eqb (Py.value y) (Py.value x)) with false;
    [apply orb_false_r|].
  rewrite FloatLemmas.is_nan_spec in Hx.
  rewrite FloatAxioms.eqb_spec. unfold SFeqb.
  destruct (Prim2SF (Py.value x)); try discriminate.
  destruct (Prim2SF (Py.value y)) as [[]|[]| |[] ? ?]; reflexivity.
Qed.

Lemma find_number_values t x :
  PrimFloat.is_nan (Py.value x) = false ->
  Py.find_number t x = Py.find_index (map Py.value t) (Py.value x).
Proof.
  intros Hx. induction t as [|y t IH]; simpl; [reflexivity|].
  now rewrite (rich_eq_number y x Hx), IH.
Qed.

(** So it is for a request that is no object of the tuple. *)
Lemma find_number_other_object t x :
  Forall (fun y => Py.same_object y x = false) t ->
  Py.find_number t x = Py.find_index (map Py.value t) (Py.value x).
Proof.
  induction 1 as [|y t Hy _ IH]; simpl; [reflexivity|].
  unfold Py.rich_eq. now rewrite Hy, IH.
Qed.

Lemma index_values t x :
  PrimFloat.is_nan (Py.value x) = false ->
  Py.index t x = Py.tuple_index (map Py.value t) (Py.value x).
Proof.
  intros Hx. unfold Py.index, Py.tuple_index.
  now rewrite (find_number_values t x Hx).
Qed.

Lemma first_found_number t x i :
  PrimFloat.is_nan (Py.value x) = false ->
  first_found t x i <-> first_match (map Py.value t) (Py.value x) i.
Proof.
  intros Hx. rewrite <- index_Ok, <- tuple_index_Ok.
  now rewrite (index_values t x Hx).
Qed.

Lemma not_found_number t x :
  PrimFloat.is_nan (Py.value x) = false ->
  not_found t x <-> absent (map Py.value t) (Py.value x).
Proof.
  intros Hx. rewrite <- find_number_None, <- find_index_None.
  now rewrite (find_number_values t x Hx).
Qed.

(** *** The engine on objects *)

Lemma objects_band_depth_equation spectra all_wavelengths short center long
  k0 k1 k2 :
  Objects.band_depth_calculation spectra all_wavelengths (short, center, long)
    (k0, k1, k2) =
  match Py.find_number all_wavelengths short,
        Py.find_number all_wavelengths center,
        Py.find_number all_wavelengths long with
  | Some i0, Some i1, Some i2 =>
      if PrimFloat.eqb (PrimFloat.sub (Py.value long) (Py.value short)) 0%float
      then Raise ZeroDivisionError
      else Ok (map (fun row =>
                      PrimFloat.div (extracted_reflectance row i1 k1)
                        (continuum
                           (Py.value short, Py.value center, Py.value long)
                           (extracted_reflectance row i0 k0)
                           (extracted_reflectance row i2 k2)))
                   spectra)
  | _, _, _ => Raise ValueError
  end.
Proof.
  unfold Objects.band_depth_calculation, Py.index.
  destruct (Py.find_number all_wavelengths short) as [i0|]; [|reflexivity].
  destruct (Py.find_number all_wavelengths center) as [i1|]; [|reflexivity].
  destruct (Py.find_number all_wavelengths long) as [i2|]; [|reflexivity].
  cbn [mbind result_bind rbind].
  pose proof (wavelength_weights_equation (Py.value short) (Py.value center)
                (Py.value long)) as Hw.
  destruct (PrimFloat.eqb (PrimFloat.sub (Py.value long) (Py.value short))
              0%float).
  - erewrite (interpolated_raises _
                (Py.value short, Py.value center, Py.value long));
      [reflexivity|exact Hw].
  - destruct (weights_formula (Py.value short) (Py.value center)
                (Py.value long)) as [a b] eqn:Ef.
    erewrite (interpolated_equation _
                (Py.value short, Py.value center, Py.value long));
      [|exact Hw|now rewrite !median_of_columns_length].
    cbn [mbind result_bind rbind]. unfold Np.divide.
    rewrite broadcast_same_length
      by (rewrite zip_with_length; now rewrite !median_of_columns_length).
    unfold Np.median_of_columns. rewrite !zip_with_map.
    unfold continuum. rewrite Ef. reflexivity.
Qed.

(** For requested wavelengths that are not NaN the engine on objects is the
    engine on their values. *)
Lemma objects_band_depth_values spectra all_wavelengths short center long
  kernel_sizes :
  PrimFloat.is_nan (Py.value short) = false ->
  PrimFloat.is_nan (Py.value center) = false ->
  PrimFloat.is_nan (Py.value long) = false ->
  Objects.band_depth_calculation spectra all_wavelengths (short, center, long)
    kernel_sizes
  = band_depth_calculation spectra (map Py.value all_wavelengths)
      (Py.value short, Py.value center, Py.value long) kernel_sizes.
Proof.
  intros Hs Hc Hl. destruct kernel_sizes as [[k0 k1] k2].
  unfold Objects.band_depth_calculation, band_depth_calculation.
  now rewrite (index_values _ _ Hs), (index_values _ _ Hc),
    (index_values _ _ Hl).
Qed.

(** C7 (as amended): the lookup of [band_depth_calculation] is
    [tuple.index]: it returns the first position of the grid whose element is
    the requested object itself or equals it under [==], and raises
    [ValueError] when there is none.  For a requested wavelength that is not
    NaN this is the exact-equality search: the first position whose element
    equals the wavelength.  The call takes its three windows around the
    positions found, and when a requested wavelength is not found the
    [ValueError] is not caught: the call raises it and returns nothing. *)
Theorem lookup_first_match_or_fails :
  (forall all_wavelengths x i,
      Py.index all_wavelengths x = Ok i <-> first_found all_wavelengths x i) /\
  (forall all_wavelengths x,
      Py.index all_wavelengths x = Raise ValueError
      <-> not_found all_wavelengths x) /\
  (forall all_wavelengths x,
      PrimFloat.is_nan (Py.value x) = false ->
      (forall i,
          first_found all_wavelengths x i
          <-> first_match (map Py.value all_wavelengths) (Py.value x) i) /\
      (not_found all_wavelengths x
       <-> absent (map Py.value all_wavelengths) (Py.value x))) /\
  (forall spectra all_wavelengths short center long k0 k1 k2 i0 i1 i2,
      first_found all_wavelengths short i0 ->
      first_found all_wavelengths center i1 ->
      first_found all_wavelengths long i2 ->
      PrimFloat.eqb (Py.value long) (Py.value short) = false ->
      Objects.band_depth_calculation spectra all_wavelengths
        (short, center, long) (k0, k1, k2)
      = Ok (map (fun row =>
                   PrimFloat.div (extracted_reflectance row i1 k1)
                     (continuum
                        (Py.value short, Py.value center, Py.value long)
                        (extracted_reflectance row i0 k0)
                        (extracted_reflectance row i2 k2)))
                spectra)) /\
  (forall spectra all_wavelengths short center long kernel_sizes,
      not_found all_wavelengths short \/ not_found all_wavelengths center \/
      not_found all_wavelengths long ->
      Objects.band_depth_calculation spectra all_wavelengths
        (short, center, long) kernel_sizes = Raise ValueError) /\
  (forall spectra all_wavelengths short center long kernel_sizes r,
      Objects.band_depth_calculation spectra all_wavelengths
        (short, center, long) kernel_sizes = Ok r ->
      found all_wavelengths short /\ found all_wavelengths center /\
      found all_wavelengths long).
Proof.
  split; [|split; [|split; [|split; [|split]]]].
  - intros. apply index_Ok.
  - intros grid x. rewrite index_Raise. tauto.
  - intros grid x Hx. split.
    + intros i. now apply first_found_number.
    + now apply not_found_number.
  - intros spectra grid short center long k0 k1 k2 i0 i1 i2 H0 H1 H2 Hne.
    rewrite objects_band_depth_equation.
    rewrite (first_found_find_number _ _ _ H0),
      (first_found_find_number _ _ _ H1), (first_found_find_number _ _ _ H2).
    now rewrite (FloatLemmas.sub_not_zero _ _ Hne).
  - intros spectra grid short center long [[k0 k1] k2] H.
    rewrite objects_band_depth_equation.
    destruct H as [H|[H|H]]; apply find_number_None in H; rewrite H;
      repeat match goal with
        | |- context [match ?o with Some _ => _ | None => _ end] =>
            destruct o
        end; reflexivity.
  - intros spectra grid short center long [[k0 k1] k2] r.
    rewrite objects_band_depth_equation. unfold found.
    destruct (Py.find_number grid short) as [i0|] eqn:E0; [|discriminate].
    destruct (Py.find_number grid center) as [i1|] eqn:E1; [|discriminate].
    destruct (Py.find_number grid long) as [i2|] eqn:E2; [|discriminate].
    intros _. apply find_number_Some in E0, E1, E2.
    split; [|split]; eexists; eassumption.
Qed.

(** On a grid that holds the centre wavelength twice, the window is taken
    around its first position. *)
Lemma lookup_first_match_or_fails_witness :
  Objects.band_depth_calculation [[5; 2; 9; 4]%float]
    [object 1 2; object 2 1; object 3 2; object 4 3]%float
    (object 5 1, object 6 2, object 7 3)%float (1, 1, 1)%Z
  = Ok [PrimFloat.div 5 3] /\
  Objects.band_depth_calculation [[5; 2; 9; 4]%float]
    [object 1 2; object 2 1; object 3 2; object 4 3]%float
    (object 5 1, object 6 2, object 7 3.5)%float (1, 1, 1)%Z
  = Raise ValueError.
Proof.
  destruct lookup_first_match_or_fails as (_ & _ & _ & Hfound & Hfail & _).
  split.
  - rewrite (Hfound [[5; 2; 9; 4]%float] _ _ _ _ 1%Z 1%Z 1%Z 1%nat 0%nat 3%nat).
    + reflexivity.
    + split; [exists (object 2 1); split; reflexivity|].
      intros [|j] y Hj Hy; [|lia]. injection Hy as <-. reflexivity.
    + split; [exists (object 1 2); split; reflexivity|intros j y Hj; lia].
    + split; [exists (object 4 3); split; reflexivity|].
      intros [|[|[|j]]] y Hj Hy; try lia; injection Hy as <-; reflexivity.
    + reflexivity.
  - apply Hfail. right. right. repeat constructor.
Defined.

(** C7 (as stated) fails for a NaN that is an object of the grid: no element
    of the grid equals it, so that an exact-equality search finds nothing,
    yet [tuple.index] finds the object itself and the call returns a band
    depth instead of failing.  (A NaN that is another object is not
    found.) *)
Lemma lookup_finds_the_same_nan :
  PrimFloat.eqb nan nan = false /\
  absent [1; nan; 3]%float nan /\
  Py.index [object 1 1; object 2 nan; object 3 3]%float (object 2 nan)
  = Ok 1%nat
  /\ Objects.band_depth_calculation [[2; 1; 2]%float]
       [object 1 1; object 2 nan; object 3 3]%float
       (object 1 1, object 2 nan, object 3 3)%float (1, 1, 1)%Z
     = Ok [nan] /\
  Objects.band_depth_calculation [[2; 1; 2]%float]
    [object 1 1; object 2 nan; object 3 3]%float
    (object 1 1, object 4 nan, object 3 3)%float (1, 1, 1)%Z
  = Raise ValueError.
Proof.
  split; [reflexivity|]. split; [repeat constructor|].
  repeat split; vm_compute; reflexivity.
Qed.

Lemma band_depth_Ok_located spectra all_wavelengths short center long
  kernel_sizes r :
  band_depth_calculation spectra all_wavelengths (short, center, long)
    kernel_sizes = Ok r ->
  exists i0 i1 i2,
    first_match all_wavelengths short i0 /\
    first_match all_wavelengths center i1 /\
    first_match all_wavelengths long i2.
Proof.
  destruct kernel_sizes as [[k0 k1] k2]. unfold band_depth_calculation.
  destruct (Py.tuple_index all_wavelengths short) as [i0|] eqn:E0;
    [|discriminate].
  destruct (Py.tuple_index all_wavelengths center) as [i1|] eqn:E1;
    [|discriminate].
  destruct (Py.tuple_index all_wavelengths long) as [i2|] eqn:E2;
    [|discriminate].
  intros _. exists i0, i1, i2. now rewrite <- !tuple_index_Ok.
Qed.

Lemma band_depth_length spectra all_wavelengths bd_wavelengths kernel_sizes r :
  band_depth_calculation spectra all_wavelengths bd_wavelengths kernel_sizes
  = Ok r ->
  length r = length spectra.
Proof.
  destruct bd_wavelengths as [[short center] long]. intros H.
  destruct (band_depth_Ok_located _ _ _ _ _ _ _ H)
    as (i0 & i1 & i2 & H0 & H1 & H2).
  destruct kernel_sizes as [[k0 k1] k2].
  rewrite (band_depth_located _ _ _ _ _ _ _ _ i0 i1 i2) in H by assumption.
  destruct (wavelength_weights short center long) as [[a b]|e] eqn:Hw.
  - erewrite (interpolated_equation _ (short, center, long)) in H;
      [|exact Hw|now rewrite !median_of_columns_length].
    simpl in H. apply broadcast_Ok_length in H.
    + now rewrite H, median_of_columns_length.
    + rewrite zip_with_length; now rewrite !median_of_columns_length.
  - erewrite (interpolated_raises _ (short, center, long)) in H; [|exact Hw].
    discriminate.
Qed.

(** ** [hyd_femg_clay_index_calculation] *)

Lemma clamp_nonneg (x : float) :
  PrimFloat.is_nan x = false ->
  PrimFloat.leb 0
    (let y := PrimFloat.sub 1 x in if PrimFloat.ltb y 0 then 0%float else y)
  = true.
Proof.
  intros H. simpl.
  destruct (PrimFloat.ltb (PrimFloat.sub 1 x) 0) eqn:E; [reflexivity|].
  apply FloatLemmas.not_neg_nonneg; [|exact E].
  now apply FloatLemmas.one_minus_not_nan.
Qed.

Lemma clamped_depth_nonneg spectra wavelengths term bd :
  band_depth_calculation spectra wavelengths term.1 term.2 = Ok bd ->
  nan_free bd ->
  exists r, clamped_depth spectra wavelengths term = Ok r /\
            length r = length spectra /\ all_nonneg r.
Proof.
  intros Hbd Hnan. unfold clamped_depth. rewrite (bind_Ok _ _ _ Hbd).
  eexists. split; [reflexivity|]. split.
  - unfold Np.clamp_negative, Np.scalar_rsub. rewrite !length_map.
    now apply band_depth_length in Hbd.
  - unfold all_nonneg, Np.clamp_negative, Np.scalar_rsub. rewrite map_map.
    clear Hbd. induction Hnan as [|x xs Hx Hxs IH]; simpl; [constructor|].
    constructor; [now apply clamp_nonneg | exact IH].
Qed.

Lemma add_nonneg_arrays xs ys n :
  length xs = n -> length ys = n -> all_nonneg xs -> all_nonneg ys ->
  exists r, Np.add xs ys = Ok r /\ length r = n /\ all_nonneg r.
Proof.
  intros Hx Hy Nx Ny. unfold Np.add.
  rewrite broadcast_same_length by congruence.
  eexists. split; [reflexivity|]. split.
  - rewrite zip_with_length; congruence.
  - apply zip_with_Forall; trivial. apply FloatLemmas.add_nonneg.
Qed.

(** C10: when each of the seven band-depth evaluations of
    [hyd_femg_clay_index_calculation] returns an array without NaN, the index
    is returned, has one element per spectrum, and every element is [>= 0]:
    each term [1 - depth] is clamped below at zero before the terms are
    added. *)
Theorem hyd_femg_clay_index_nonneg
  (spectra : Np.array2) (wavelengths : list float) :
  Forall (fun term =>
            exists bd,
              band_depth_calculation spectra wavelengths term.1 term.2 = Ok bd
              /\ nan_free bd)
         hyd_femg_terms ->
  exists index,
    hyd_femg_clay_index_calculation spectra wavelengths = Ok index /\
    length index = length spectra /\
    all_nonneg index.
Proof.
  intros H. unfold hyd_femg_terms in H.
  repeat match type of H with
         | Forall _ (_ :: _) =>
             let Hx := fresh "Hterm" in
             let bd := fresh "bd" in
             let Hbd := fresh "Hbd" in
             let Hnan := fresh "Hnan" in
             apply Forall_cons_1 in H; destruct H as [Hx H];
             destruct Hx as (bd & Hbd & Hnan);
             destruct (clamped_depth_nonneg _ _ _ _ Hbd Hnan)
               as (? & ? & ? & ?)
         end.
  clear H. unfold hyd_femg_clay_index_calculation.
  repeat match goal with
         | Hc : clamped_depth _ _ _ = Ok _ |- _ =>
             rewrite (bind_Ok _ _ _ Hc); clear Hc
         end.
  repeat match goal with
         | |- exists index, (Np.add ?xs ?ys ≫= _) = Ok index /\ _ =>
             let r := fresh "s" in
             destruct (add_nonneg_arrays xs ys (length spectra))
               as (r & Hr & ? & ?); trivial;
             rewrite (bind_Ok _ _ _ Hr); clear Hr
         end.
  apply add_nonneg_arrays; trivial.
Qed.

Lemma hyd_femg_clay_index_nonneg_witness :
  exists index,
    hyd_femg_clay_index_calculation sample_spectra sample_wavelengths = Ok index
    /\ length index = length sample_spectra
    /\ all_nonneg index.
Proof.
  apply hyd_femg_clay_index_nonneg. unfold hyd_femg_terms.
  repeat (apply List.Forall_cons;
          [ eexists; split;
            [ vm_compute; reflexivity
            | repeat (apply List.Forall_cons; [reflexivity|]);
              apply List.Forall_nil ]
          | ]).
  apply List.Forall_nil.
Defined.

(** ** The moving filters *)

Section WindowFilter.
Variables (f : list float -> float) (window : nat).

Lemma window_filter_length spectrum :
  length (Denoise.window_filter f window spectrum) = length spectrum.
Proof. unfold Denoise.window_filter. now rewrite length_map, length_seq. Qed.

Lemma window_filter_edge spectrum i :
  (i < window / 2 \/ length spectrum - window / 2 <= i)%nat ->
  nth_error (Denoise.window_filter f window spectrum) i = nth_error spectrum i.
Proof.
  intros Hedge. unfold Denoise.window_filter.
  set (half := Nat.div window 2) in *. clearbody half.
  rewrite nth_error_map.
  destruct (Nat.lt_ge_cases i (length spectrum)) as [Hlt|Hge].
  - rewrite nth_error_seq. destruct (Nat.ltb_spec i (length spectrum)); [|lia].
    simpl.
    replace (Nat.leb half i && Nat.ltb (i + half) (length spectrum))
      with false.
    + symmetry. now apply nth_error_nth'.
    + symmetry. apply andb_false_iff.
      destruct Hedge; [left; apply Nat.leb_gt | right; apply Nat.ltb_ge]; lia.
  - rewrite (proj2 (nth_error_None spectrum i)) by exact Hge.
    rewrite (proj2 (nth_error_None (seq 0 (length spectrum)) i));
      [reflexivity | now rewrite length_seq].
Qed.

Lemma filtered_shape (spectra : Denoise.cube) :
  Denoise.shape (map (map (Denoise.window_filter f window)) spectra)
  = Denoise.shape spectra.
Proof.
  unfold Denoise.shape. rewrite map_map. apply map_ext. intros row.
  rewrite map_map. apply map_ext. intros spectrum. apply window_filter_length.
Qed.

Lemma filtered_spectrum_at (spectra : Denoise.cube) r c :
  Denoise.spectrum_at (map (map (Denoise.window_filter f window)) spectra) r c
  = option_map (Denoise.window_filter f window) (Denoise.spectrum_at spectra r c).
Proof.
  unfold Denoise.spectrum_at. rewrite nth_error_map.
  destruct (nth_error spectra r) as [row|]; simpl; [|reflexivity].
  apply nth_error_map.
Qed.

Lemma filtered_edge (spectra : Denoise.cube) r c i spectrum :
  Denoise.spectrum_at spectra r c = Some spectrum ->
  (i < window / 2 \/ length spectrum - window / 2 <= i)%nat ->
  Denoise.band_at (map (map (Denoise.window_filter f window)) spectra) r c i
  = Denoise.band_at spectra r c i.
Proof.
  intros Hs Hedge. unfold Denoise.band_at.
  rewrite filtered_spectrum_at, Hs. simpl. now apply window_filter_edge.
Qed.

End WindowFilter.

(** C9: on every spectral cube and for every window size, the outputs of
    [moving_median_filter] and [moving_mean_filter] have the shape of the
    input, and at the first and the last [window // 2] positions of the band
    axis of every pixel they hold the input's values. *)
Theorem moving_filters_shape_and_edges (spectra : Denoise.cube) (window : nat) :
  Denoise.shape (Denoise.moving_median_filter spectra window)
  = Denoise.shape spectra /\
  Denoise.shape (Denoise.moving_mean_filter spectra window)
  = Denoise.shape spectra /\
  forall r c i spectrum,
    Denoise.spectrum_at spectra r c = Some spectrum ->
    (i < window / 2 \/ length spectrum - window / 2 <= i)%nat ->
    Denoise.band_at (Denoise.moving_median_filter spectra window) r c i
    = Denoise.band_at spectra r c i /\
    Denoise.band_at (Denoise.moving_mean_filter spectra window) r c i
    = Denoise.band_at spectra r c i.
Proof.
  split; [apply filtered_shape|]. split; [apply filtered_shape|].
  intros r c i spectrum Hs Hedge.
  split; now apply filtered_edge with spectrum.
Qed.

(** The model agrees with the tests of the repository at the window size 5:
    the spectrum [[1,1,1,2,1,2,1]] is filtered to [[1,1,1,1,1,2,1]] by the
    median and to [[1,1,1.2,1.4,1.4,2,1]] by the mean. *)
Example moving_filters_tests :
  Denoise.moving_median_filter [[[1; 1; 1; 2; 1; 2; 1]%float]] 5
  = [[[1; 1; 1; 1; 1; 2; 1]%float]] /\
  Denoise.moving_mean_filter [[[1; 1; 1; 2; 1; 2; 1]%float]] 5
  = [[[1; 1; 1.2; 1.4; 1.4; 2; 1]%float]].
Proof. split; vm_compute; reflexivity. Qed.

(** ** The engine on the store *)

Module StoreLemmas.

Lemma wp_consequence {A} (m : Store.M A) h
  (P Q : result A -> Store.heap -> Prop) :
  Store.wp m h P -> (forall r h1, h ⊆ h1 -> P r h1 -> Q r h1) -> Store.wp m h Q.
Proof.
  intros (r & h1 & Hm & Hsub & HP) HPQ. exists r, h1. auto.
Qed.

Lemma wp_lift {A} (r : result A) h (Q : result A -> Store.heap -> Prop) :
  Q r h -> Store.wp (Store.lift r) h Q.
Proof. intros HQ. exists r, h. auto. Qed.

Lemma wp_bind {A B} (m : Store.M A) (k : A -> Store.M B) h
  (Q : result B -> Store.heap -> Prop) :
  Store.wp m h (fun r h1 =>
            match r with
            | Ok a => Store.wp (k a) h1 Q
            | Raise e => Q (Raise e) h1
            end) ->
  Store.wp (m ≫= k) h Q.
Proof.
  intros (r & h1 & Hm & Hsub & Hr).
  unfold Store.wp, mbind, Store.M_bind, Store.bind.
  rewrite Hm. destruct r as [a|e].
  - destruct Hr as (r2 & h2 & Hk & Hsub2 & HQ). exists r2, h2.
    split; [exact Hk|]. split; [now transitivity h1 | exact HQ].
  - exists (Raise e), h1. auto.
Qed.

Lemma wp_alloc v h (Q : result Store.loc -> Store.heap -> Prop) :
  (forall l h1, h ⊆ h1 -> h !! l = None -> h1 !! l = Some v -> Q (Ok l) h1) ->
  Store.wp (Store.alloc v) h Q.
Proof.
  intros H. unfold Store.alloc.
  assert (Hfresh : h !! fresh (dom h) = None)
    by apply not_elem_of_dom, is_fresh.
  exists (Ok (fresh (dom h))), (<[fresh (dom h) := v]> h).
  split; [reflexivity|]. split; [now apply insert_subseteq|].
  apply H; [now apply insert_subseteq | exact Hfresh | apply lookup_insert_eq].
Qed.

Lemma wp_read1 a xs h (Q : result Np.array1 -> Store.heap -> Prop) :
  h !! a = Some (Store.Arr1 xs) -> Q (Ok xs) h -> Store.wp (Store.read1 a) h Q.
Proof.
  intros Ha HQ. exists (Ok xs), h. unfold Store.read1. rewrite Ha. auto.
Qed.

Lemma wp_read2 a rows h (Q : result Np.array2 -> Store.heap -> Prop) :
  h !! a = Some (Store.Arr2 rows) -> Q (Ok rows) h ->
  Store.wp (Store.read2 a) h Q.
Proof.
  intros Ha HQ. exists (Ok rows), h. unfold Store.read2. rewrite Ha. auto.
Qed.

Lemma wp_zeros_like_rows a rows h (Q : result Store.loc -> Store.heap -> Prop) :
  h !! a = Some (Store.Arr2 rows) ->
  (forall l h1, h ⊆ h1 -> h !! l = None -> Q (Ok l) h1) ->
  Store.wp (Store.zeros_like_rows a) h Q.
Proof.
  intros Ha H. unfold Store.zeros_like_rows.
  apply wp_bind, (wp_read2 a rows); [exact Ha|].
  apply wp_alloc. intros l h1 Hsub Hl _. now apply H.
Qed.

Lemma wp_median_of_columns a rows lo hi h
  (Q : result Store.loc -> Store.heap -> Prop) :
  h !! a = Some (Store.Arr2 rows) ->
  (forall l h1, h ⊆ h1 -> h !! l = None ->
                h1 !! l = Some (Store.Arr1 (Np.median_of_columns rows lo hi)) ->
                Q (Ok l) h1) ->
  Store.wp (Store.median_of_columns a lo hi) h Q.
Proof.
  intros Ha H. unfold Store.median_of_columns.
  apply wp_bind, (wp_read2 a rows); [exact Ha|]. now apply wp_alloc.
Qed.

Lemma wp_scalar_mul c a xs h (Q : result Store.loc -> Store.heap -> Prop) :
  h !! a = Some (Store.Arr1 xs) ->
  (forall l h1, h ⊆ h1 -> h !! l = None ->
                h1 !! l = Some (Store.Arr1 (Np.scalar_mul c xs)) -> Q (Ok l) h1) ->
  Store.wp (Store.scalar_mul c a) h Q.
Proof.
  intros Ha H. unfold Store.scalar_mul.
  apply wp_bind, (wp_read1 a xs); [exact Ha|]. now apply wp_alloc.
Qed.

Lemma wp_add a b xs ys h (Q : result Store.loc -> Store.heap -> Prop) :
  h !! a = Some (Store.Arr1 xs) -> h !! b = Some (Store.Arr1 ys) ->
  match Np.add xs ys with
  | Ok r => forall l h1, h ⊆ h1 -> h !! l = None ->
                         h1 !! l = Some (Store.Arr1 r) -> Q (Ok l) h1
  | Raise e => Q (Raise e) h
  end ->
  Store.wp (Store.add a b) h Q.
Proof.
  intros Ha Hb H. unfold Store.add.
  apply wp_bind, (wp_read1 a xs); [exact Ha|].
  apply wp_bind, (wp_read1 b ys); [exact Hb|].
  apply wp_bind, wp_lift.
  destruct (Np.add xs ys) as [r|e]; [now apply wp_alloc | exact H].
Qed.

Lemma wp_divide a b xs ys h (Q : result Store.loc -> Store.heap -> Prop) :
  h !! a = Some (Store.Arr1 xs) -> h !! b = Some (Store.Arr1 ys) ->
  match Np.divide xs ys with
  | Ok r => forall l h1, h ⊆ h1 -> h !! l = None ->
                         h1 !! l = Some (Store.Arr1 r) -> Q (Ok l) h1
  | Raise e => Q (Raise e) h
  end ->
  Store.wp (Store.divide a b) h Q.
Proof.
  intros Ha Hb H. unfold Store.divide.
  apply wp_bind, (wp_read1 a xs); [exact Ha|].
  apply wp_bind, (wp_read1 b ys); [exact Hb|].
  apply wp_bind, wp_lift.
  destruct (Np.divide xs ys) as [r|e]; [now apply wp_alloc | exact H].
Qed.

Lemma returns_fresh_Raise h (pure : result Np.array1) e h' :
  pure = Raise e -> Store.returns_fresh h pure (Raise e) h'.
Proof. intros ->. reflexivity. Qed.

Lemma returns_fresh_Ok h h0 v l h' :
  h0 ⊆ h -> h !! l = None -> h' !! l = Some (Store.Arr1 v) ->
  Store.returns_fresh h0 (Ok v) (Ok l) h'.
Proof.
  intros Hsub Hl Hv. split; [|exact Hv].
  now apply (lookup_weaken_None h0 h).
Qed.

Lemma run_wavelength_weights h short center long :
  Store.wavelength_weights short center long h
  = Some (wavelength_weights short center long, h).
Proof. reflexivity. Qed.

Lemma run_interpolated h short_ref long_ref xs ys bd_wavelengths :
  h !! short_ref = Some (Store.Arr1 xs) -> h !! long_ref = Some (Store.Arr1 ys) ->
  Store.wp (Store.interpolated_center_wavelength_reflectance short_ref
        bd_wavelengths long_ref) h
     (Store.returns_fresh h
        (interpolated_center_wavelength_reflectance xs bd_wavelengths ys)).
Proof.
  intros Hs Hl. destruct bd_wavelengths as [[w0 w1] w2].
  unfold Store.interpolated_center_wavelength_reflectance,
    interpolated_center_wavelength_reflectance, Store.wavelength_weights.
  apply wp_bind, wp_lift.
  destruct (wavelength_weights w0 w1 w2) as [[a b]|e]; [|reflexivity].
  apply wp_bind, (wp_scalar_mul a short_ref xs); [exact Hs|].
  intros t1 h1 S1 F1 L1.
  apply wp_bind, (wp_scalar_mul b long_ref ys);
    [exact (lookup_weaken _ _ _ _ Hl S1)|].
  intros t2 h2 S2 F2 L2.
  apply (wp_add t1 t2 (Np.scalar_mul a xs) (Np.scalar_mul b ys));
    [exact (lookup_weaken _ _ _ _ L1 S2) | exact L2 |].
  change (Ok (a, b) ≫= _)
    with (Np.add (Np.scalar_mul a xs) (Np.scalar_mul b ys)).
  destruct (Np.add (Np.scalar_mul a xs) (Np.scalar_mul b ys)) as [r|e] eqn:E.
  - intros l h3 S3 F3 L3.
    apply (returns_fresh_Ok h2); trivial. now transitivity h1.
  - reflexivity.
Qed.

Lemma run_band_depth h spectra rows all_wavelengths bd_wavelengths kernel_sizes :
  h !! spectra = Some (Store.Arr2 rows) ->
  Store.wp (Store.band_depth_calculation spectra all_wavelengths bd_wavelengths
        kernel_sizes) h
     (Store.returns_fresh h
        (band_depth_calculation rows all_wavelengths bd_wavelengths
           kernel_sizes)).
Proof.
  intros Hsp. destruct bd_wavelengths as [[short center] long].
  destruct kernel_sizes as [[k0 k1] k2].
  unfold Store.band_depth_calculation, band_depth_calculation.
  apply wp_bind, (wp_zeros_like_rows spectra rows); [exact Hsp|].
  intros z1 h1 S1 _. pose proof (lookup_weaken _ _ _ _ Hsp S1) as Hsp1.
  apply wp_bind, (wp_zeros_like_rows spectra rows); [exact Hsp1|].
  intros z2 h2 S2 _. pose proof (lookup_weaken _ _ _ _ Hsp1 S2) as Hsp2.
  apply wp_bind, (wp_zeros_like_rows spectra rows); [exact Hsp2|].
  intros z3 h3 S3 _. pose proof (lookup_weaken _ _ _ _ Hsp2 S3) as Hsp3.
  assert (T3 : h ⊆ h3) by (transitivity h1; [|transitivity h2]; assumption).
  apply wp_bind, wp_lift.
  destruct (Py.tuple_index all_wavelengths short) as [i0|e]; [|reflexivity].
  apply wp_bind, (wp_median_of_columns spectra rows); [exact Hsp3|].
  intros short_ref h4 S4 _ L4. pose proof (lookup_weaken _ _ _ _ Hsp3 S4) as Hsp4.
  apply wp_bind, wp_lift.
  destruct (Py.tuple_index all_wavelengths center) as [i1|e]; [|reflexivity].
  apply wp_bind, (wp_median_of_columns spectra rows); [exact Hsp4|].
  intros center_ref h5 S5 _ L5. pose proof (lookup_weaken _ _ _ _ Hsp4 S5) as Hsp5.
  apply wp_bind, wp_lift.
  destruct (Py.tuple_index all_wavelengths long) as [i2|e]; [|reflexivity].
  apply wp_bind, (wp_median_of_columns spectra rows); [exact Hsp5|].
  intros long_ref h6 S6 _ L6.
  assert (T6 : h ⊆ h6)
    by (transitivity h3; [|transitivity h4; [|transitivity h5]]; assumption).
  apply wp_bind.
  eapply wp_consequence.
  { eapply run_interpolated; [|exact L6].
    apply (lookup_weaken _ _ _ _ L4). now transitivity h5. }
  intros r h7 S7 Hr. cbn [mbind result_bind rbind].
  destruct (interpolated_center_wavelength_reflectance _ _ _) as [ic|e] eqn:E;
    destruct r as [inter|e']; simpl in Hr; try contradiction.
  - destruct Hr as [F7 L7]. cbn [mbind result_bind rbind].
    apply (wp_divide center_ref inter
             (Np.median_of_columns rows (Z.of_nat i1 - Py.floordiv2 k1)
                (Z.of_nat i1 + Py.floordiv2 k1 + 1)) ic);
      [apply (lookup_weaken _ _ _ _ L5); now transitivity h6 | exact L7 |].
    destruct (Np.divide _ ic) as [r|e] eqn:Ed.
    + intros l h8 S8 F8 L8. apply (returns_fresh_Ok h7); trivial.
      now transitivity h6.
    + reflexivity.
  - subst e'. reflexivity.
Qed.

End StoreLemmas.

(** C8: the three operations leave every array they are handed as it was.
    [wavelength_weights] takes numbers and touches no array at all; started
    in any store in which its arguments are arrays,
    [interpolated_center_wavelength_reflectance] and [band_depth_calculation]
    terminate in a store that still holds every array of the initial store
    with its contents, and what they return is the value of the function in
    an array that did not exist before (or the exception it raises). *)
Theorem engine_leaves_inputs_unchanged :
  (forall h short center long,
      Store.wavelength_weights short center long h
      = Some (wavelength_weights short center long, h)) /\
  (forall h short_ref long_ref xs ys bd_wavelengths,
      h !! short_ref = Some (Store.Arr1 xs) ->
      h !! long_ref = Some (Store.Arr1 ys) ->
      exists r h',
        Store.interpolated_center_wavelength_reflectance short_ref
          bd_wavelengths long_ref h = Some (r, h') /\
        h ⊆ h' /\
        Store.returns_fresh h
          (interpolated_center_wavelength_reflectance xs bd_wavelengths ys)
          r h') /\
  (forall h spectra rows all_wavelengths bd_wavelengths kernel_sizes,
      h !! spectra = Some (Store.Arr2 rows) ->
      exists r h',
        Store.band_depth_calculation spectra all_wavelengths bd_wavelengths
          kernel_sizes h = Some (r, h') /\
        h ⊆ h' /\
        Store.returns_fresh h
          (band_depth_calculation rows all_wavelengths bd_wavelengths
             kernel_sizes)
          r h').
Proof.
  split; [|split].
  - exact StoreLemmas.run_wavelength_weights.
  - intros. now apply StoreLemmas.run_interpolated.
  - intros. now apply StoreLemmas.run_band_depth.
Qed.

Lemma engine_leaves_inputs_unchanged_witness :
  exists r h',
    Store.band_depth_calculation 1%positive [1; 2; 3]%float (1, 2, 3)%float
      (1, 1, 1)%Z {[ 1%positive := Store.Arr2 [[2; 1; 2]%float] ]}
    = Some (r, h') /\
    {[ 1%positive := Store.Arr2 [[2; 1; 2]%float] ]} ⊆ h' /\
    Store.returns_fresh {[ 1%positive := Store.Arr2 [[2; 1; 2]%float] ]}
      (Ok [0.5%float]) r h'.
Proof.
  destruct engine_leaves_inputs_unchanged as (_ & _ & H).
  exact (H {[ 1%positive := Store.Arr2 [[2; 1; 2]%float] ]} 1%positive
           [[2; 1; 2]%float] [1; 2; 3]%float (1, 2, 3)%float (1, 1, 1)%Z
           eq_refl).
Defined.

Lemma moving_filters_shape_and_edges_witness :
  Denoise.band_at
    (Denoise.moving_median_filter [[[1; 1; 1; 2; 1; 2; 1]%float]] 5) 0 0 5
  = Some 2%float /\
  Denoise.band_at
    (Denoise.moving_mean_filter [[[1; 1; 1; 2; 1; 2; 1]%float]] 5) 0 0 1
  = Some 1%float.
Proof.
  destruct (moving_filters_shape_and_edges [[[1; 1; 1; 2; 1; 2; 1]%float]] 5)
    as (_ & _ & H).
  split.
  - apply (H 0 0 5 [1; 1; 1; 2; 1; 2; 1]%float eq_refl)%nat.
    right. apply Nat.leb_le. reflexivity.
  - apply (H 0 0 1 [1; 1; 1; 2; 1; 2; 1]%float eq_refl)%nat.
    left. apply Nat.ltb_lt. reflexivity.
Defined.

(** * Further properties of [summary_parameters.py] *)

(** ** Wavelengths present in the grid *)

Lemma present_find_index t x :
  present t x <-> exists i, Py.find_index t x = Some i.
Proof.
  split; intros [i H]; exists i.
  - now apply first_match_find_index.
  - now apply find_index_Some.
Qed.

Lemma present_or_absent t x : present t x \/ absent t x.
Proof.
  destruct (Py.find_index t x) as [i|] eqn:E.
  - left. apply present_find_index. eauto.
  - right. now apply find_index_None.
Qed.

Lemma present_not_absent t x : present t x -> absent t x -> False.
Proof.
  intros Hp Ha. apply present_find_index in Hp. destruct Hp as [i Hi].
  apply find_index_None in Ha. congruence.
Qed.

Lemma tuple_index_present t x :
  present t x -> exists i, Py.tuple_index t x = Ok i /\ first_match t x i.
Proof. intros [i H]. exists i. split; [now apply tuple_index_Ok | exact H]. Qed.

Lemma tuple_index_absent t x :
  absent t x -> Py.tuple_index t x = Raise ValueError.
Proof. intros H. now apply tuple_index_Raise. Qed.

(** ** Every outcome of [band_depth_calculation] *)

Lemma sub_zero_finite (x y : float) :
  PrimFloat.eqb (PrimFloat.sub y x) 0%float = true ->
  PrimFloat.is_finite x = true.
Proof.
  rewrite FloatLemmas.is_zero_spec, FloatLemmas.is_finite_spec,
    FloatAxioms.sub_spec.
  destruct (Prim2SF y) as [[]|[]| |[] my ey], (Prim2SF x) as [[]|[]| |[] mx ex];
    simpl; trivial; discriminate.
Qed.

(** The difference [long - short] is a zero exactly when the two are equal
    and finite. *)
Lemma sub_zero_iff (x y : float) :
  PrimFloat.eqb (PrimFloat.sub y x) 0%float = true <->
  PrimFloat.is_finite x = true /\ PrimFloat.eqb x y = true.
Proof.
  split.
  - intros H. split; [now apply sub_zero_finite in H|].
    apply FloatLemmas.sub_zero_eq in H.
    rewrite FloatAxioms.eqb_spec in *. unfold SFeqb in *.
    rewrite (FloatLemmas.SFcompare_antisym (Prim2SF y) (Prim2SF x)).
    destruct (SFcompare (Prim2SF y) (Prim2SF x)) as [[]|]; trivial;
      discriminate.
  - intros [Hf He]. now apply FloatLemmas.sub_eq_zero.
Qed.

Lemma band_depth_equation spectra all_wavelengths short center long k0 k1 k2 :
  band_depth_calculation spectra all_wavelengths (short, center, long)
    (k0, k1, k2) =
  match Py.find_index all_wavelengths short,
        Py.find_index all_wavelengths center,
        Py.find_index all_wavelengths long with
  | Some i0, Some i1, Some i2 =>
      if PrimFloat.eqb (PrimFloat.sub long short) 0%float
      then Raise ZeroDivisionError
      else Ok (map (fun row =>
                      PrimFloat.div (extracted_reflectance row i1 k1)
                        (continuum (short, center, long)
                           (extracted_reflectance row i0 k0)
                           (extracted_reflectance row i2 k2)))
                   spectra)
  | _, _, _ => Raise ValueError
  end.
Proof.
  destruct (Py.find_index all_wavelengths short) as [i0|] eqn:E0.
  2:{ apply band_depth_absent. left. now apply find_index_None. }
  destruct (Py.find_index all_wavelengths center) as [i1|] eqn:E1.
  2:{ apply band_depth_absent. right. left. now apply find_index_None. }
  destruct (Py.find_index all_wavelengths long) as [i2|] eqn:E2.
  2:{ apply band_depth_absent. right. right. now apply find_index_None. }
  apply find_index_Some in E0, E1, E2.
  rewrite (band_depth_located _ _ _ _ _ _ _ _ i0 i1 i2) by assumption.
  pose proof (wavelength_weights_equation short center long) as Hw.
  destruct (PrimFloat.eqb (PrimFloat.sub long short) 0%float).
  - erewrite (interpolated_raises _ (short, center, long));
      [reflexivity|exact Hw].
  - destruct (weights_formula short center long) as [a b] eqn:Ef.
    erewrite (interpolated_equation _ (short, center, long));
      [|exact Hw|now rewrite !median_of_columns_length].
    cbn [mbind result_bind rbind]. unfold Np.divide.
    rewrite broadcast_same_length
      by (rewrite zip_with_length; now rewrite !median_of_columns_length).
    unfold Np.median_of_columns. rewrite !zip_with_map.
    unfold continuum. rewrite Ef. reflexivity.
Qed.

Lemma found_find_number t x :
  found t x <-> exists i, Py.find_number t x = Some i.
Proof.
  split; intros [i H]; exists i.
  - now apply first_found_find_number.
  - now apply find_number_Some.
Qed.

(** X1: the three outcomes of [band_depth_calculation], whatever the
    wavelengths are.  It raises [ValueError] exactly when one of the three
    requested wavelengths is not found in the grid (no element is the
    requested object or equals it), [ZeroDivisionError] exactly when the three
    are found and [long == short] with both finite, and returns an array in
    every other case. *)
Theorem band_depth_outcomes spectra all_wavelengths short center long
  kernel_sizes :
  let call :=
    Objects.band_depth_calculation spectra all_wavelengths
      (short, center, long) kernel_sizes in
  let all_found :=
    found all_wavelengths short /\ found all_wavelengths center /\
    found all_wavelengths long in
  (call = Raise ValueError <->
   not_found all_wavelengths short \/ not_found all_wavelengths center \/
   not_found all_wavelengths long) /\
  (call = Raise ZeroDivisionError <->
   all_found /\ PrimFloat.is_finite (Py.value short) = true /\
   PrimFloat.eqb (Py.value short) (Py.value long) = true) /\
  ((exists band_depth, call = Ok band_depth) <->
   all_found /\ ~ (PrimFloat.is_finite (Py.value short) = true /\
                   PrimFloat.eqb (Py.value short) (Py.value long) = true)).
Proof.
  destruct kernel_sizes as [[k0 k1] k2]. cbv zeta.
  rewrite objects_band_depth_equation, <- sub_zero_iff, !found_find_number,
    <- !find_number_None.
  destruct (Py.find_number all_wavelengths short) as [i0|],
    (Py.find_number all_wavelengths center) as [i1|],
    (Py.find_number all_wavelengths long) as [i2|],
    (PrimFloat.eqb (PrimFloat.sub (Py.value long) (Py.value short)) 0%float);
    repeat split;
    repeat match goal with
      | |- _ -> _ => intro
      | H : _ /\ _ |- _ => destruct H
      | H : _ \/ _ |- _ => destruct H
      | H : exists _, _ |- _ => destruct H
      | H : ~ _ |- _ => exfalso; apply H; reflexivity
      end;
    try discriminate; try congruence; eauto.
Qed.

(** ** NaN and sign through the arithmetic *)

Module NanLemmas.
Import FloatFacts.

Ltac by_cases x y :=
  rewrite ?FloatLemmas.is_nan_spec, ?FloatAxioms.add_spec,
    ?FloatAxioms.sub_spec, ?FloatAxioms.mul_spec, ?FloatAxioms.div_spec;
  destruct (Prim2SF x) as [[]|[]| |[] ? ?], (Prim2SF y) as [[]|[]| |[] ? ?];
  simpl; trivial; discriminate.

Lemma add_nan_l x y :
  PrimFloat.is_nan x = true -> PrimFloat.is_nan (PrimFloat.add x y) = true.
Proof. by_cases x y. Qed.

Lemma add_nan_r x y :
  PrimFloat.is_nan y = true -> PrimFloat.is_nan (PrimFloat.add x y) = true.
Proof. by_cases x y. Qed.

Lemma sub_nan_r x y :
  PrimFloat.is_nan y = true -> PrimFloat.is_nan (PrimFloat.sub x y) = true.
Proof. by_cases x y. Qed.

Lemma mul_nan_r x y :
  PrimFloat.is_nan y = true -> PrimFloat.is_nan (PrimFloat.mul x y) = true.
Proof. by_cases x y. Qed.

Lemma div_nan_l x y :
  PrimFloat.is_nan x = true -> PrimFloat.is_nan (PrimFloat.div x y) = true.
Proof. by_cases x y. Qed.

Lemma div_nan_r x y :
  PrimFloat.is_nan y = true -> PrimFloat.is_nan (PrimFloat.div x y) = true.
Proof. by_cases x y. Qed.

Lemma nan_not_negative x : PrimFloat.is_nan x = true -> not_negative x.
Proof.
  unfold not_negative.
  rewrite FloatLemmas.is_nan_spec, FloatLemmas.ltb_zero_spec.
  destruct (Prim2SF x); trivial; discriminate.
Qed.

Lemma nonneg_not_negative x : PrimFloat.leb 0 x = true -> not_negative x.
Proof.
  unfold not_negative.
  rewrite FloatLemmas.nonneg_spec, FloatLemmas.ltb_zero_spec.
  destruct (Prim2SF x) as [[]|[]| |[] ? ?]; trivial; discriminate.
Qed.

Lemma not_negative_cases x :
  not_negative x ->
  PrimFloat.is_nan x = true \/ PrimFloat.leb 0 x = true.
Proof.
  intros H. destruct (PrimFloat.is_nan x) eqn:E; [now left|right].
  now apply FloatLemmas.not_neg_nonneg.
Qed.

Lemma add_not_negative x y :
  not_negative x -> not_negative y -> not_negative (PrimFloat.add x y).
Proof.
  intros Hx Hy.
  destruct (not_negative_cases x Hx) as [Nx|Px].
  { now apply nan_not_negative, add_nan_l. }
  destruct (not_negative_cases y Hy) as [Ny|Py].
  { now apply nan_not_negative, add_nan_r. }
  now apply nonneg_not_negative, FloatLemmas.add_nonneg.
Qed.

End NanLemmas.

(** ** Clamped depths *)

Lemma clamp_negative_not_negative xs :
  Forall not_negative (Np.clamp_negative xs).
Proof.
  unfold Np.clamp_negative. induction xs as [|x xs IH]; simpl; constructor;
    [|exact IH].
  unfold not_negative.
  destruct (PrimFloat.ltb x 0) eqn:E; [reflexivity|exact E].
Qed.

Lemma add_not_negative_arrays xs ys n :
  length xs = n -> length ys = n ->
  Forall not_negative xs -> Forall not_negative ys ->
  exists r, Np.add xs ys = Ok r /\ length r = n /\ Forall not_negative r.
Proof.
  intros Hx Hy Nx Ny. unfold Np.add.
  rewrite broadcast_same_length by congruence.
  eexists. split; [reflexivity|]. split.
  - rewrite zip_with_length; congruence.
  - apply zip_with_Forall; trivial. apply NanLemmas.add_not_negative.
Qed.

Lemma band_depth_cases spectra wavelengths short center long kernel_sizes :
  PrimFloat.eqb (PrimFloat.sub long short) 0%float = false ->
  (exists r,
      band_depth_calculation spectra wavelengths (short, center, long)
        kernel_sizes = Ok r /\
      length r = length spectra /\
      present wavelengths short /\ present wavelengths center /\
      present wavelengths long) \/
  (band_depth_calculation spectra wavelengths (short, center, long)
     kernel_sizes = Raise ValueError /\
   (absent wavelengths short \/ absent wavelengths center \/
    absent wavelengths long)).
Proof.
  intros Hne. destruct kernel_sizes as [[k0 k1] k2].
  rewrite band_depth_equation.
  destruct (Py.find_index wavelengths short) as [i0|] eqn:E0;
    [|right; split; [reflexivity|left; now apply find_index_None]].
  destruct (Py.find_index wavelengths center) as [i1|] eqn:E1;
    [|right; split; [reflexivity|right; left; now apply find_index_None]].
  destruct (Py.find_index wavelengths long) as [i2|] eqn:E2;
    [|right; split; [reflexivity|right; right; now apply find_index_None]].
  left. rewrite Hne. eexists. split; [reflexivity|]. rewrite length_map.
  repeat split; trivial; apply present_find_index; eauto.
Qed.

Lemma clamped_depth_cases spectra wavelengths short center long kernel_sizes :
  PrimFloat.eqb (PrimFloat.sub long short) 0%float = false ->
  (exists r,
      clamped_depth spectra wavelengths ((short, center, long), kernel_sizes)
      = Ok r /\
      length r = length spectra /\ Forall not_negative r /\
      present wavelengths short /\ present wavelengths center /\
      present wavelengths long) \/
  (clamped_depth spectra wavelengths ((short, center, long), kernel_sizes)
   = Raise ValueError /\
   (absent wavelengths short \/ absent wavelengths center \/
    absent wavelengths long)).
Proof.
  intros Hne. unfold clamped_depth. cbn [fst snd].
  destruct (band_depth_cases spectra wavelengths short center long kernel_sizes
              Hne) as [(r & Hr & Hlen & Hp)|[Hr Ha]].
  - left. rewrite (bind_Ok _ _ _ Hr). eexists. split; [reflexivity|].
    split; [|split; [apply clamp_negative_not_negative|exact Hp]].
    unfold Np.clamp_negative, Np.scalar_rsub. now rewrite !length_map.
  - right. rewrite (bind_Raise _ _ _ Hr). auto.
Qed.

(** ** [hyd_femg_clay_index_calculation] on every input *)

Ltac absent_present :=
  repeat match goal with
    | H : _ \/ _ |- _ => destruct H
    | H : Exists _ (_ :: _) |- _ => apply Exists_cons in H
    | H : Exists _ [] |- _ => apply Exists_nil in H
    | H : False |- _ => destruct H
    end;
  match goal with
  | Ha : absent ?t ?x, Hp : present ?t ?x |- _ =>
      destruct (present_not_absent t x Hp Ha)
  end.

Lemma hyd_femg_cases spectra wavelengths :
  (exists index,
      hyd_femg_clay_index_calculation spectra wavelengths = Ok index /\
      length index = length spectra /\ Forall not_negative index /\
      Forall (present wavelengths) hyd_femg_wavelengths) \/
  (hyd_femg_clay_index_calculation spectra wavelengths = Raise ValueError /\
   Exists (absent wavelengths) hyd_femg_wavelengths).
Proof.
  unfold hyd_femg_clay_index_calculation, hyd_femg_wavelengths.
  repeat match goal with
    | |- context [clamped_depth ?sp ?wl ((?s, ?c, ?l), ?ks) ≫= _] =>
        destruct (clamped_depth_cases sp wl s c l ks eq_refl)
          as [(? & Hr & ? & ? & ? & ? & ?)|[Hr Ha]];
        [ rewrite (bind_Ok _ _ _ Hr); clear Hr
        | rewrite (bind_Raise _ _ _ Hr); right; split; [reflexivity|];
          clear - Ha;
          repeat match goal with H : _ \/ _ |- _ => destruct H end;
          repeat (first [ apply Exists_cons_hd; assumption
                        | apply Exists_cons_tl ]) ]
    end.
  left.
  repeat match goal with
    | |- exists index, (Np.add ?xs ?ys ≫= _) = Ok index /\ _ =>
        let r := fresh "s" in
        let Hr := fresh "Hr" in
        destruct (add_not_negative_arrays xs ys (length spectra))
          as (r & Hr & ? & ?); trivial;
        rewrite (bind_Ok _ _ _ Hr); clear Hr
    end.
  match goal with
  | |- exists index, Np.add ?xs ?ys = Ok index /\ _ =>
      destruct (add_not_negative_arrays xs ys (length spectra))
        as (r & Hr & ? & ?); trivial
  end.
  exists r. repeat split; trivial.
  repeat (constructor; [assumption|]). constructor.
Qed.

Lemma all_present_none_absent t ws :
  Forall (present t) ws -> Exists (absent t) ws -> False.
Proof.
  intros Hp Ha. induction Ha as [w ws Ha|w ws Ha IH].
  - apply Forall_cons_1 in Hp. destruct Hp as [Hp _].
    exact (present_not_absent t w Hp Ha).
  - apply Forall_cons_1 in Hp. destruct Hp as [_ Hp]. auto.
Qed.

(** X2: [hyd_femg_clay_index_calculation] returns an index exactly when each
    of the fourteen wavelengths of its seven band depths is in the grid, and
    raises [ValueError] exactly when one of them is missing; no input makes
    it raise [ZeroDivisionError]. *)
Theorem hyd_femg_needs_its_wavelengths spectra wavelengths :
  ((exists index,
       hyd_femg_clay_index_calculation spectra wavelengths = Ok index) <->
   Forall (present wavelengths) hyd_femg_wavelengths) /\
  (hyd_femg_clay_index_calculation spectra wavelengths = Raise ValueError <->
   Exists (absent wavelengths) hyd_femg_wavelengths) /\
  hyd_femg_clay_index_calculation spectra wavelengths
  <> Raise ZeroDivisionError.
Proof.
  destruct (hyd_femg_cases spectra wavelengths)
    as [(index & H & _ & _ & Hp)|[H Ha]]; rewrite H.
  - repeat split; try discriminate; eauto.
    intros Ha. destruct (all_present_none_absent _ _ Hp Ha).
  - repeat split; try discriminate; trivial.
    + intros [index Hi]. discriminate.
    + intros Hp. destruct (all_present_none_absent _ _ Hp Ha).
Qed.

(** X3: whatever the spectra hold (NaN and infinities included), an index
    that [hyd_femg_clay_index_calculation] returns has one element per
    spectrum and no element below zero: each is NaN or [>= 0]. *)
Theorem hyd_femg_never_negative spectra wavelengths index :
  hyd_femg_clay_index_calculation spectra wavelengths = Ok index ->
  length index = length spectra /\ Forall not_negative index.
Proof.
  destruct (hyd_femg_cases spectra wavelengths)
    as [(index' & H & Hlen & Hnn & _)|[H _]]; rewrite H; [|discriminate].
  intros E. injection E as <-. auto.
Qed.

Lemma hyd_femg_never_negative_witness :
  exists index,
    hyd_femg_clay_index_calculation sample_spectra sample_wavelengths = Ok index
    /\ length index = length sample_spectra /\ Forall not_negative index.
Proof.
  eexists. split; [vm_compute; reflexivity|].
  apply (hyd_femg_never_negative sample_spectra sample_wavelengths).
  vm_compute. reflexivity.
Defined.

(** ** [d2300_calculation] and [bd1750_calculation] *)

Lemma broadcast_lengths f xs ys n :
  length xs = n -> length ys = n ->
  exists r, Np.broadcast f xs ys = Ok r /\ length r = n.
Proof.
  intros Hx Hy. rewrite broadcast_same_length by congruence.
  eexists. split; [reflexivity|]. rewrite zip_with_length; congruence.
Qed.

Lemma d2300_cases spectra wavelengths :
  (exists d2300,
      d2300_calculation spectra wavelengths = Ok d2300 /\
      length d2300 = length spectra /\
      Forall (present wavelengths) d2300_wavelengths) \/
  (d2300_calculation spectra wavelengths = Raise ValueError /\
   Exists (absent wavelengths) d2300_wavelengths).
Proof.
  unfold d2300_calculation, d2300_wavelengths.
  repeat match goal with
    | |- context [band_depth_calculation ?sp ?wl (?s, ?c, ?l) ?ks ≫= _] =>
        destruct (band_depth_cases sp wl s c l ks eq_refl)
          as [(? & Hr & ? & ? & ? & ?)|[Hr Ha]];
        [ rewrite (bind_Ok _ _ _ Hr); clear Hr
        | rewrite (bind_Raise _ _ _ Hr); right; split; [reflexivity|];
          clear - Ha;
          repeat match goal with H : _ \/ _ |- _ => destruct H end;
          repeat (first [ apply Exists_cons_hd; assumption
                        | apply Exists_cons_tl ]) ]
    end.
  left. unfold Np.add, Np.divide.
  repeat match goal with
    | |- context [Np.broadcast ?f ?xs ?ys ≫= _] =>
        let r := fresh "s" in
        let Hr := fresh "Hr" in
        destruct (broadcast_lengths f xs ys (length spectra))
          as (r & Hr & ?); trivial;
        rewrite (bind_Ok _ _ _ Hr); clear Hr
    end.
  eexists. split; [reflexivity|]. split.
  - unfold Np.scalar_rsub. now rewrite length_map.
  - repeat (constructor; [assumption|]). constructor.
Qed.

(** X4: [d2300_calculation] returns an array, of one element per spectrum,
    exactly when each of the eight wavelengths of its six band depths is in
    the grid, and raises [ValueError] exactly when one of them is missing; a
    zero denominator never makes it raise. *)
Theorem d2300_needs_its_wavelengths spectra wavelengths :
  ((exists d2300,
       d2300_calculation spectra wavelengths = Ok d2300 /\
       length d2300 = length spectra) <->
   Forall (present wavelengths) d2300_wavelengths) /\
  (d2300_calculation spectra wavelengths = Raise ValueError <->
   Exists (absent wavelengths) d2300_wavelengths) /\
  d2300_calculation spectra wavelengths <> Raise ZeroDivisionError.
Proof.
  destruct (d2300_cases spectra wavelengths)
    as [(r & H & Hlen & Hp)|[H Ha]]; rewrite H.
  - repeat split; try discriminate; eauto.
    intros Ha. destruct (all_present_none_absent _ _ Hp Ha).
  - repeat split; try discriminate; trivial.
    + intros (r & Hr & _). discriminate.
    + intros Hp. destruct (all_present_none_absent _ _ Hp Ha).
Qed.

(** X5: [bd1750_calculation] returns an array exactly when its three
    wavelengths are in the grid and raises [ValueError] when one is missing;
    whatever the spectra hold, the array it returns has one element per
    spectrum and no element below zero (each is NaN or [>= 0]). *)
Theorem bd1750_outcomes spectra wavelengths :
  ((exists bd1750, bd1750_calculation spectra wavelengths = Ok bd1750) <->
   Forall (present wavelengths) bd1750_wavelengths) /\
  (bd1750_calculation spectra wavelengths = Raise ValueError <->
   Exists (absent wavelengths) bd1750_wavelengths) /\
  (forall bd1750,
      bd1750_calculation spectra wavelengths = Ok bd1750 ->
      length bd1750 = length spectra /\ Forall not_negative bd1750).
Proof.
  unfold bd1750_calculation, bd1750_wavelengths.
  destruct (clamped_depth_cases spectra wavelengths 1.55264 1.75009 1.81598
              (1, 1, 1)%Z eq_refl)
    as [(r & H & Hlen & Hnn & H0 & H1 & H2)|[H Ha]]; rewrite H.
  - assert (Hp : Forall (present wavelengths) [1.55264; 1.75009; 1.81598]%float)
      by (repeat (constructor; [assumption|]); constructor).
    split; [split; eauto|]. split; [split; [discriminate|]|].
    + intros Ha. destruct (all_present_none_absent _ _ Hp Ha).
    + intros bd E. injection E as <-. auto.
  - assert (Hex : Exists (absent wavelengths)
                    [1.55264; 1.75009; 1.81598]%float).
    { destruct Ha as [Ha|[Ha|Ha]];
        repeat (first [ apply Exists_cons_hd; assumption
                      | apply Exists_cons_tl ]). }
    split; [split|split; [split; trivial|discriminate]].
    + intros [r Hr]. discriminate.
    + intros Hp. destruct (all_present_none_absent _ _ Hp Hex).
Qed.

(** ** One spectrum at a time *)

Lemma maps_spectra_by_spectrum f : maps_spectra f -> spectrum_by_spectrum f.
Proof.
  intros [[g Hg]|[e He]] spectra.
  - rewrite Hg. induction spectra as [|row spectra IH]; simpl; constructor.
    + apply Hg.
    + exact IH.
  - rewrite He. exact He.
Qed.

Lemma broadcast_map {A} f (g h : A -> float) (l : list A) :
  Np.broadcast f (map g l) (map h l) = Ok (map (fun x => f (g x) (h x)) l).
Proof.
  rewrite broadcast_same_length by now rewrite !length_map.
  now rewrite zip_with_map.
Qed.

Lemma band_depth_maps_spectra wavelengths bd_wavelengths kernel_sizes :
  maps_spectra (fun spectra =>
    band_depth_calculation spectra wavelengths bd_wavelengths kernel_sizes).
Proof.
  destruct bd_wavelengths as [[short center] long].
  destruct kernel_sizes as [[k0 k1] k2]. unfold maps_spectra.
  setoid_rewrite band_depth_equation.
  destruct (Py.find_index wavelengths short) as [i0|]; [|right; eauto].
  destruct (Py.find_index wavelengths center) as [i1|]; [|right; eauto].
  destruct (Py.find_index wavelengths long) as [i2|]; [|right; eauto].
  destruct (PrimFloat.eqb (PrimFloat.sub long short) 0); [right; eauto|].
  left. eexists. intros spectra. reflexivity.
Qed.

Lemma clamped_depth_maps_spectra wavelengths term :
  maps_spectra (fun spectra => clamped_depth spectra wavelengths term).
Proof.
  unfold clamped_depth.
  destruct (band_depth_maps_spectra wavelengths term.1 term.2)
    as [[g Hg]|[e He]].
  - left. exists (fun row => let y := PrimFloat.sub 1 (g row) in
                             if PrimFloat.ltb y 0 then 0%float else y).
    intros spectra. rewrite Hg. cbn [mbind result_bind rbind].
    unfold Np.clamp_negative, Np.scalar_rsub. now rewrite !map_map.
  - right. exists e. intros spectra. now rewrite He.
Qed.

Lemma maps_spectra_bind (f : Np.array2 -> result Np.array1)
  (k : Np.array2 -> Np.array1 -> result Np.array1) :
  maps_spectra f ->
  (forall g, maps_spectra (fun spectra => k spectra (map g spectra))) ->
  maps_spectra (fun spectra => f spectra ≫= k spectra).
Proof.
  intros [[g Hg]|[e He]] Hk.
  - destruct (Hk g) as [[g' Hg']|[e He]].
    + left. exists g'. intros spectra. rewrite Hg. apply Hg'.
    + right. exists e. intros spectra. rewrite Hg. apply He.
  - right. exists e. intros spectra. now rewrite He.
Qed.

Lemma maps_spectra_broadcast f (g h : list float -> float)
  (k : Np.array2 -> Np.array1 -> result Np.array1) :
  maps_spectra
    (fun spectra => k spectra (map (fun row => f (g row) (h row)) spectra)) ->
  maps_spectra
    (fun spectra =>
       Np.broadcast f (map g spectra) (map h spectra) ≫= k spectra).
Proof.
  intros [[g' Hg']|[e He]]; [left; exists g'|right; exists e];
    intros spectra; rewrite broadcast_map; cbn [mbind result_bind rbind];
    [apply Hg'|apply He].
Qed.

Lemma maps_spectra_broadcast_last f (g h : list float -> float) :
  maps_spectra
    (fun spectra => Np.broadcast f (map g spectra) (map h spectra)).
Proof. left. eexists. intros spectra. apply broadcast_map. Qed.

Lemma hyd_femg_maps_spectra wavelengths :
  maps_spectra (fun spectra =>
    hyd_femg_clay_index_calculation spectra wavelengths).
Proof.
  unfold hyd_femg_clay_index_calculation.
  do 7 (apply maps_spectra_bind;
        [apply clamped_depth_maps_spectra | intros ?]).
  unfold Np.add.
  do 5 apply maps_spectra_broadcast.
  apply maps_spectra_broadcast_last.
Qed.

Lemma d2300_maps_spectra wavelengths :
  maps_spectra (fun spectra => d2300_calculation spectra wavelengths).
Proof.
  unfold d2300_calculation.
  do 6 (apply maps_spectra_bind;
        [apply band_depth_maps_spectra | intros ?]).
  unfold Np.add, Np.divide.
  do 5 apply maps_spectra_broadcast.
  left. eexists. intros spectra. unfold Np.scalar_rsub.
  rewrite map_map. reflexivity.
Qed.

(** X6: the engine and the summary parameters built on it work spectrum by
    spectrum.  The value returned for a spectrum is the value returned on
    that spectrum alone, so that no spectrum influences another; and an
    exception depends on the wavelengths only, never on the spectra. *)
Theorem summary_parameters_spectrum_by_spectrum wavelengths :
  (forall bd_wavelengths kernel_sizes,
      spectrum_by_spectrum (fun spectra =>
        band_depth_calculation spectra wavelengths bd_wavelengths kernel_sizes))
  /\ spectrum_by_spectrum (fun spectra =>
       hyd_femg_clay_index_calculation spectra wavelengths)
  /\ spectrum_by_spectrum (fun spectra =>
       d2300_calculation spectra wavelengths)
  /\ spectrum_by_spectrum (fun spectra =>
       bd1750_calculation spectra wavelengths).
Proof.
  repeat split; intros; apply maps_spectra_by_spectrum.
  - apply band_depth_maps_spectra.
  - apply hyd_femg_maps_spectra.
  - apply d2300_maps_spectra.
  - apply clamped_depth_maps_spectra.
Qed.

(** ** NaN goes through *)

Lemma slice_lookup (row : list float) lo hi j x :
  (0 <= lo <= Z.of_nat j)%Z -> (Z.of_nat j < hi)%Z ->
  nth_error row j = Some x -> In x (Py.slice row lo hi).
Proof.
  intros Hlo Hhi Hx.
  assert (Hj : (j < length row)%nat)
    by (apply nth_error_Some; congruence).
  unfold Py.slice, Py.adjust_index.
  destruct (Z.ltb_spec lo 0); [lia|]. destruct (Z.ltb_spec hi 0); [lia|].
  rewrite (Z.min_l lo) by lia.
  apply (nth_error_In _ (j - Z.to_nat lo)).
  rewrite nth_error_firstn.
  destruct (Nat.ltb_spec (j - Z.to_nat lo)
              (Z.to_nat (Z.min hi (Z.of_nat (length row)) - lo))); [|lia].
  rewrite nth_error_skipn. rewrite <- Hx. f_equal. lia.
Qed.

Lemma median_nan l x :
  In x l -> PrimFloat.is_nan x = true -> Np.median l = nan.
Proof.
  intros Hin Hx. unfold Np.median.
  replace (Np.any_nan l) with true; [reflexivity|].
  symmetry. apply existsb_exists. eauto.
Qed.

Lemma extracted_nan row pos k j x :
  in_window pos k j -> nth_error row j = Some x ->
  PrimFloat.is_nan x = true ->
  extracted_reflectance row pos k = nan.
Proof.
  intros [H1 H2] Hx Hnan. unfold extracted_reflectance, Py.floordiv2.
  apply (median_nan _ x); [|exact Hnan].
  apply (slice_lookup _ _ _ j); trivial; lia.
Qed.

(** X7: a NaN band inside one of the three kernel windows of a spectrum
    makes the band depth of that spectrum NaN, whatever the other bands
    hold. *)
Theorem band_depth_nan_band
  (spectra : Np.array2) (all_wavelengths : list float)
  (short center long : float) (k0 k1 k2 : Z) (i0 i1 i2 : nat)
  (band_depth : Np.array1) (n j : nat) (row : list float) (x : float) :
  band_depth_calculation spectra all_wavelengths (short, center, long)
    (k0, k1, k2) = Ok band_depth ->
  first_match all_wavelengths short i0 ->
  first_match all_wavelengths center i1 ->
  first_match all_wavelengths long i2 ->
  nth_error spectra n = Some row ->
  nth_error row j = Some x -> PrimFloat.is_nan x = true ->
  in_window i0 k0 j \/ in_window i1 k1 j \/ in_window i2 k2 j ->
  nan_at n band_depth.
Proof.
  intros Hbd H0 H1 H2 Hrow Hx Hnan Hwin.
  rewrite band_depth_equation in Hbd.
  rewrite (first_match_find_index _ _ _ H0), (first_match_find_index _ _ _ H1),
    (first_match_find_index _ _ _ H2) in Hbd.
  destruct (PrimFloat.eqb (PrimFloat.sub long short) 0); [discriminate|].
  injection Hbd as <-. unfold nan_at.
  rewrite nth_error_map, Hrow. cbn [option_map]. eexists.
  split; [reflexivity|].
  destruct Hwin as [Hw|[Hw|Hw]];
    rewrite (extracted_nan _ _ _ _ _ Hw Hx Hnan).
  - apply NanLemmas.div_nan_r, NanLemmas.add_nan_l, NanLemmas.mul_nan_r.
    reflexivity.
  - now apply NanLemmas.div_nan_l.
  - apply NanLemmas.div_nan_r, NanLemmas.add_nan_r, NanLemmas.mul_nan_r.
    reflexivity.
Qed.

Lemma band_depth_nan_band_witness :
  band_depth_calculation [[2; nan; 2]]%float [1; 2; 3]%float (1, 2, 3)%float
    (1, 1, 1)%Z = Ok [nan] /\
  nan_at 0 [nan].
Proof.
  split; [vm_compute; reflexivity|].
  apply (band_depth_nan_band [[2; nan; 2]]%float [1; 2; 3]%float 1 2 3
           1 1 1 0 1 2 [nan] 0 1 [2; nan; 2]%float nan).
  - vm_compute. reflexivity.
  - split; [exists 1%float; split; reflexivity|intros j y Hj; lia].
  - split; [exists 2%float; split; reflexivity|].
    intros [|[|j]] y Hj Hy; try lia. injection Hy as <-. reflexivity.
  - split; [exists 3%float; split; reflexivity|].
    intros [|[|[|j]]] y Hj Hy; try lia; injection Hy as <-; reflexivity.
  - reflexivity.
  - reflexivity.
  - reflexivity.
  - right. left. unfold in_window. repeat split; apply Z.leb_le; reflexivity.
Defined.

Lemma nan_at_clamped n bd :
  nan_at n bd -> nan_at n (Np.clamp_negative (Np.scalar_rsub 1 bd)).
Proof.
  intros (x & Hx & Hnan). unfold nan_at, Np.clamp_negative, Np.scalar_rsub.
  rewrite !nth_error_map, Hx. cbn [option_map]. eexists.
  split; [reflexivity|].
  pose proof (NanLemmas.sub_nan_r 1 x Hnan) as H1.
  rewrite (NanLemmas.nan_not_negative _ H1). exact H1.
Qed.

Lemma nan_at_zip_l n xs ys m :
  length xs = m -> length ys = m -> nan_at n xs ->
  nan_at n (Np.zip_with PrimFloat.add xs ys).
Proof.
  intros Hx Hy. subst m. revert ys n Hy.
  induction xs as [|x xs IH]; intros [|y ys] n Hy (v & Hv & Hnan);
    try discriminate; try (destruct n; discriminate).
  destruct n as [|n]; simpl in *.
  - injection Hv as ->. eexists. split; [reflexivity|].
    now apply NanLemmas.add_nan_l.
  - apply IH; [congruence|]. exists v. auto.
Qed.

Lemma nan_at_zip_r n xs ys m :
  length xs = m -> length ys = m -> nan_at n ys ->
  nan_at n (Np.zip_with PrimFloat.add xs ys).
Proof.
  intros Hx Hy. subst m. revert ys n Hy.
  induction xs as [|x xs IH]; intros [|y ys] n Hy (v & Hv & Hnan);
    try discriminate; try (destruct n; discriminate).
  destruct n as [|n]; simpl in *.
  - injection Hv as ->. eexists. split; [reflexivity|].
    now apply NanLemmas.add_nan_r.
  - apply IH; [congruence|]. exists v. auto.
Qed.

Lemma zip_with_length_n {A B C} (f : A -> B -> C) xs ys n :
  length xs = n -> length ys = n -> length (Np.zip_with f xs ys) = n.
Proof. intros Hx Hy. rewrite zip_with_length; congruence. Qed.

Lemma clamped_length bd n :
  length bd = n -> length (Np.clamp_negative (Np.scalar_rsub 1 bd)) = n.
Proof.
  intros H. unfold Np.clamp_negative, Np.scalar_rsub. now rewrite !length_map.
Qed.

Ltac lengths :=
  repeat first [ assumption | apply zip_with_length_n | apply clamped_length ].

Ltac nan_chain m :=
  first [ assumption
        | apply nan_at_clamped; assumption
        | apply (nan_at_zip_r _ _ _ m); [lengths | lengths | nan_chain m]
        | apply (nan_at_zip_l _ _ _ m); [lengths | lengths | nan_chain m] ].

(** X8: the clamp at zero does not remove NaN.  When one of the seven band
    depths of [hyd_femg_clay_index_calculation] is NaN for a spectrum, the
    index of that spectrum is NaN, and so is the value of
    [bd1750_calculation] when its band depth is. *)
Theorem clamped_parameters_keep_nan
  (spectra : Np.array2) (wavelengths : list float) (n : nat) :
  (forall index term bd,
      hyd_femg_clay_index_calculation spectra wavelengths = Ok index ->
      In term hyd_femg_terms ->
      band_depth_calculation spectra wavelengths term.1 term.2 = Ok bd ->
      nan_at n bd -> nan_at n index) /\
  (forall bd1750 bd,
      bd1750_calculation spectra wavelengths = Ok bd1750 ->
      band_depth_calculation spectra wavelengths
        (1.55264, 1.75009, 1.81598)%float (1, 1, 1)%Z = Ok bd ->
      nan_at n bd -> nan_at n bd1750).
Proof.
  split.
  - intros index term bd H Hin Hbd Hnan.
    unfold hyd_femg_clay_index_calculation, clamped_depth in H.
    cbn [fst snd] in H.
    repeat match type of H with
      | context [band_depth_calculation ?sp ?wl ?t ?ks ≫= _] =>
          let b := fresh "b" in
          let Hb := fresh "Hb" in
          let Hl := fresh "Hl" in
          destruct (band_depth_calculation sp wl t ks) as [b|] eqn:Hb;
          [ pose proof (band_depth_length _ _ _ _ _ Hb) as Hl
          | discriminate H ];
          cbn [mbind result_bind rbind] in H
      end.
    unfold Np.add in H.
    repeat (rewrite broadcast_same_length in H
              by (transitivity (length spectra); [lengths|symmetry; lengths]);
            cbn [mbind result_bind rbind] in H).
    injection H as <-.
    unfold hyd_femg_terms in Hin. simpl in Hin.
    repeat match type of Hin with
      | _ \/ _ => destruct Hin as [Hin|Hin]
      end;
      try contradiction;
      subst term; cbn [fst snd] in Hbd;
      match type of Hbd with
      | ?c = Ok bd =>
          match goal with
          | Hb : c = Ok ?b |- _ =>
              assert (b = bd) by congruence; subst b
          end
      end;
      nan_chain (length spectra).
  - intros bd1750 bd H Hbd Hnan.
    unfold bd1750_calculation, clamped_depth in H. cbn [fst snd] in H.
    rewrite Hbd in H. injection H as <-. now apply nan_at_clamped.
Qed.

(** ** [alt_bd175_calculation] *)

Lemma broadcast_repeat_map {A} f (c : float) (g : A -> float) (l : list A) :
  Np.broadcast f (repeat c (length l)) (map g l)
  = Ok (map (fun x => f c (g x)) l).
Proof.
  rewrite broadcast_same_length by now rewrite repeat_length, length_map.
  f_equal. induction l as [|x l IH]; simpl; [reflexivity|now rewrite IH].
Qed.

Lemma alt_bd175_equation (spectra : Np.matrix) (wavelengths : list float) :
  alt_bd175_calculation spectra wavelengths =
  match Py.find_index wavelengths 1.75009, Py.find_index wavelengths 1.75668,
        Py.find_index wavelengths 1.77644, Py.find_index wavelengths 1.69082
  with
  | Some c1, Some c2, Some l, Some s =>
      if (c1 <? Np.bands spectra)%nat && (c2 <? Np.bands spectra)%nat
         && (s <? Np.bands spectra)%nat && (l <? Np.bands spectra)%nat
      then Returns
             (map (fun row =>
                     PrimFloat.sub 1
                       (PrimFloat.div
                          (PrimFloat.add (nth c1 row 0) (nth c2 row 0))
                          (PrimFloat.add (nth s row 0) (nth l row 0))))
                (Np.rows spectra))
      else RaisesIndexError
  | _, _, _, _ => Raises ValueError
  end%float.
Proof.
  unfold alt_bd175_calculation, Py.tuple_index.
  destruct (Py.find_index wavelengths 1.75009) as [c1|]; [|reflexivity].
  destruct (Py.find_index wavelengths 1.75668) as [c2|]; [|reflexivity].
  destruct (Py.find_index wavelengths 1.77644) as [l|]; [|reflexivity].
  destruct (Py.find_index wavelengths 1.69082) as [s|]; [|reflexivity].
  cbn [mbind indexed_bind ibind of_result]. unfold Np.column.
  destruct (c1 <? Np.bands spectra)%nat; [|reflexivity].
  destruct (c2 <? Np.bands spectra)%nat; [|reflexivity].
  cbn [mbind indexed_bind ibind of_column andb].
  unfold Np.add. rewrite broadcast_map.
  cbn [mbind indexed_bind ibind of_result].
  destruct (s <? Np.bands spectra)%nat; [|reflexivity].
  destruct (l <? Np.bands spectra)%nat; [|reflexivity].
  cbn [mbind indexed_bind ibind of_column andb].
  rewrite broadcast_map. cbn [mbind indexed_bind ibind of_result].
  unfold Np.divide. rewrite broadcast_map.
  cbn [mbind indexed_bind ibind of_result].
  unfold Np.subtract, Np.ones.
  rewrite broadcast_repeat_map. reflexivity.
Qed.

Lemma absent_spec t x : absent t x <-> Py.find_index t x = None.
Proof. symmetry. apply find_index_None. Qed.

Lemma present_spec t x :
  present t x <->
  match Py.find_index t x with Some _ => True | None => False end.
Proof.
  rewrite present_find_index.
  destruct (Py.find_index t x); split; eauto; intros []; discriminate.
Qed.

Lemma in_bands_spec t b x :
  in_bands t b x <->
  match Py.find_index t x with
  | Some i => (i <? b)%nat = true
  | None => False
  end.
Proof.
  unfold in_bands. split.
  - intros (i & Hi & Hlt). rewrite (first_match_find_index _ _ _ Hi).
    now apply Nat.ltb_lt.
  - destruct (Py.find_index t x) as [i|] eqn:E; [|tauto].
    intros Hlt. exists i. split; [now apply find_index_Some|].
    now apply Nat.ltb_lt.
Qed.

Lemma past_bands_spec t b x :
  past_bands t b x <->
  match Py.find_index t x with
  | Some i => (i <? b)%nat = false
  | None => False
  end.
Proof.
  unfold past_bands. split.
  - intros (i & Hi & Hlt). rewrite (first_match_find_index _ _ _ Hi).
    now apply Nat.ltb_ge.
  - destruct (Py.find_index t x) as [i|] eqn:E; [|tauto].
    intros Hlt. exists i. split; [now apply find_index_Some|].
    now apply Nat.ltb_ge.
Qed.

(** X9: the outcomes of [alt_bd175_calculation].  It raises [ValueError]
    exactly when one of its four wavelengths is not in the grid; otherwise
    [IndexError] exactly when one of them is found at a position for which
    the array has no band; and it returns in every other case.  A zero
    denominator never makes it raise. *)
Theorem alt_bd175_outcomes (spectra : Np.matrix) (wavelengths : list float) :
  (alt_bd175_calculation spectra wavelengths = Raises ValueError <->
   Exists (absent wavelengths) alt_bd175_wavelengths) /\
  (alt_bd175_calculation spectra wavelengths = RaisesIndexError <->
   Forall (present wavelengths) alt_bd175_wavelengths /\
   Exists (past_bands wavelengths (Np.bands spectra)) alt_bd175_wavelengths) /\
  ((exists bd175, alt_bd175_calculation spectra wavelengths = Returns bd175)
   <-> Forall (in_bands wavelengths (Np.bands spectra)) alt_bd175_wavelengths)
  /\ alt_bd175_calculation spectra wavelengths <> Raises ZeroDivisionError.
Proof.
  rewrite alt_bd175_equation. unfold alt_bd175_wavelengths.
  rewrite !Forall_cons, !Exists_cons, !Forall_nil, !Exists_nil,
    !absent_spec, !present_spec, !in_bands_spec, !past_bands_spec.
  destruct (Py.find_index wavelengths 1.75009) as [c1|],
    (Py.find_index wavelengths 1.75668) as [c2|],
    (Py.find_index wavelengths 1.77644) as [l|],
    (Py.find_index wavelengths 1.69082) as [s|];
    try destruct (c1 <? Np.bands spectra)%nat;
    try destruct (c2 <? Np.bands spectra)%nat;
    try destruct (s <? Np.bands spectra)%nat;
    try destruct (l <? Np.bands spectra)%nat;
    cbn [andb];
    (split; [|split; [|split]]);
    try discriminate;
    (split; [intros H|intros H]);
    try discriminate H; try reflexivity; try tauto;
    try (eexists; reflexivity);
    exfalso;
    repeat match goal with
      | H : _ /\ _ |- _ => destruct H
      | H : _ \/ _ |- _ => destruct H
      | H : exists _, _ |- _ => destruct H
      | H : False |- _ => destruct H
      end;
    discriminate.
Qed.

(** X10: when its four wavelengths are found at positions the array has
    bands for, [alt_bd175_calculation] returns one value per spectrum, the
    value [1 - (R(1.75009) + R(1.75668)) / (R(1.69082) + R(1.77644))] of the
    reflectances [R] of that spectrum at the four wavelengths; it is not
    clamped at zero. *)
Theorem alt_bd175_formula (spectra : Np.matrix) (wavelengths : list float)
  (c1 c2 l s : nat) :
  first_match wavelengths 1.75009 c1 -> first_match wavelengths 1.75668 c2 ->
  first_match wavelengths 1.77644 l -> first_match wavelengths 1.69082 s ->
  (c1 < Np.bands spectra)%nat -> (c2 < Np.bands spectra)%nat ->
  (l < Np.bands spectra)%nat -> (s < Np.bands spectra)%nat ->
  exists bd175,
    alt_bd175_calculation spectra wavelengths = Returns bd175 /\
    length bd175 = length (Np.rows spectra) /\
    forall n row r_c1 r_c2 r_l r_s,
      nth_error (Np.rows spectra) n = Some row ->
      nth_error row c1 = Some r_c1 -> nth_error row c2 = Some r_c2 ->
      nth_error row l = Some r_l -> nth_error row s = Some r_s ->
      nth_error bd175 n
      = Some (PrimFloat.sub 1 (PrimFloat.div (PrimFloat.add r_c1 r_c2)
                                             (PrimFloat.add r_s r_l))).
Proof.
  intros H1 H2 Hl Hs B1 B2 Bl Bs. rewrite alt_bd175_equation.
  rewrite (first_match_find_index _ _ _ H1), (first_match_find_index _ _ _ H2),
    (first_match_find_index _ _ _ Hl), (first_match_find_index _ _ _ Hs).
  apply Nat.ltb_lt in B1, B2, Bl, Bs. rewrite B1, B2, Bl, Bs. cbn [andb].
  eexists. split; [reflexivity|]. split; [apply length_map|].
  intros n row r1 r2 rl rs Hrow E1 E2 El Es.
  rewrite nth_error_map, Hrow. cbn [option_map].
  now rewrite (nth_error_nth _ _ _ E1), (nth_error_nth _ _ _ E2),
    (nth_error_nth _ _ _ El), (nth_error_nth _ _ _ Es).
Qed.

Lemma alt_bd175_formula_witness :
  exists bd175,
    alt_bd175_calculation
      {| Np.rows := [[1; 2; 3; 4]; [1; 4; 6; 3]]%float; Np.bands := 4 |}
      [1.69082; 1.75009; 1.75668; 1.77644]%float
    = Returns bd175 /\
    length bd175 = 2%nat /\
    nth_error bd175 0 = Some 0%float /\
    nth_error bd175 1 = Some (-1.5)%float.
Proof.
  destruct (alt_bd175_formula
              {| Np.rows := [[1; 2; 3; 4]; [1; 4; 6; 3]]%float; Np.bands := 4 |}
              [1.69082; 1.75009; 1.75668; 1.77644]%float 1 2 3 0)
    as (bd175 & Hr & Hlen & Hf).
  - split; [exists 1.75009%float; split; reflexivity|].
    intros [|j] y Hj Hy; [|lia]. injection Hy as <-. reflexivity.
  - split; [exists 1.75668%float; split; reflexivity|].
    intros [|[|j]] y Hj Hy; try lia; injection Hy as <-; reflexivity.
  - split; [exists 1.77644%float; split; reflexivity|].
    intros [|[|[|j]]] y Hj Hy; try lia; injection Hy as <-; reflexivity.
  - split; [exists 1.69082%float; split; reflexivity|].
    intros j y Hj; lia.
  - simpl; lia.
  - simpl; lia.
  - simpl; lia.
  - simpl; lia.
  - exists bd175. split; [exact Hr|]. split; [exact Hlen|]. split.
    + exact (Hf 0%nat [1; 2; 3; 4]%float 2%float 3%float 4%float 1%float
               eq_refl eq_refl eq_refl eq_refl eq_refl).
    + exact (Hf 1%nat [1; 4; 6; 3]%float 4%float 6%float 3%float 1%float
               eq_refl eq_refl eq_refl eq_refl eq_refl).
Defined.

(** ** Exact divisions *)

Module DivisionLemmas.
Import FloatFacts FloatLemmas RoundingLemmas.
Local Open Scope Z_scope.


Lemma div_eucl_mul (q b : Z) : 0 < b -> Z.div_eucl (q * b) b = (q, 0).
Proof.
  intros Hb.
  pose proof (Z.div_mul q b ltac:(lia)) as Hq.
  pose proof (Z.mod_mul q b ltac:(lia)) as Hr.
  unfold Z.div, Z.modulo in Hq, Hr.
  destruct (Z.div_eucl (q * b) b) as [q' r']. now subst.
Qed.

Lemma new_location_zero n : new_location n 0 = loc_Exact.
Proof.
  unfold new_location, new_location_even, new_location_odd.
  destruct (Z.even n); reflexivity.
Qed.

(** A division whose quotient, at the exponent the algorithm chooses, is an
    integer. *)
Lemma SFdiv_core_exact (m1 m2 : positive) (e1 e2 e' q : Z) (s : positive) :
  Z.min (fexp prec emax (Zpos (digits2_pos m1) + e1
                         - (Zpos (digits2_pos m2) + e2))) (e1 - e2) = e' ->
  e1 - e2 - e' = Zpos s ->
  Zpos m1 * 2 ^ Zpos s = q * Zpos m2 ->
  SFdiv_core_binary prec emax (Zpos m1) e1 (Zpos m2) e2 = (q, e', loc_Exact).
Proof.
  intros He' Hs Hq. unfold SFdiv_core_binary. cbn [Zdigits2].
  cbv zeta. rewrite He', Hs.
  rewrite Z.shiftl_mul_pow2 by lia. rewrite Hq.
  rewrite div_eucl_mul by lia. now rewrite new_location_zero.
Qed.




Lemma SFdiv_self s m e :
  SF64div (S754_finite s m e) (S754_finite s m e) = SF_one.
Proof.
  unfold SF64div, SFdiv.
  replace (xorb s s) with false by (now destruct s).
  rewrite (SFdiv_core_exact m m e e (-53) (2 ^ 53) 53).
  - vm_compute. reflexivity.
  - replace (Zpos (digits2_pos m) + e - (Zpos (digits2_pos m) + e)) with 0
      by lia.
    rewrite Z.sub_diag. reflexivity.
  - lia.
  - apply Z.mul_comm.
Qed.


(** [x / x] is [1] for a finite [x] other than zero. *)
Lemma div_self (x : float) :
  PrimFloat.is_finite x = true -> PrimFloat.eqb x 0 = false ->
  PrimFloat.div x x = 1%float.
Proof.
  rewrite is_finite_spec, is_zero_spec. intros Hf Hz.
  apply Prim2SF_inj. rewrite FloatAxioms.div_spec.
  destruct (Prim2SF x) as [[]|[]| |s m e]; try discriminate.
  apply SFdiv_self.
Qed.

End DivisionLemmas.

(** ** Windows and kernel sizes *)

Lemma band_window_length (row : list float) pos half :
  (0 <= half <= Z.of_nat pos)%Z ->
  (Z.of_nat pos + half < Z.of_nat (length row))%Z ->
  length (band_window row (Z.of_nat pos - half) (Z.of_nat pos + half))
  = Z.to_nat (2 * half + 1).
Proof.
  intros H1 H2. unfold band_window.
  rewrite length_firstn, length_skipn. lia.
Qed.

Lemma floordiv2_effective k :
  Py.floordiv2 (effective_kernel_size k) = Py.floordiv2 k.
Proof.
  unfold Py.floordiv2, effective_kernel_size.
  destruct (Z.even k) eqn:E; [|reflexivity].
  apply Z.even_spec in E. destruct E as [m ->].
  rewrite (Z.mul_comm 2 m), Z.div_mul by lia.
  rewrite (Z.add_comm (m * 2) 1), Z.div_add by lia. reflexivity.
Qed.

Lemma effective_kernel_size_half k :
  (2 * (k / 2) + 1)%Z = effective_kernel_size k.
Proof.
  unfold effective_kernel_size.
  pose proof (Z.div_mod k 2 ltac:(lia)) as Hk.
  destruct (Z.even k) eqn:E.
  - rewrite Zmod_even, E in Hk. lia.
  - rewrite Zmod_even, E in Hk. lia.
Qed.

(** X11: the window of a kernel of size [k] that lies within the spectrum
    holds [2 * (k // 2) + 1] bands: [k] bands when [k] is odd and [k + 1]
    when [k] is even, so that an even kernel size gives the band depths of
    the next odd one. *)
Theorem even_kernel_is_next_odd :
  (forall (row : list float) pos k,
      window_fits row pos k ->
      length (Py.slice row (Z.of_nat pos - Py.floordiv2 k)
                (Z.of_nat pos + Py.floordiv2 k + 1))
      = Z.to_nat (effective_kernel_size k)) /\
  (forall spectra all_wavelengths bd_wavelengths k0 k1 k2,
      band_depth_calculation spectra all_wavelengths bd_wavelengths
        (k0, k1, k2)
      = band_depth_calculation spectra all_wavelengths bd_wavelengths
          (effective_kernel_size k0, effective_kernel_size k1,
           effective_kernel_size k2)).
Proof.
  split.
  - intros row pos k Hfit. rewrite slice_window_fits by exact Hfit.
    destruct Hfit as [H1 H2]. rewrite band_window_length by lia.
    now rewrite effective_kernel_size_half.
  - intros spectra wl [[s c] l] k0 k1 k2. unfold band_depth_calculation.
    now rewrite !floordiv2_effective.
Qed.

(** ** The weights at the two ends *)

Lemma zero_div (x y : float) :
  PrimFloat.eqb x 0 = true -> PrimFloat.is_nan y = false ->
  PrimFloat.eqb y 0 = false ->
  PrimFloat.eqb (PrimFloat.div x y) 0 = true.
Proof.
  rewrite !FloatLemmas.is_zero_spec, FloatLemmas.is_nan_spec,
    FloatAxioms.div_spec.
  destruct (Prim2SF x) as [[]|[]| |[] ? ?], (Prim2SF y) as [[]|[]| |[] ? ?];
    simpl; trivial; discriminate.
Qed.

Lemma one_minus_zero (x : float) :
  PrimFloat.eqb x 0 = true -> PrimFloat.sub 1 x = 1%float.
Proof.
  rewrite FloatLemmas.is_zero_spec. intros Hz.
  apply Prim2SF_inj. rewrite FloatAxioms.sub_spec.
  destruct (Prim2SF x) as [[]|[]| |[] ? ?]; try discriminate; reflexivity.
Qed.

Lemma sub_not_nan (x y : float) :
  PrimFloat.is_finite x = true -> PrimFloat.is_nan y = false ->
  PrimFloat.is_nan (PrimFloat.sub y x) = false.
Proof.
  rewrite FloatLemmas.is_finite_spec, !FloatLemmas.is_nan_spec,
    FloatAxioms.sub_spec.
  destruct (Prim2SF x) as [[]|[]| |sx mx ex] eqn:Ex,
    (Prim2SF y) as [[]|[]| |sy my ey] eqn:Ey;
    try discriminate; try reflexivity.
  intros _ _. unfold SF64sub, SFsub.
  apply FloatLemmas.binary_normalize_not_nan.
Qed.

(** X12: the weights at the two ends of the interval.  With the centre at
    the short wavelength all the weight is on the short reflectance
    ([a = 1], [b == 0]); with the centre at the long wavelength all of it is
    on the long one ([a = 0], [b = 1]), exactly. *)
Theorem wavelength_weights_at_ends (short long : float) :
  (PrimFloat.is_finite short = true -> PrimFloat.is_nan long = false ->
   PrimFloat.eqb long short = false ->
   exists b, wavelength_weights short short long = Ok (1%float, b) /\
             PrimFloat.eqb b 0 = true) /\
  (PrimFloat.is_finite (PrimFloat.sub long short) = true ->
   PrimFloat.eqb long short = false ->
   wavelength_weights short long long = Ok (0%float, 1%float)).
Proof.
  split.
  - intros Hf Hn Hne. rewrite wavelength_weights_distinct by exact Hne.
    unfold weights_formula.
    assert (Hz : PrimFloat.eqb
                   (PrimFloat.div (PrimFloat.sub short short)
                      (PrimFloat.sub long short)) 0 = true).
    { apply zero_div.
      - apply FloatLemmas.sub_eq_zero; [exact Hf|].
        rewrite FloatAxioms.eqb_spec, FloatLemmas.SFeqb_refl.
        rewrite FloatLemmas.is_finite_spec in Hf.
        destruct (Prim2SF short); trivial; discriminate.
      - now apply sub_not_nan.
      - now apply FloatLemmas.sub_not_zero. }
    eexists. split; [|exact Hz]. now rewrite (one_minus_zero _ Hz).
  - intros Hf Hne. rewrite wavelength_weights_distinct by exact Hne.
    unfold weights_formula.
    rewrite DivisionLemmas.div_self;
      [reflexivity | exact Hf | now apply FloatLemmas.sub_not_zero].
Qed.

(** ** Kernels of size one *)








(** ** The median of a window *)




(** ** The ratio of [d2300_calculation] *)

Lemma nth_error_zip_with {A B C} (f : A -> B -> C) xs ys n x y :
  nth_error xs n = Some x -> nth_error ys n = Some y ->
  nth_error (Np.zip_with f xs ys) n = Some (f x y).
Proof.
  revert ys n. induction xs as [|a xs IH]; intros [|b ys] [|n] Hx Hy;
    simpl in *; try discriminate.
  - now injection Hx as ->; injection Hy as ->.
  - now apply IH.
Qed.

Lemma sub_not_finite (x : float) :
  PrimFloat.is_finite x = false ->
  PrimFloat.is_finite (PrimFloat.sub 1 x) = false.
Proof.
  rewrite !FloatLemmas.is_finite_spec, FloatAxioms.sub_spec.
  change (Prim2SF 1) with FloatFacts.SF_one.
  destruct (Prim2SF x) as [[]|[]| |[] ? ?]; try discriminate; reflexivity.
Qed.

(** X15: [d2300_calculation] combines its six band depths spectrum by
    spectrum as [1 - ((bd2290 + bd2320) + bd2330) / ((bd2120 + bd2170) +
    bd2210)], in this order of the additions and without clamping; where the
    denominator is zero the value is not finite (NaN or an infinity), and
    nothing is raised. *)
Theorem d2300_formula (spectra : Np.array2) (wavelengths : list float)
  (bd2290 bd2320 bd2330 bd2120 bd2170 bd2210 : Np.array1) :
  band_depth_calculation spectra wavelengths
    (1.81598, 2.30456, 2.52951)%float (5, 3, 5)%Z = Ok bd2290 ->
  band_depth_calculation spectra wavelengths
    (1.81598, 2.32441, 2.52951)%float (5, 3, 5)%Z = Ok bd2320 ->
  band_depth_calculation spectra wavelengths
    (1.81598, 2.23182, 2.52951)%float (5, 3, 5)%Z = Ok bd2330 ->
  band_depth_calculation spectra wavelengths
    (1.81598, 2.11948, 2.52951)%float (5, 5, 5)%Z = Ok bd2120 ->
  band_depth_calculation spectra wavelengths
    (1.81598, 2.17233, 2.52951)%float (5, 5, 5)%Z = Ok bd2170 ->
  band_depth_calculation spectra wavelengths
    (1.81598, 2.21199, 2.52951)%float (5, 5, 5)%Z = Ok bd2210 ->
  exists d2300,
    d2300_calculation spectra wavelengths = Ok d2300 /\
    forall n x1 x2 x3 x4 x5 x6,
      nth_error bd2290 n = Some x1 -> nth_error bd2320 n = Some x2 ->
      nth_error bd2330 n = Some x3 -> nth_error bd2120 n = Some x4 ->
      nth_error bd2170 n = Some x5 -> nth_error bd2210 n = Some x6 ->
      let numerator := PrimFloat.add (PrimFloat.add x1 x2) x3 in
      let denominator := PrimFloat.add (PrimFloat.add x4 x5) x6 in
      nth_error d2300 n
      = Some (PrimFloat.sub 1 (PrimFloat.div numerator denominator)) /\
      (PrimFloat.eqb denominator 0 = true ->
       PrimFloat.is_finite
         (PrimFloat.sub 1 (PrimFloat.div numerator denominator)) = false).
Proof.
  intros H1 H2 H3 H4 H5 H6. unfold d2300_calculation.
  rewrite H1, H2, H3, H4, H5, H6. cbn [mbind result_bind rbind].
  apply band_depth_length in H1, H2, H3, H4, H5, H6.
  unfold Np.add, Np.divide.
  repeat (rewrite broadcast_same_length
            by (transitivity (length spectra); [lengths|symmetry; lengths]);
          cbn [mbind result_bind rbind]).
  eexists. split; [reflexivity|].
  intros n x1 x2 x3 x4 x5 x6 E1 E2 E3 E4 E5 E6. cbv zeta. split.
  - unfold Np.scalar_rsub. rewrite nth_error_map.
    rewrite (nth_error_zip_with _ _ _ _
               (PrimFloat.add (PrimFloat.add x1 x2) x3)
               (PrimFloat.add (PrimFloat.add x4 x5) x6)); [reflexivity| |];
      repeat (apply nth_error_zip_with; trivial).
  - intros Hz. apply sub_not_finite.
    now apply FloatLemmas.div_by_zero_not_finite.
Qed.

Lemma d2300_formula_witness :
  exists d2300,
    d2300_calculation [[1; 1; 1; 2; 2; 4; 2; 3; 2; 2; 1; 1; 1]]%float
      [1.6; 1.7; 1.81598; 2.11948; 2.17233; 2.21199; 2.23182; 2.30456;
       2.32441; 2.4; 2.52951; 2.6; 2.7]%float = Ok d2300 /\
    nth_error d2300 0 = Some (-0.16666666666666674)%float.
Proof.
  edestruct (d2300_formula
               [[1; 1; 1; 2; 2; 4; 2; 3; 2; 2; 1; 1; 1]]%float
               [1.6; 1.7; 1.81598; 2.11948; 2.17233; 2.21199; 2.23182;
                2.30456; 2.32441; 2.4; 2.52951; 2.6; 2.7]%float)
    as (d2300 & Hr & Hf); try (vm_compute; reflexivity).
  exists d2300. split; [exact Hr|].
  edestruct (Hf 0%nat) as [Hv _]; try reflexivity. exact Hv.
Defined.

(** ** Assignment in place *)

Lemma run_bind_Ok {A B} (m : Store.M A) (k : A -> Store.M B) h a h1 :
  m h = Some (Ok a, h1) -> (m ≫= k) h = k a h1.
Proof.
  intros H. unfold mbind, Store.M_bind, Store.bind. now rewrite H.
Qed.

Lemma run_bind_Raise {A B} (m : Store.M A) (k : A -> Store.M B) h e h1 :
  m h = Some (Raise e, h1) -> (m ≫= k) h = Some (Raise e, h1).
Proof.
  intros H. unfold mbind, Store.M_bind, Store.bind. now rewrite H.
Qed.

Lemma run_clamped_depth h spectra rows wavelengths term :
  h !! spectra = Some (Store.Arr2 rows) ->
  Store.wp (Store.clamped_depth spectra wavelengths term) h
    (Store.returns_fresh h (clamped_depth rows wavelengths term)).
Proof.
  intros Hsp. unfold Store.clamped_depth, clamped_depth.
  destruct (StoreLemmas.run_band_depth h spectra rows wavelengths term.1 term.2
              Hsp) as (r1 & h1 & E1 & S1 & R1).
  destruct (band_depth_calculation rows wavelengths term.1 term.2)
    as [depth|e]; destruct r1 as [ld|e']; simpl in R1; try contradiction.
  - destruct R1 as [F1 L1].
    set (l := fresh (dom h1)).
    assert (Hl1 : h1 !! l = None) by apply not_elem_of_dom, is_fresh.
    assert (Hl : h !! l = None) by exact (lookup_weaken_None _ _ _ Hl1 S1).
    set (h2 := <[l := Store.Arr1 (Np.scalar_rsub 1 depth)]> h1).
    set (h3 := <[l := Store.Arr1
                   (Np.clamp_negative (Np.scalar_rsub 1 depth))]> h2).
    exists (Ok l), h3. split; [|split].
    + rewrite (run_bind_Ok _ _ _ _ _ E1).
      assert (E2 : Store.scalar_rsub 1 ld h1 = Some (Ok l, h2)).
      { unfold Store.scalar_rsub.
        erewrite run_bind_Ok; [reflexivity|].
        unfold Store.read1. now rewrite L1. }
      rewrite (run_bind_Ok _ _ _ _ _ E2).
      assert (E3 : Store.clamp_negative l h2 = Some (Ok tt, h3)).
      { unfold Store.clamp_negative.
        erewrite run_bind_Ok;
          [|unfold Store.read1, h2; rewrite lookup_insert_eq; reflexivity].
        unfold Store.write, h2. now rewrite lookup_insert_eq. }
      rewrite (run_bind_Ok _ _ _ _ _ E3). reflexivity.
    + unfold h3, h2. apply insert_subseteq_r; [exact Hl|].
      apply insert_subseteq_r; assumption.
    + cbn [mbind result_bind rbind]. split; [exact Hl|].
      unfold h3. apply lookup_insert_eq.
  - subst e'. exists (Raise e), h1. split; [|split; [exact S1|reflexivity]].
    now rewrite (run_bind_Raise _ _ _ _ _ E1).
Qed.

Ltac weaken_lookups S :=
  match type of S with
  | ?hp ⊆ ?hn =>
      repeat match goal with
        | H : hp !! ?x = Some ?v |- _ =>
            apply (fun H0 => lookup_weaken hp hn x v H0 S) in H
        end
  end.

Ltac clamped_step rows T :=
  let r := fresh "r" in
  let hn := fresh "h" in
  let S := fresh "S" in
  let Hr := fresh "Hr" in
  let v := fresh "bd" in
  let l := fresh "l" in
  let e := fresh "e" in
  let L := fresh "L" in
  apply StoreLemmas.wp_bind;
  eapply StoreLemmas.wp_consequence;
  [ apply (run_clamped_depth _ _ rows); eassumption | ];
  intros r hn S Hr;
  match type of Hr with
  | Store.returns_fresh _ ?pure _ _ =>
      destruct pure as [v|e]; destruct r as [l|?]; simpl in Hr;
      try contradiction;
      cbn [mbind result_bind rbind];
      [ destruct Hr as [_ L]; weaken_lookups S;
        apply (fun T0 => transitivity T0 S) in T; clear S
      | subst; reflexivity ]
  end.

Ltac add_step :=
  let r := fresh "s" in
  let l := fresh "l" in
  let hn := fresh "h" in
  let S := fresh "S" in
  let F := fresh "F" in
  let L := fresh "L" in
  lazymatch goal with
  | |- Store.wp (mbind _ (Store.add _ _)) _ _ => apply StoreLemmas.wp_bind
  | |- Store.wp (Store.add _ _) _ _ => idtac
  end;
  lazymatch goal with
  | |- Store.wp (Store.add ?a ?b) ?h _ =>
      lazymatch goal with
      | Ha : h !! a = Some (Store.Arr1 ?xs) |- _ =>
          lazymatch goal with
          | Hb : h !! b = Some (Store.Arr1 ?ys) |- _ =>
              apply (StoreLemmas.wp_add a b xs ys); [exact Ha | exact Hb |];
              destruct (Np.add xs ys) as [r|?];
              cbn [mbind result_bind rbind];
              [ intros l hn S F L | reflexivity ]
          end
      end
  end.

Lemma run_hyd_femg h spectra rows wavelengths :
  h !! spectra = Some (Store.Arr2 rows) ->
  Store.wp (Store.hyd_femg_clay_index_calculation spectra wavelengths) h
    (Store.returns_fresh h (hyd_femg_clay_index_calculation rows wavelengths)).
Proof.
  intros Hsp.
  unfold Store.hyd_femg_clay_index_calculation, hyd_femg_clay_index_calculation.
  apply StoreLemmas.wp_bind, (StoreLemmas.wp_zeros_like_rows spectra rows);
    [exact Hsp|].
  intros z h0 T _. weaken_lookups T.
  do 7 clamped_step rows T.
  do 5 (add_step;
        match goal with
        | S : ?hp ⊆ ?hn, T : _ ⊆ ?hp |- _ =>
            weaken_lookups S;
            apply (fun T0 => transitivity T0 S) in T; clear S
        end).
  add_step.
  split; [|assumption].
  match goal with
  | F : ?hp !! ?l = None, T : _ ⊆ ?hp |- _ !! ?l = None =>
      exact (lookup_weaken_None _ _ _ F T)
  end.
Qed.

Lemma run_bd1750 h spectra rows wavelengths :
  h !! spectra = Some (Store.Arr2 rows) ->
  Store.wp (Store.bd1750_calculation spectra wavelengths) h
    (Store.returns_fresh h (bd1750_calculation rows wavelengths)).
Proof.
  intros Hsp. unfold Store.bd1750_calculation, bd1750_calculation.
  apply StoreLemmas.wp_bind, (StoreLemmas.wp_zeros_like_rows spectra rows);
    [exact Hsp|].
  intros z h0 T F. weaken_lookups T.
  eapply StoreLemmas.wp_consequence;
    [apply (run_clamped_depth _ _ rows); exact Hsp|].
  intros r h1 S Hr.
  destruct (clamped_depth rows wavelengths _) as [v|e]; destruct r as [l|e'];
    simpl in Hr; try contradiction; [|exact Hr].
  destruct Hr as [Hl Hv]. split; [|exact Hv].
  exact (lookup_weaken_None _ _ _ Hl T).
Qed.

Ltac band_depth_step rows T :=
  let r := fresh "r" in
  let hn := fresh "h" in
  let S := fresh "S" in
  let Hr := fresh "Hr" in
  let v := fresh "bd" in
  let l := fresh "l" in
  let e := fresh "e" in
  let L := fresh "L" in
  apply StoreLemmas.wp_bind;
  eapply StoreLemmas.wp_consequence;
  [ apply (StoreLemmas.run_band_depth _ _ rows); eassumption | ];
  intros r hn S Hr;
  match type of Hr with
  | Store.returns_fresh _ ?pure _ _ =>
      destruct pure as [v|e]; destruct r as [l|?]; simpl in Hr;
      try contradiction;
      cbn [mbind result_bind rbind];
      [ destruct Hr as [_ L]; weaken_lookups S;
        apply (fun T0 => transitivity T0 S) in T; clear S
      | subst; reflexivity ]
  end.

Ltac extend_store T :=
  match goal with
  | S : ?hp ⊆ ?hn |- _ =>
      match type of T with
      | _ ⊆ hp =>
          weaken_lookups S;
          apply (fun T0 => transitivity T0 S) in T; clear S
      end
  end.

Lemma wp_scalar_rsub c a xs h (Q : result Store.loc -> Store.heap -> Prop) :
  h !! a = Some (Store.Arr1 xs) ->
  (forall l h1, h ⊆ h1 -> h !! l = None ->
                h1 !! l = Some (Store.Arr1 (Np.scalar_rsub c xs)) ->
                Q (Ok l) h1) ->
  Store.wp (Store.scalar_rsub c a) h Q.
Proof.
  intros Ha H. unfold Store.scalar_rsub.
  apply StoreLemmas.wp_bind, (StoreLemmas.wp_read1 a xs); [exact Ha|].
  now apply StoreLemmas.wp_alloc.
Qed.

Lemma run_d2300 h spectra rows wavelengths :
  h !! spectra = Some (Store.Arr2 rows) ->
  Store.wp (Store.d2300_calculation spectra wavelengths) h
    (Store.returns_fresh h (d2300_calculation rows wavelengths)).
Proof.
  intros Hsp. unfold Store.d2300_calculation, d2300_calculation.
  apply StoreLemmas.wp_bind, (StoreLemmas.wp_zeros_like_rows spectra rows);
    [exact Hsp|].
  intros z h0 T _. weaken_lookups T.
  do 6 band_depth_step rows T.
  do 4 (add_step; extend_store T).
  apply StoreLemmas.wp_bind.
  match goal with
  | Ha : ?h !! ?a = Some (Store.Arr1 ?xs),
    Hb : ?h !! ?b = Some (Store.Arr1 ?ys)
    |- Store.wp (Store.divide ?a ?b) ?h _ =>
      apply (StoreLemmas.wp_divide a b xs ys); [exact Ha | exact Hb |];
      destruct (Np.divide xs ys) as [ratio|?];
      cbn [mbind result_bind rbind]; [|reflexivity]
  end.
  intros l_ratio h_ratio S_ratio F_ratio L_ratio. extend_store T.
  apply (wp_scalar_rsub 1 l_ratio ratio); [exact L_ratio|].
  intros l_out h_out S_out F_out L_out. split; [|exact L_out].
  exact (lookup_weaken_None _ _ _ F_out T).
Qed.

(** X16: the summary parameters leave the spectra, and every other array
    that exists when they are called, as they were.
    [hyd_femg_clay_index_calculation] and [bd1750_calculation] do assign in
    place ([bd[bd < 0] = 0]), but only into arrays they have just created;
    what the three functions return is the value of the function in an array
    that did not exist before (or the exception it raises). *)
Theorem summary_parameters_leave_inputs_unchanged
  (h : Store.heap) (spectra : Store.loc) (rows : Np.array2)
  (wavelengths : list float) :
  h !! spectra = Some (Store.Arr2 rows) ->
  (exists r h',
      Store.hyd_femg_clay_index_calculation spectra wavelengths h
      = Some (r, h') /\ h ⊆ h' /\
      Store.returns_fresh h
        (hyd_femg_clay_index_calculation rows wavelengths) r h') /\
  (exists r h',
      Store.bd1750_calculation spectra wavelengths h = Some (r, h') /\
      h ⊆ h' /\
      Store.returns_fresh h (bd1750_calculation rows wavelengths) r h') /\
  (exists r h',
      Store.d2300_calculation spectra wavelengths h = Some (r, h') /\
      h ⊆ h' /\
      Store.returns_fresh h (d2300_calculation rows wavelengths) r h').
Proof.
  intros Hsp. split; [|split].
  - now apply run_hyd_femg.
  - now apply run_bd1750.
  - now apply run_d2300.
Qed.

Lemma summary_parameters_leave_inputs_unchanged_witness :
  exists r h',
    Store.bd1750_calculation 1%positive [1.55264; 1.75009; 1.81598]%float
      {[ 1%positive := Store.Arr2 [[2; 3; 2]%float] ]}
    = Some (r, h') /\
    {[ 1%positive := Store.Arr2 [[2; 3; 2]%float] ]} ⊆ h' /\
    Store.returns_fresh {[ 1%positive := Store.Arr2 [[2; 3; 2]%float] ]}
      (Ok [0%float]) r h'.
Proof.
  assert (Hs : ({[ 1%positive := Store.Arr2 [[2; 3; 2]%float] ]} : Store.heap)
               !! 1%positive = Some (Store.Arr2 [[2; 3; 2]%float]))
    by reflexivity.
  destruct (summary_parameters_leave_inputs_unchanged _ _ _
              [1.55264; 1.75009; 1.81598]%float Hs) as (_ & H & _).
  exact H.
Defined.

(** ** Shapes that do not match *)

Lemma broadcast_length_one_l f x ys :
  Np.broadcast f [x] ys = Ok (map (fun y => f x y) ys).
Proof.
  unfold Np.broadcast. destruct ys as [|y [|y' ys]]; reflexivity.
Qed.

Lemma broadcast_length_one_r f xs y :
  Np.broadcast f xs [y] = Ok (map (fun x => f x y) xs).
Proof.
  unfold Np.broadcast. destruct xs as [|x [|x' xs]]; reflexivity.
Qed.

Lemma broadcast_mismatch f xs ys :
  length xs <> length ys -> length xs <> 1%nat -> length ys <> 1%nat ->
  Np.broadcast f xs ys = Raise ValueError.
Proof.
  intros Hne Hx Hy. unfold Np.broadcast.
  destruct (Nat.eqb_spec (length xs) (length ys)) as [E|_]; [now destruct Hne|].
  destruct xs as [|x [|x' xs]], ys as [|y [|y' ys]]; simpl in *;
    try reflexivity; congruence.
Qed.

(** X17: the shapes [interpolated_center_wavelength_reflectance] accepts.
    For a wavelength triple whose difference [long - short] is not zero, two
    arrays of the same length, or of which one has length one, give an array
    (of the longer length, the single element being repeated); any other
    pair of lengths raises [ValueError]. *)
Theorem interpolated_shapes (short_ref long_ref : Np.array1)
  (short center long : float) :
  PrimFloat.eqb (PrimFloat.sub long short) 0 = false ->
  (length short_ref = length long_ref \/ length short_ref = 1%nat \/
   length long_ref = 1%nat ->
   exists r,
     interpolated_center_wavelength_reflectance short_ref
       (short, center, long) long_ref = Ok r /\
     length r = if (length short_ref =? 1)%nat then length long_ref
                else length short_ref) /\
  (length short_ref <> length long_ref -> length short_ref <> 1%nat ->
   length long_ref <> 1%nat ->
   interpolated_center_wavelength_reflectance short_ref
     (short, center, long) long_ref = Raise ValueError).
Proof.
  intros Hne. unfold interpolated_center_wavelength_reflectance.
  rewrite wavelength_weights_equation, Hne.
  destruct (weights_formula short center long) as [a b].
  cbn [mbind result_bind rbind]. unfold Np.add, Np.scalar_mul. split.
  - intros H.
    destruct (Nat.eqb_spec (length short_ref) 1) as [E1|N1].
    + destruct short_ref as [|x [|x' xs]]; try discriminate.
      cbn [map]. rewrite broadcast_length_one_l. eexists.
      split; [reflexivity|]. now rewrite !length_map.
    + destruct H as [H|[H|H]]; [|contradiction|].
      * rewrite broadcast_same_length by now rewrite !length_map.
        eexists. split; [reflexivity|].
        rewrite zip_with_length; now rewrite !length_map.
      * destruct long_ref as [|y [|y' ys]]; try discriminate.
        cbn [map]. rewrite broadcast_length_one_r.
        eexists. split; [reflexivity|]. now rewrite !length_map.
  - intros H H1 H2. apply broadcast_mismatch; now rewrite !length_map.
Qed.

Lemma interpolated_shapes_witness :
  (exists r,
      interpolated_center_wavelength_reflectance [1%float] (1, 2, 3)%float
        [3; 5; 7]%float = Ok r /\ length r = 3%nat) /\
  interpolated_center_wavelength_reflectance [1; 2]%float (1, 2, 3)%float
    [3; 5; 7]%float = Raise ValueError.
Proof.
  split.
  - destruct (interpolated_shapes [1%float] [3; 5; 7]%float 1 2 3 eq_refl)
      as [H _].
    apply H. right. left. reflexivity.
  - destruct (interpolated_shapes [1; 2]%float [3; 5; 7]%float 1 2 3 eq_refl)
      as [_ H].
    apply H; simpl; lia.
Defined.

(** ** The sum of [hyd_femg_clay_index_calculation] *)

Lemma nth_error_clamped bd n x :
  nth_error bd n = Some x ->
  nth_error (Np.clamp_negative (Np.scalar_rsub 1 bd)) n
  = Some (clamped_term x).
Proof.
  intros H. unfold Np.clamp_negative, Np.scalar_rsub.
  now rewrite !nth_error_map, H.
Qed.

(** X18: the value of the hydrated Fe/Mg clay index.  For each spectrum it
    is the sum, from left to right, of the seven terms [1 - depth] clamped
    below at zero, in the order bd14, bd19, bd229, bd231, bd232, bd238,
    bd240 of the source. *)
Theorem hyd_femg_formula (spectra : Np.array2) (wavelengths : list float)
  (d14 d19 d229 d231 d232 d238 d240 : Np.array1) :
  band_depth_calculation spectra wavelengths
    (1.33578, 1.41459, 1.55264)%float (5, 3, 5)%Z = Ok d14 ->
  band_depth_calculation spectra wavelengths
    (1.86212, 1.92146, 2.07985)%float (5, 5, 5)%Z = Ok d19 ->
  band_depth_calculation spectra wavelengths
    (2.15251, 2.28472, 2.34426)%float (3, 5, 3)%Z = Ok d229 ->
  band_depth_calculation spectra wavelengths
    (2.15251, 2.30456, 2.34426)%float (3, 3, 3)%Z = Ok d231 ->
  band_depth_calculation spectra wavelengths
    (2.15251, 2.32441, 2.34426)%float (3, 3, 3)%Z = Ok d232 ->
  band_depth_calculation spectra wavelengths
    (2.34426, 2.38396, 2.4303)%float (3, 3, 3)%Z = Ok d238 ->
  band_depth_calculation spectra wavelengths
    (2.34426, 2.3972, 2.4303)%float (3, 3, 3)%Z = Ok d240 ->
  exists index,
    hyd_femg_clay_index_calculation spectra wavelengths = Ok index /\
    forall n x1 x2 x3 x4 x5 x6 x7,
      nth_error d14 n = Some x1 -> nth_error d19 n = Some x2 ->
      nth_error d229 n = Some x3 -> nth_error d231 n = Some x4 ->
      nth_error d232 n = Some x5 -> nth_error d238 n = Some x6 ->
      nth_error d240 n = Some x7 ->
      nth_error index n
      = Some (clamped_term x1 + clamped_term x2 + clamped_term x3
              + clamped_term x4 + clamped_term x5 + clamped_term x6
              + clamped_term x7)%float.
Proof.
  intros H1 H2 H3 H4 H5 H6 H7.
  unfold hyd_femg_clay_index_calculation, clamped_depth. cbn [fst snd].
  rewrite H1, H2, H3, H4, H5, H6, H7. cbn [mbind result_bind rbind].
  apply band_depth_length in H1, H2, H3, H4, H5, H6, H7.
  unfold Np.add.
  repeat (rewrite broadcast_same_length
            by (transitivity (length spectra); [lengths|symmetry; lengths]);
          cbn [mbind result_bind rbind]).
  eexists. split; [reflexivity|].
  intros n x1 x2 x3 x4 x5 x6 x7 E1 E2 E3 E4 E5 E6 E7.
  repeat (apply nth_error_zip_with; [|now apply nth_error_clamped]).
  now apply nth_error_clamped.
Qed.

Lemma hyd_femg_formula_witness :
  exists index,
    hyd_femg_clay_index_calculation sample_spectra sample_wavelengths
    = Ok index /\
    nth_error index 0 = Some 0%float.
Proof.
  edestruct (hyd_femg_formula sample_spectra sample_wavelengths)
    as (index & Hr & Hf); try (vm_compute; reflexivity).
  exists index. split; [exact Hr|].
  exact (Hf 0%nat 1 1 1 1 1 1 1 eq_refl eq_refl eq_refl eq_refl eq_refl
           eq_refl eq_refl)%float.
Defined.

(** ** Bands outside the windows *)

Lemma slice_ext (row row' : list float) lo hi :
  length row = length row' -> (0 <= lo)%Z -> (0 <= hi)%Z ->
  (forall j, (lo <= Z.of_nat j < hi)%Z -> nth_error row j = nth_error row' j) ->
  Py.slice row lo hi = Py.slice row' lo hi.
Proof.
  intros Hlen Hlo Hhi Hagree. unfold Py.slice. rewrite <- Hlen.
  unfold Py.adjust_index.
  destruct (Z.ltb_spec lo 0); [lia|]. destruct (Z.ltb_spec hi 0); [lia|].
  apply nth_error_ext. intros m. rewrite !nth_error_firstn.
  destruct (Nat.ltb_spec m
              (Z.to_nat (Z.min hi (Z.of_nat (length row))
                         - Z.min lo (Z.of_nat (length row)))));
    [|reflexivity].
  rewrite !nth_error_skipn. apply Hagree. lia.
Qed.

(** X19: the band depth of a spectrum depends on the bands of its three
    kernel windows only.  Two spectra of the same length that agree on every
    band of the three windows (windows of a kernel size [>= 0] that do not
    start before the first band) have the same band depth, whatever their
    other bands hold. *)
Theorem band_depth_reads_its_windows
  (all_wavelengths : list float) (short center long : float) (k0 k1 k2 : Z)
  (i0 i1 i2 : nat) (row row' : list float) :
  first_match all_wavelengths short i0 ->
  first_match all_wavelengths center i1 ->
  first_match all_wavelengths long i2 ->
  (0 <= k0 / 2 <= Z.of_nat i0)%Z -> (0 <= k1 / 2 <= Z.of_nat i1)%Z ->
  (0 <= k2 / 2 <= Z.of_nat i2)%Z ->
  length row = length row' ->
  (forall j,
      in_window i0 k0 j \/ in_window i1 k1 j \/ in_window i2 k2 j ->
      nth_error row j = nth_error row' j) ->
  band_depth_calculation [row] all_wavelengths (short, center, long)
    (k0, k1, k2)
  = band_depth_calculation [row'] all_wavelengths (short, center, long)
      (k0, k1, k2).
Proof.
  intros H0 H1 H2 L0 L1 L2 Hlen Hagree.
  rewrite !band_depth_equation.
  rewrite (first_match_find_index _ _ _ H0), (first_match_find_index _ _ _ H1),
    (first_match_find_index _ _ _ H2).
  destruct (PrimFloat.eqb (PrimFloat.sub long short) 0); [reflexivity|].
  cbn [map]. unfold extracted_reflectance, Py.floordiv2.
  assert (Hslice : forall pos k,
             (0 <= k / 2 <= Z.of_nat pos)%Z ->
             (forall j, in_window pos k j ->
                        nth_error row j = nth_error row' j) ->
             Py.slice row (Z.of_nat pos - k / 2) (Z.of_nat pos + k / 2 + 1)
             = Py.slice row' (Z.of_nat pos - k / 2) (Z.of_nat pos + k / 2 + 1)).
  { intros pos k Hk Hw. apply slice_ext; trivial; try lia.
    intros j Hj. apply Hw. unfold in_window. lia. }
  rewrite (Hslice i0 k0), (Hslice i1 k1), (Hslice i2 k2); auto.
Qed.

Lemma band_depth_reads_its_windows_witness :
  band_depth_calculation [[9; 2; 1; 2; 9]]%float [1; 2; 3; 4; 5]%float
    (2, 3, 4)%float (1, 1, 1)%Z
  = band_depth_calculation [[0; 2; 1; 2; 7]]%float [1; 2; 3; 4; 5]%float
      (2, 3, 4)%float (1, 1, 1)%Z.
Proof.
  apply (band_depth_reads_its_windows _ _ _ _ _ _ _ 1 2 3).
  - split; [exists 2%float; split; reflexivity|].
    intros [|j] y Hj Hy; [|lia]. injection Hy as <-. reflexivity.
  - split; [exists 3%float; split; reflexivity|].
    intros [|[|j]] y Hj Hy; try lia; injection Hy as <-; reflexivity.
  - split; [exists 4%float; split; reflexivity|].
    intros [|[|[|j]]] y Hj Hy; try lia; injection Hy as <-; reflexivity.
  - split; apply Z.leb_le; reflexivity.
  - split; apply Z.leb_le; reflexivity.
  - split; apply Z.leb_le; reflexivity.
  - reflexivity.
  - intros j Hj. unfold in_window in Hj.
    change (1 / 2)%Z with 0%Z in Hj.
    destruct j as [|[|[|[|[|j]]]]]; try reflexivity; lia.
Defined.
